(** * The STL surface writer of SU2 ([CSTLFileWriter.cpp])

    A shallow embedding of [CSTLFileWriter::ReprocessElementConnectivity],
    [GatherCoordData], [Write_Data] and [GetHaloNodeValue], run by every rank of
    an SPMD program, together with the MPI collectives they call.

    Conventions of the embedding:
    - a global node number ([unsigned long]) is an [N]; the only operation of
      the source that can wrap, the unsigned subtraction, is [usub];
    - counts, displacements and loop indices ([int], [unsigned long],
      [unsigned short]) are [nat]: the model assumes they stay below the
      bounds of their C++ types;
    - a [su2double]/[passivedouble] is a value of an abstract type [V] that is
      only moved around; [zero] is [0.0] and [show_double p v] is what an
      [ofstream] of precision [p] prints for [v];
    - a [std::vector] is a list, read with [!!!] and written with [<[i:=x]>];
      a [std::set<unsigned long>] is a strictly increasing list;
    - a process-terminating [SU2_MPI::Error] is the outcome [Fatal msg];
    - the world is the list of the writers of all ranks, and a collective is a
      function of the buffers of all ranks. *)

From stdpp Require Import base numbers list strings sorting pretty.

(** ** Machine integers *)

Definition ULONG_MODULUS : Z := 2 ^ 64.

(** Subtraction of two [unsigned long]: modulo [2^64]. *)
Definition usub (a b : N) : N :=
  Z.to_N ((Z.of_N a - Z.of_N b) `mod` ULONG_MODULUS).

(** ** Outcomes: a value, or the fatal error that ends the process *)

Inductive outcome (A : Type) : Type :=
| Ok (a : A)
| Fatal (msg : string).
Arguments Ok {A} a.
Arguments Fatal {A} msg.

Definition obind {A B} (m : outcome A) (f : A → outcome B) : outcome B :=
  match m with
  | Ok a => f a
  | Fatal msg => Fatal msg
  end.

(** A [for] loop over [l] whose body may end the process. *)
Fixpoint for_each {A S} (body : S → A → outcome S) (s : S) (l : list A) : outcome S :=
  match l with
  | [] => Ok s
  | x :: l' => obind (body s x) (λ s', for_each body s' l')
  end.

(** All ranks run a step; the program goes on only if none of them aborted. *)
Fixpoint all_ok {A} (l : list (outcome A)) : outcome (list A) :=
  match l with
  | [] => Ok []
  | m :: l' => obind m (λ a, obind (all_ok l') (λ r, Ok (a :: r)))
  end.

(** ** Element kinds *)

Inductive GEO_TYPE : Set := TRIANGLE | QUADRILATERAL.

(** Modelled from the spec: the constants of [option_structure.hpp], which is
    not among the sources ("triangle: 3 nodes; quadrilateral: 4 nodes"). *)
Definition N_POINTS_TRIANGLE : nat := 3.

(** Modelled from the spec: see [N_POINTS_TRIANGLE]. *)
Definition N_POINTS_QUADRILATERAL : nat := 4.

Definition N_POINTS (t : GEO_TYPE) : nat :=
  match t with
  | TRIANGLE => N_POINTS_TRIANGLE
  | QUADRILATERAL => N_POINTS_QUADRILATERAL
  end.

(** ** The data sorter

    [CParallelDataSorter] is not among the sources: a rank's sorter is the
    record of the five accessors the writer calls on it. *)
Record CParallelDataSorter (V : Type) : Type := {
  GetnElem : GEO_TYPE → nat;
  GetElem_Connectivity : GEO_TYPE → nat → nat → N;
  FindProcessor : N → nat;
  GetNodeBegin : nat → N;
  GetData : nat → N → V
}.
Arguments GetnElem {V} _ _.
Arguments GetElem_Connectivity {V} _ _ _ _.
Arguments FindProcessor {V} _ _.
Arguments GetNodeBegin {V} _ _.
Arguments GetData {V} _ _ _.

(** ** The writer object of one rank

    The first five fields are those of the base class [CFileWriter] that the
    writer reads; the others are the members of [CSTLFileWriter]. A pointer
    member is [None] when it is [NULL]. *)
Record CSTLFileWriter (V : Type) : Type := {
  rank : nat;
  size : nat;
  fieldnames : list string;
  fileName : string;
  dataSorter : CParallelDataSorter V;
  num_nodes_to_receive : list nat;
  values_to_receive_displacements : list nat;
  halo_nodes : list N;
  sorted_halo_nodes : list N;
  num_halo_nodes : nat;
  num_nodes_to_send : list nat;
  nodes_to_send_displacements : list nat;
  nodes_to_receive_displacements : list nat;
  nodes_to_send : list N;
  data_to_send : list V;
  halo_var_data : list V;
  num_values_to_send : list nat;
  values_to_send_displacements : list nat;
  num_values_to_receive : list nat;
  MaxLocalTriaAll : nat;
  Buffer_Recv_nTriaAll : option (list nat);
  bufD_Recv : option (list V)
}.
Arguments rank {V} _.
Arguments size {V} _.
Arguments fieldnames {V} _.
Arguments fileName {V} _.
Arguments dataSorter {V} _.
Arguments num_nodes_to_receive {V} _.
Arguments values_to_receive_displacements {V} _.
Arguments halo_nodes {V} _.
Arguments sorted_halo_nodes {V} _.
Arguments num_halo_nodes {V} _.
Arguments num_nodes_to_send {V} _.
Arguments nodes_to_send_displacements {V} _.
Arguments nodes_to_receive_displacements {V} _.
Arguments nodes_to_send {V} _.
Arguments data_to_send {V} _.
Arguments halo_var_data {V} _.
Arguments num_values_to_send {V} _.
Arguments values_to_send_displacements {V} _.
Arguments num_values_to_receive {V} _.
Arguments MaxLocalTriaAll {V} _.
Arguments Buffer_Recv_nTriaAll {V} _.
Arguments bufD_Recv {V} _.

(** Assignments to the members. *)

Definition set_num_nodes_to_receive {V} (x : list nat) (w : CSTLFileWriter V) : CSTLFileWriter V :=
  {| rank := rank w; size := size w; fieldnames := fieldnames w; fileName := fileName w;
     dataSorter := dataSorter w; num_nodes_to_receive := x; values_to_receive_displacements :=
     values_to_receive_displacements w; halo_nodes := halo_nodes w; sorted_halo_nodes :=
     sorted_halo_nodes w; num_halo_nodes := num_halo_nodes w; num_nodes_to_send := num_nodes_to_send
     w; nodes_to_send_displacements := nodes_to_send_displacements w; nodes_to_receive_displacements
     := nodes_to_receive_displacements w; nodes_to_send := nodes_to_send w; data_to_send :=
     data_to_send w; halo_var_data := halo_var_data w; num_values_to_send := num_values_to_send w;
     values_to_send_displacements := values_to_send_displacements w; num_values_to_receive :=
     num_values_to_receive w; MaxLocalTriaAll := MaxLocalTriaAll w; Buffer_Recv_nTriaAll :=
     Buffer_Recv_nTriaAll w; bufD_Recv := bufD_Recv w |}.

Definition set_values_to_receive_displacements {V} (x : list nat) (w : CSTLFileWriter V) : CSTLFileWriter V :=
  {| rank := rank w; size := size w; fieldnames := fieldnames w; fileName := fileName w;
     dataSorter := dataSorter w; num_nodes_to_receive := num_nodes_to_receive w;
     values_to_receive_displacements := x; halo_nodes := halo_nodes w; sorted_halo_nodes :=
     sorted_halo_nodes w; num_halo_nodes := num_halo_nodes w; num_nodes_to_send := num_nodes_to_send
     w; nodes_to_send_displacements := nodes_to_send_displacements w; nodes_to_receive_displacements
     := nodes_to_receive_displacements w; nodes_to_send := nodes_to_send w; data_to_send :=
     data_to_send w; halo_var_data := halo_var_data w; num_values_to_send := num_values_to_send w;
     values_to_send_displacements := values_to_send_displacements w; num_values_to_receive :=
     num_values_to_receive w; MaxLocalTriaAll := MaxLocalTriaAll w; Buffer_Recv_nTriaAll :=
     Buffer_Recv_nTriaAll w; bufD_Recv := bufD_Recv w |}.

Definition set_halo_nodes {V} (x : list N) (w : CSTLFileWriter V) : CSTLFileWriter V :=
  {| rank := rank w; size := size w; fieldnames := fieldnames w; fileName := fileName w;
     dataSorter := dataSorter w; num_nodes_to_receive := num_nodes_to_receive w;
     values_to_receive_displacements := values_to_receive_displacements w; halo_nodes := x;
     sorted_halo_nodes := sorted_halo_nodes w; num_halo_nodes := num_halo_nodes w; num_nodes_to_send
     := num_nodes_to_send w; nodes_to_send_displacements := nodes_to_send_displacements w;
     nodes_to_receive_displacements := nodes_to_receive_displacements w; nodes_to_send :=
     nodes_to_send w; data_to_send := data_to_send w; halo_var_data := halo_var_data w;
     num_values_to_send := num_values_to_send w; values_to_send_displacements :=
     values_to_send_displacements w; num_values_to_receive := num_values_to_receive w;
     MaxLocalTriaAll := MaxLocalTriaAll w; Buffer_Recv_nTriaAll := Buffer_Recv_nTriaAll w; bufD_Recv
     := bufD_Recv w |}.

Definition set_sorted_halo_nodes {V} (x : list N) (w : CSTLFileWriter V) : CSTLFileWriter V :=
  {| rank := rank w; size := size w; fieldnames := fieldnames w; fileName := fileName w;
     dataSorter := dataSorter w; num_nodes_to_receive := num_nodes_to_receive w;
     values_to_receive_displacements := values_to_receive_displacements w; halo_nodes := halo_nodes
     w; sorted_halo_nodes := x; num_halo_nodes := num_halo_nodes w; num_nodes_to_send :=
     num_nodes_to_send w; nodes_to_send_displacements := nodes_to_send_displacements w;
     nodes_to_receive_displacements := nodes_to_receive_displacements w; nodes_to_send :=
     nodes_to_send w; data_to_send := data_to_send w; halo_var_data := halo_var_data w;
     num_values_to_send := num_values_to_send w; values_to_send_displacements :=
     values_to_send_displacements w; num_values_to_receive := num_values_to_receive w;
     MaxLocalTriaAll := MaxLocalTriaAll w; Buffer_Recv_nTriaAll := Buffer_Recv_nTriaAll w; bufD_Recv
     := bufD_Recv w |}.

Definition set_num_halo_nodes {V} (x : nat) (w : CSTLFileWriter V) : CSTLFileWriter V :=
  {| rank := rank w; size := size w; fieldnames := fieldnames w; fileName := fileName w;
     dataSorter := dataSorter w; num_nodes_to_receive := num_nodes_to_receive w;
     values_to_receive_displacements := values_to_receive_displacements w; halo_nodes := halo_nodes
     w; sorted_halo_nodes := sorted_halo_nodes w; num_halo_nodes := x; num_nodes_to_send :=
     num_nodes_to_send w; nodes_to_send_displacements := nodes_to_send_displacements w;
     nodes_to_receive_displacements := nodes_to_receive_displacements w; nodes_to_send :=
     nodes_to_send w; data_to_send := data_to_send w; halo_var_data := halo_var_data w;
     num_values_to_send := num_values_to_send w; values_to_send_displacements :=
     values_to_send_displacements w; num_values_to_receive := num_values_to_receive w;
     MaxLocalTriaAll := MaxLocalTriaAll w; Buffer_Recv_nTriaAll := Buffer_Recv_nTriaAll w; bufD_Recv
     := bufD_Recv w |}.

Definition set_num_nodes_to_send {V} (x : list nat) (w : CSTLFileWriter V) : CSTLFileWriter V :=
  {| rank := rank w; size := size w; fieldnames := fieldnames w; fileName := fileName w;
     dataSorter := dataSorter w; num_nodes_to_receive := num_nodes_to_receive w;
     values_to_receive_displacements := values_to_receive_displacements w; halo_nodes := halo_nodes
     w; sorted_halo_nodes := sorted_halo_nodes w; num_halo_nodes := num_halo_nodes w;
     num_nodes_to_send := x; nodes_to_send_displacements := nodes_to_send_displacements w;
     nodes_to_receive_displacements := nodes_to_receive_displacements w; nodes_to_send :=
     nodes_to_send w; data_to_send := data_to_send w; halo_var_data := halo_var_data w;
     num_values_to_send := num_values_to_send w; values_to_send_displacements :=
     values_to_send_displacements w; num_values_to_receive := num_values_to_receive w;
     MaxLocalTriaAll := MaxLocalTriaAll w; Buffer_Recv_nTriaAll := Buffer_Recv_nTriaAll w; bufD_Recv
     := bufD_Recv w |}.

Definition set_nodes_to_send_displacements {V} (x : list nat) (w : CSTLFileWriter V) : CSTLFileWriter V :=
  {| rank := rank w; size := size w; fieldnames := fieldnames w; fileName := fileName w;
     dataSorter := dataSorter w; num_nodes_to_receive := num_nodes_to_receive w;
     values_to_receive_displacements := values_to_receive_displacements w; halo_nodes := halo_nodes
     w; sorted_halo_nodes := sorted_halo_nodes w; num_halo_nodes := num_halo_nodes w;
     num_nodes_to_send := num_nodes_to_send w; nodes_to_send_displacements := x;
     nodes_to_receive_displacements := nodes_to_receive_displacements w; nodes_to_send :=
     nodes_to_send w; data_to_send := data_to_send w; halo_var_data := halo_var_data w;
     num_values_to_send := num_values_to_send w; values_to_send_displacements :=
     values_to_send_displacements w; num_values_to_receive := num_values_to_receive w;
     MaxLocalTriaAll := MaxLocalTriaAll w; Buffer_Recv_nTriaAll := Buffer_Recv_nTriaAll w; bufD_Recv
     := bufD_Recv w |}.

Definition set_nodes_to_receive_displacements {V} (x : list nat) (w : CSTLFileWriter V) : CSTLFileWriter V :=
  {| rank := rank w; size := size w; fieldnames := fieldnames w; fileName := fileName w;
     dataSorter := dataSorter w; num_nodes_to_receive := num_nodes_to_receive w;
     values_to_receive_displacements := values_to_receive_displacements w; halo_nodes := halo_nodes
     w; sorted_halo_nodes := sorted_halo_nodes w; num_halo_nodes := num_halo_nodes w;
     num_nodes_to_send := num_nodes_to_send w; nodes_to_send_displacements :=
     nodes_to_send_displacements w; nodes_to_receive_displacements := x; nodes_to_send :=
     nodes_to_send w; data_to_send := data_to_send w; halo_var_data := halo_var_data w;
     num_values_to_send := num_values_to_send w; values_to_send_displacements :=
     values_to_send_displacements w; num_values_to_receive := num_values_to_receive w;
     MaxLocalTriaAll := MaxLocalTriaAll w; Buffer_Recv_nTriaAll := Buffer_Recv_nTriaAll w; bufD_Recv
     := bufD_Recv w |}.

Definition set_nodes_to_send {V} (x : list N) (w : CSTLFileWriter V) : CSTLFileWriter V :=
  {| rank := rank w; size := size w; fieldnames := fieldnames w; fileName := fileName w;
     dataSorter := dataSorter w; num_nodes_to_receive := num_nodes_to_receive w;
     values_to_receive_displacements := values_to_receive_displacements w; halo_nodes := halo_nodes
     w; sorted_halo_nodes := sorted_halo_nodes w; num_halo_nodes := num_halo_nodes w;
     num_nodes_to_send := num_nodes_to_send w; nodes_to_send_displacements :=
     nodes_to_send_displacements w; nodes_to_receive_displacements := nodes_to_receive_displacements
     w; nodes_to_send := x; data_to_send := data_to_send w; halo_var_data := halo_var_data w;
     num_values_to_send := num_values_to_send w; values_to_send_displacements :=
     values_to_send_displacements w; num_values_to_receive := num_values_to_receive w;
     MaxLocalTriaAll := MaxLocalTriaAll w; Buffer_Recv_nTriaAll := Buffer_Recv_nTriaAll w; bufD_Recv
     := bufD_Recv w |}.

Definition set_data_to_send {V} (x : list V) (w : CSTLFileWriter V) : CSTLFileWriter V :=
  {| rank := rank w; size := size w; fieldnames := fieldnames w; fileName := fileName w;
     dataSorter := dataSorter w; num_nodes_to_receive := num_nodes_to_receive w;
     values_to_receive_displacements := values_to_receive_displacements w; halo_nodes := halo_nodes
     w; sorted_halo_nodes := sorted_halo_nodes w; num_halo_nodes := num_halo_nodes w;
     num_nodes_to_send := num_nodes_to_send w; nodes_to_send_displacements :=
     nodes_to_send_displacements w; nodes_to_receive_displacements := nodes_to_receive_displacements
     w; nodes_to_send := nodes_to_send w; data_to_send := x; halo_var_data := halo_var_data w;
     num_values_to_send := num_values_to_send w; values_to_send_displacements :=
     values_to_send_displacements w; num_values_to_receive := num_values_to_receive w;
     MaxLocalTriaAll := MaxLocalTriaAll w; Buffer_Recv_nTriaAll := Buffer_Recv_nTriaAll w; bufD_Recv
     := bufD_Recv w |}.

Definition set_halo_var_data {V} (x : list V) (w : CSTLFileWriter V) : CSTLFileWriter V :=
  {| rank := rank w; size := size w; fieldnames := fieldnames w; fileName := fileName w;
     dataSorter := dataSorter w; num_nodes_to_receive := num_nodes_to_receive w;
     values_to_receive_displacements := values_to_receive_displacements w; halo_nodes := halo_nodes
     w; sorted_halo_nodes := sorted_halo_nodes w; num_halo_nodes := num_halo_nodes w;
     num_nodes_to_send := num_nodes_to_send w; nodes_to_send_displacements :=
     nodes_to_send_displacements w; nodes_to_receive_displacements := nodes_to_receive_displacements
     w; nodes_to_send := nodes_to_send w; data_to_send := data_to_send w; halo_var_data := x;
     num_values_to_send := num_values_to_send w; values_to_send_displacements :=
     values_to_send_displacements w; num_values_to_receive := num_values_to_receive w;
     MaxLocalTriaAll := MaxLocalTriaAll w; Buffer_Recv_nTriaAll := Buffer_Recv_nTriaAll w; bufD_Recv
     := bufD_Recv w |}.

Definition set_num_values_to_send {V} (x : list nat) (w : CSTLFileWriter V) : CSTLFileWriter V :=
  {| rank := rank w; size := size w; fieldnames := fieldnames w; fileName := fileName w;
     dataSorter := dataSorter w; num_nodes_to_receive := num_nodes_to_receive w;
     values_to_receive_displacements := values_to_receive_displacements w; halo_nodes := halo_nodes
     w; sorted_halo_nodes := sorted_halo_nodes w; num_halo_nodes := num_halo_nodes w;
     num_nodes_to_send := num_nodes_to_send w; nodes_to_send_displacements :=
     nodes_to_send_displacements w; nodes_to_receive_displacements := nodes_to_receive_displacements
     w; nodes_to_send := nodes_to_send w; data_to_send := data_to_send w; halo_var_data :=
     halo_var_data w; num_values_to_send := x; values_to_send_displacements :=
     values_to_send_displacements w; num_values_to_receive := num_values_to_receive w;
     MaxLocalTriaAll := MaxLocalTriaAll w; Buffer_Recv_nTriaAll := Buffer_Recv_nTriaAll w; bufD_Recv
     := bufD_Recv w |}.

Definition set_values_to_send_displacements {V} (x : list nat) (w : CSTLFileWriter V) : CSTLFileWriter V :=
  {| rank := rank w; size := size w; fieldnames := fieldnames w; fileName := fileName w;
     dataSorter := dataSorter w; num_nodes_to_receive := num_nodes_to_receive w;
     values_to_receive_displacements := values_to_receive_displacements w; halo_nodes := halo_nodes
     w; sorted_halo_nodes := sorted_halo_nodes w; num_halo_nodes := num_halo_nodes w;
     num_nodes_to_send := num_nodes_to_send w; nodes_to_send_displacements :=
     nodes_to_send_displacements w; nodes_to_receive_displacements := nodes_to_receive_displacements
     w; nodes_to_send := nodes_to_send w; data_to_send := data_to_send w; halo_var_data :=
     halo_var_data w; num_values_to_send := num_values_to_send w; values_to_send_displacements := x;
     num_values_to_receive := num_values_to_receive w; MaxLocalTriaAll := MaxLocalTriaAll w;
     Buffer_Recv_nTriaAll := Buffer_Recv_nTriaAll w; bufD_Recv := bufD_Recv w |}.

Definition set_num_values_to_receive {V} (x : list nat) (w : CSTLFileWriter V) : CSTLFileWriter V :=
  {| rank := rank w; size := size w; fieldnames := fieldnames w; fileName := fileName w;
     dataSorter := dataSorter w; num_nodes_to_receive := num_nodes_to_receive w;
     values_to_receive_displacements := values_to_receive_displacements w; halo_nodes := halo_nodes
     w; sorted_halo_nodes := sorted_halo_nodes w; num_halo_nodes := num_halo_nodes w;
     num_nodes_to_send := num_nodes_to_send w; nodes_to_send_displacements :=
     nodes_to_send_displacements w; nodes_to_receive_displacements := nodes_to_receive_displacements
     w; nodes_to_send := nodes_to_send w; data_to_send := data_to_send w; halo_var_data :=
     halo_var_data w; num_values_to_send := num_values_to_send w; values_to_send_displacements :=
     values_to_send_displacements w; num_values_to_receive := x; MaxLocalTriaAll := MaxLocalTriaAll
     w; Buffer_Recv_nTriaAll := Buffer_Recv_nTriaAll w; bufD_Recv := bufD_Recv w |}.

Definition set_MaxLocalTriaAll {V} (x : nat) (w : CSTLFileWriter V) : CSTLFileWriter V :=
  {| rank := rank w; size := size w; fieldnames := fieldnames w; fileName := fileName w;
     dataSorter := dataSorter w; num_nodes_to_receive := num_nodes_to_receive w;
     values_to_receive_displacements := values_to_receive_displacements w; halo_nodes := halo_nodes
     w; sorted_halo_nodes := sorted_halo_nodes w; num_halo_nodes := num_halo_nodes w;
     num_nodes_to_send := num_nodes_to_send w; nodes_to_send_displacements :=
     nodes_to_send_displacements w; nodes_to_receive_displacements := nodes_to_receive_displacements
     w; nodes_to_send := nodes_to_send w; data_to_send := data_to_send w; halo_var_data :=
     halo_var_data w; num_values_to_send := num_values_to_send w; values_to_send_displacements :=
     values_to_send_displacements w; num_values_to_receive := num_values_to_receive w;
     MaxLocalTriaAll := x; Buffer_Recv_nTriaAll := Buffer_Recv_nTriaAll w; bufD_Recv := bufD_Recv w
     |}.

Definition set_Buffer_Recv_nTriaAll {V} (x : option (list nat)) (w : CSTLFileWriter V) : CSTLFileWriter V :=
  {| rank := rank w; size := size w; fieldnames := fieldnames w; fileName := fileName w;
     dataSorter := dataSorter w; num_nodes_to_receive := num_nodes_to_receive w;
     values_to_receive_displacements := values_to_receive_displacements w; halo_nodes := halo_nodes
     w; sorted_halo_nodes := sorted_halo_nodes w; num_halo_nodes := num_halo_nodes w;
     num_nodes_to_send := num_nodes_to_send w; nodes_to_send_displacements :=
     nodes_to_send_displacements w; nodes_to_receive_displacements := nodes_to_receive_displacements
     w; nodes_to_send := nodes_to_send w; data_to_send := data_to_send w; halo_var_data :=
     halo_var_data w; num_values_to_send := num_values_to_send w; values_to_send_displacements :=
     values_to_send_displacements w; num_values_to_receive := num_values_to_receive w;
     MaxLocalTriaAll := MaxLocalTriaAll w; Buffer_Recv_nTriaAll := x; bufD_Recv := bufD_Recv w |}.

Definition set_bufD_Recv {V} (x : option (list V)) (w : CSTLFileWriter V) : CSTLFileWriter V :=
  {| rank := rank w; size := size w; fieldnames := fieldnames w; fileName := fileName w;
     dataSorter := dataSorter w; num_nodes_to_receive := num_nodes_to_receive w;
     values_to_receive_displacements := values_to_receive_displacements w; halo_nodes := halo_nodes
     w; sorted_halo_nodes := sorted_halo_nodes w; num_halo_nodes := num_halo_nodes w;
     num_nodes_to_send := num_nodes_to_send w; nodes_to_send_displacements :=
     nodes_to_send_displacements w; nodes_to_receive_displacements := nodes_to_receive_displacements
     w; nodes_to_send := nodes_to_send w; data_to_send := data_to_send w; halo_var_data :=
     halo_var_data w; num_values_to_send := num_values_to_send w; values_to_send_displacements :=
     values_to_send_displacements w; num_values_to_receive := num_values_to_receive w;
     MaxLocalTriaAll := MaxLocalTriaAll w; Buffer_Recv_nTriaAll := Buffer_Recv_nTriaAll w; bufD_Recv
     := x |}.

(** ** Standard containers and algorithms *)

(** [std::set<unsigned long>::insert]: the set is kept strictly increasing. *)
Fixpoint set_insert (x : N) (s : list N) : list N :=
  match s with
  | [] => [x]
  | y :: s' =>
      if (x <? y)%N then x :: s
      else if (x =? y)%N then s
      else y :: set_insert x s'
  end.

(** [std::lower_bound] over a sorted vector, as the distance from [begin()]:
    the first position whose element is not less than [x]. *)
Fixpoint lower_bound (s : list N) (x : N) : nat :=
  match s with
  | [] => 0
  | y :: s' => if (y <? x)%N then S (lower_bound s' x) else 0
  end.

(** ** MPI collectives

    Each takes the arguments of all ranks, indexed by rank, and gives the
    receive buffer of every rank after the call. *)

(** [SU2_MPI::Alltoall] with one element per peer: rank [r] receives at
    position [s] the element that rank [s] holds at position [r]. *)
Definition Alltoall {A} `{Inhabited A}
    (sendbuf : list (list A)) (recvbuf : list (list A)) : list (list A) :=
  imap (λ r buf,
          foldl (λ buf s, <[s := (sendbuf !!! s) !!! r]> buf) buf (seq 0 (length sendbuf)))
       recvbuf.

(** [SU2_MPI::Alltoallv]: rank [s] sends to rank [r] the [sendcounts_s[r]]
    elements of its send buffer from [sdispls_s[r]] on; rank [r] stores at
    most [recvcounts_r[s]] of them from [rdispls_r[s]] on. *)
Definition Alltoallv {A}
    (sendbuf : list (list A)) (sendcounts sdispls : list (list nat))
    (recvbuf : list (list A)) (recvcounts rdispls : list (list nat)) : list (list A) :=
  imap (λ r buf,
          foldl (λ buf s,
                   let message :=
                     take ((sendcounts !!! s) !!! r) (drop ((sdispls !!! s) !!! r) (sendbuf !!! s)) in
                   list_inserts ((rdispls !!! r) !!! s)
                                (take ((recvcounts !!! r) !!! s) message) buf)
                buf (seq 0 (length sendbuf)))
       recvbuf.

(** [SU2_MPI::Allreduce] of one [unsigned long] with [MPI_MAX]. *)
Definition Allreduce_MAX (send : list nat) : list nat :=
  replicate (length send) (max_list send).

(** [SU2_MPI::Gather] to [root], every rank passing its own [count]: rank [s]
    sends the first [count_s] elements of its send buffer, and the receive
    buffer of [root] takes at most [count_root] of them from [s * count_root]
    on; the receive buffer of any other rank is not touched. *)
Definition Gather {A} (count : list nat) (root : nat)
    (sendbuf : list (list A)) (recvbuf : list (option (list A))) : list (option (list A)) :=
  imap (λ r obuf,
          if decide (r = root) then
            (λ buf, foldl (λ buf s,
                             let message := take (count !!! s) (sendbuf !!! s) in
                             list_inserts (s * count !!! r) (take (count !!! r) message) buf)
                          buf (seq 0 (length sendbuf))) <$> obuf
          else obuf)
       recvbuf.

(** ** The output stream

    [std::ofstream]: the precision that [operator<<] uses for a [double], the
    name of the file it was opened on, and the characters written so far. *)
Record ofstream : Type := {
  precision : nat;
  opened : option string;
  text : string
}.

Definition endl_char : string := String (Ascii.ascii_of_nat 10) EmptyString.

Definition set_precision (p : nat) (f : ofstream) : ofstream :=
  {| precision := p; opened := opened f; text := text f |}.

Definition open (name : string) (f : ofstream) : ofstream :=
  {| precision := precision f; opened := Some name; text := EmptyString |}.

(** [f << s] for a string literal (and for the [int] literals [1], [2], [3]). *)
Definition put (s : string) (f : ofstream) : ofstream :=
  {| precision := precision f; opened := opened f; text := text f +:+ s |}.

(** [f << endl]. *)
Definition endl (f : ofstream) : ofstream := put endl_char f.

(** ** An example mesh

    Two ranks and eight nodes: rank 0 owns the nodes 0..3 and rank 1 the nodes
    4..7. Rank 0 holds the triangle of nodes (1, 4, 6) and rank 1 the
    quadrilateral of nodes (0, 1, 6, 7); the connectivity numbers the nodes
    from 1. Field [v] of node [g] has the value [100 * g + v]. *)
Module Example.

Definition owner (g : N) : nat := if (g <? 4)%N then 0 else 1.

Definition node_begin (r : nat) : N := (4 * N.of_nat r)%N.

Definition sorter (r : nat) (tria quad : list N) : CParallelDataSorter Z :=
  {| GetnElem := λ t, match t with
                      | TRIANGLE => length tria `div` 3
                      | QUADRILATERAL => length quad `div` 4
                      end;
     GetElem_Connectivity := λ t iElem iNode,
       match t with
       | TRIANGLE => tria !!! (iElem * 3 + iNode)
       | QUADRILATERAL => quad !!! (iElem * 4 + iNode)
       end;
     FindProcessor := owner;
     GetNodeBegin := node_begin;
     GetData := λ iVar iPoint, (100 * (Z.of_N iPoint + 4 * Z.of_nat r) + Z.of_nat iVar)%Z |}.

(** A writer as its constructor leaves it. *)
Definition writer (n r : nat) (fields : list string) (ds : CParallelDataSorter Z)
    : CSTLFileWriter Z :=
  {| rank := r; size := n; fieldnames := fields; fileName := "surface.stl";
     dataSorter := ds;
     num_nodes_to_receive := []; values_to_receive_displacements := [];
     halo_nodes := []; sorted_halo_nodes := []; num_halo_nodes := 0;
     num_nodes_to_send := []; nodes_to_send_displacements := [];
     nodes_to_receive_displacements := []; nodes_to_send := [];
     data_to_send := []; halo_var_data := [];
     num_values_to_send := []; values_to_send_displacements := [];
     num_values_to_receive := [];
     MaxLocalTriaAll := 0; Buffer_Recv_nTriaAll := None; bufD_Recv := None |}.

Definition w0 : CSTLFileWriter Z := writer 2 0 ["x"; "y"; "z"] (sorter 0 [2; 5; 7]%N []).

Definition w1 : CSTLFileWriter Z := writer 2 1 ["x"; "y"; "z"] (sorter 1 [] [1; 2; 7; 8]%N).

Definition world : list (CSTLFileWriter Z) := [w0; w1].

(** One rank that owns the four nodes of its two triangles and of its
    quadrilateral. *)
Definition alone : CSTLFileWriter Z :=
  writer 1 0 ["x"; "y"; "z"] (sorter 0 [1; 2; 3; 2; 3; 4]%N [1; 2; 3; 4]%N).

(** What [operator<<] prints for a value, in the examples: its integer part. *)
Definition show (p : nat) (v : Z) : string := pretty v.


(** Rank 1 of [world] when it has received the requests of rank 0 (the nodes
    4 and 6) and is about to pack their values. *)
Definition serving : CSTLFileWriter Z :=
  {| rank := 1; size := 2; fieldnames := ["x"; "y"; "z"]; fileName := "surface.stl";
     dataSorter := sorter 1 [] [1; 2; 7; 8]%N;
     num_nodes_to_receive := [2; 0]; values_to_receive_displacements := [0; 0];
     halo_nodes := [0; 1]%N; sorted_halo_nodes := [0; 1]%N; num_halo_nodes := 2;
     num_nodes_to_send := [2; 0]; nodes_to_send_displacements := [0; 2];
     nodes_to_receive_displacements := [0; 2]; nodes_to_send := [4; 6]%N;
     data_to_send := []; halo_var_data := [];
     num_values_to_send := []; values_to_send_displacements := [];
     num_values_to_receive := [];
     MaxLocalTriaAll := 0; Buffer_Recv_nTriaAll := None; bufD_Recv := None |}.

(** The mesh of [world], each node with a fourth field. *)
Definition world4 : list (CSTLFileWriter Z) :=
  [writer 2 0 ["x"; "y"; "z"; "p"] (sorter 0 [2; 5; 7]%N []);
   writer 2 1 ["x"; "y"; "z"; "p"] (sorter 1 [] [1; 2; 7; 8]%N)].

(** Rank 0 of [world] with its halo nodes 4 and 6, in a state in which the
    counts of the exchange cover one node only: the three fields of node 4
    were received, nothing was received for node 6. *)
Definition starved : CSTLFileWriter Z :=
  {| rank := 0; size := 2; fieldnames := ["x"; "y"; "z"]; fileName := "surface.stl";
     dataSorter := sorter 0 [2; 5; 7]%N [];
     num_nodes_to_receive := [0; 1]; values_to_receive_displacements := [0; 0];
     halo_nodes := [4; 6]%N; sorted_halo_nodes := [4; 6]%N; num_halo_nodes := 2;
     num_nodes_to_send := [0; 2]; nodes_to_send_displacements := [0; 0];
     nodes_to_receive_displacements := [0; 0]; nodes_to_send := [0; 1]%N;
     data_to_send := [0; 100; 1; 101; 2; 102]%Z; halo_var_data := [400; 401; 402]%Z;
     num_values_to_send := [0; 6]; values_to_send_displacements := [0; 0];
     num_values_to_receive := [0; 3];
     MaxLocalTriaAll := 0; Buffer_Recv_nTriaAll := None; bufD_Recv := None |}.

End Example.

Section Writer.

Context {V : Type}.

(** [0.0], the value of a value-initialized [double]. *)
Variable zero : V.

(** What [operator<<] prints for a [double] at a given precision. *)
Variable show_double : nat → V → string.

(** The constant [MASTER_NODE] of [option_structure.hpp], the rank that
    gathers and writes. *)
Variable MASTER_NODE : nat.

#[local] Instance V_inhabited : Inhabited V := populate zero.

Abbreviation Writer := (CSTLFileWriter V).

(** [f << v] for a [su2double]. *)
Definition put_double (v : V) (f : ofstream) : ofstream :=
  put (show_double (precision f) v) f.

(** *** [ReprocessElementConnectivity] *)

(** The two loops that collect the nodes referred to but owned elsewhere:
    [n] entries of the connectivity of kind [t], read through element 0. *)
Definition gather_halo_nodes (w : Writer) (t : GEO_TYPE) (n : nat) (halo : list N) : list N :=
  foldl (λ halo i,
           let g := usub (GetElem_Connectivity (dataSorter w) t 0 i) 1 in
           if decide (FindProcessor (dataSorter w) g ≠ rank w) then set_insert g halo else halo)
        halo (seq 0 n).

(** The loop that fills [neighbor_partitions] ([neighbor_nodes], filled by the
    same loop, is never read). *)
Definition fill_neighbor_partitions (w : Writer) : list nat :=
  foldl (λ neighbor_partitions i,
           let owning_rank := FindProcessor (dataSorter w) (sorted_halo_nodes w !!! i) in
           <[i := owning_rank]> neighbor_partitions)
        (replicate (max 1 (num_halo_nodes w)) 0) (seq 0 (num_halo_nodes w)).

(** The loop [++num_nodes_to_receive[neighbor_partitions[i]]]. *)
Definition count_nodes_to_receive (neighbor_partitions : list nat) (n : nat)
    (num : list nat) : list nat :=
  foldl (λ num i, <[neighbor_partitions !!! i := S (num !!! (neighbor_partitions !!! i))]> num)
        num (seq 0 n).

(** From the start of the function to the first collective. *)
Definition Reprocess_demand (w : Writer) : Writer :=
  let nParallel_Tria := GetnElem (dataSorter w) TRIANGLE in
  let nParallel_Quad := GetnElem (dataSorter w) QUADRILATERAL in
  let w := set_num_nodes_to_receive (resize (size w) 0 (num_nodes_to_receive w)) w in
  let w := set_values_to_receive_displacements
             (resize (size w) 0 (values_to_receive_displacements w)) w in
  let w := set_halo_nodes [] w in
  let w := set_sorted_halo_nodes [] w in
  let w := set_halo_nodes
             (gather_halo_nodes w TRIANGLE (nParallel_Tria * N_POINTS_TRIANGLE) (halo_nodes w)) w in
  let w := set_halo_nodes
             (gather_halo_nodes w QUADRILATERAL (nParallel_Quad * N_POINTS_QUADRILATERAL)
                                (halo_nodes w)) w in
  let w := set_sorted_halo_nodes (halo_nodes w) w in
  let w := set_num_halo_nodes (length (sorted_halo_nodes w)) w in
  let neighbor_partitions := fill_neighbor_partitions w in
  let w := set_num_nodes_to_receive
             (count_nodes_to_receive neighbor_partitions (num_halo_nodes w)
                                     (num_nodes_to_receive w)) w in
  set_num_nodes_to_send (resize (size w) 0 (num_nodes_to_send w)) w.

(** The loop that turns the counts into displacements. *)
Definition prefix_displacements (num_send num_receive : list nat) (n : nat)
    (displs : list nat * list nat) : list nat * list nat :=
  foldl (λ '(send_displs, receive_displs) iRank,
           (<[iRank := send_displs !!! (iRank - 1) + num_send !!! (iRank - 1)]> send_displs,
            <[iRank := receive_displs !!! (iRank - 1) + num_receive !!! (iRank - 1)]>
              receive_displs))
        displs (seq 1 (n - 1)).

Definition total_num_nodes_to_send (w : Writer) : nat :=
  nodes_to_send_displacements w !!! (size w - 1) + num_nodes_to_send w !!! (size w - 1).

(** Between the exchange of the counts and the exchange of the node numbers. *)
Definition Reprocess_displacements (w : Writer) : Writer :=
  let w := set_nodes_to_send_displacements
             (resize (size w) 0 (nodes_to_send_displacements w)) w in
  let w := set_nodes_to_receive_displacements
             (resize (size w) 0 (nodes_to_receive_displacements w)) w in
  let w := set_nodes_to_send_displacements (<[0 := 0]> (nodes_to_send_displacements w)) w in
  let w := set_nodes_to_receive_displacements (<[0 := 0]> (nodes_to_receive_displacements w)) w in
  let displs := prefix_displacements (num_nodes_to_send w) (num_nodes_to_receive w) (size w)
                  (nodes_to_send_displacements w, nodes_to_receive_displacements w) in
  let w := set_nodes_to_send_displacements displs.1 w in
  let w := set_nodes_to_receive_displacements displs.2 w in
  let w := set_nodes_to_send (resize (max 1 (total_num_nodes_to_send w)) 0%N (nodes_to_send w)) w in
  if decide (sorted_halo_nodes w = [])
  then set_sorted_halo_nodes (resize 1 0%N (sorted_halo_nodes w)) w
  else w.

(** The innermost loop of the packing, over the nodes requested by [iRank]:
    the state is the writer and the running [index]. *)
Definition pack_node (iRank iVar : nat) (st : Writer * nat) (iNode : nat) : Writer * nat :=
  let '(w, index) := st in
  let node_offset :=
    usub (nodes_to_send w !!! (nodes_to_send_displacements w !!! iRank + iNode))
         (GetNodeBegin (dataSorter w) (rank w)) in
  (set_data_to_send (<[index := GetData (dataSorter w) iVar node_offset]> (data_to_send w)) w,
   S index).

Definition pack_var (iRank : nat) (st : Writer * nat) (iVar : nat) : Writer * nat :=
  foldl (pack_node iRank iVar) st (seq 0 (num_nodes_to_send st.1 !!! iRank)).

(** One turn of the loop over the ranks. *)
Definition pack_rank (st : Writer * nat) (iRank : nat) : Writer * nat :=
  let '(w, index) := st in
  let nVar := length (fieldnames w) in
  let w := set_num_values_to_send
             (<[iRank := num_nodes_to_send w !!! iRank * nVar]> (num_values_to_send w)) w in
  let w := set_values_to_send_displacements
             (<[iRank := nodes_to_send_displacements w !!! iRank * nVar]>
                (values_to_send_displacements w)) w in
  let w := set_num_values_to_receive
             (<[iRank := num_nodes_to_receive w !!! iRank * nVar]> (num_values_to_receive w)) w in
  let w := set_values_to_receive_displacements
             (<[iRank := nodes_to_receive_displacements w !!! iRank * nVar]>
                (values_to_receive_displacements w)) w in
  foldl (pack_var iRank) (w, index) (seq 0 nVar).

(** Between the exchange of the node numbers and the exchange of the data. *)
Definition Reprocess_pack (w : Writer) : Writer :=
  let nVar := length (fieldnames w) in
  let w := set_data_to_send
             (resize (max 1 (total_num_nodes_to_send w * nVar)) zero (data_to_send w)) w in
  let w := set_halo_var_data
             (resize (max 1 (nVar * num_halo_nodes w)) zero (halo_var_data w)) w in
  let w := set_num_values_to_send (resize (size w) 0 (num_values_to_send w)) w in
  let w := set_values_to_send_displacements
             (resize (size w) 0 (values_to_send_displacements w)) w in
  let w := set_num_values_to_receive (resize (size w) 0 (num_values_to_receive w)) w in
  (foldl pack_rank (w, 0) (seq 0 (size w))).1.

(** The three collectives of the function, on the writers of all ranks. *)
Definition exchange_demand (ws : list Writer) : list Writer :=
  zip_with set_num_nodes_to_send
    (Alltoall (num_nodes_to_receive <$> ws) (num_nodes_to_send <$> ws)) ws.

Definition exchange_requests (ws : list Writer) : list Writer :=
  zip_with set_nodes_to_send
    (Alltoallv (sorted_halo_nodes <$> ws) (num_nodes_to_receive <$> ws)
               (nodes_to_receive_displacements <$> ws)
               (nodes_to_send <$> ws) (num_nodes_to_send <$> ws)
               (nodes_to_send_displacements <$> ws)) ws.

Definition exchange_data (ws : list Writer) : list Writer :=
  zip_with set_halo_var_data
    (Alltoallv (data_to_send <$> ws) (num_values_to_send <$> ws)
               (values_to_send_displacements <$> ws)
               (halo_var_data <$> ws) (num_values_to_receive <$> ws)
               (values_to_receive_displacements <$> ws)) ws.

(** The function as all ranks run it: three local parts, each followed by a
    collective. *)
Definition ReprocessElementConnectivity (ws : list Writer) : list Writer :=
  let ws := exchange_demand (Reprocess_demand <$> ws) in
  let ws := exchange_requests (Reprocess_displacements <$> ws) in
  exchange_data (Reprocess_pack <$> ws).

(** *** [GetHaloNodeValue]

    The loops read [num_nodes_to_receive[iRank]] for every rank below [size],
    and [values_to_receive_displacements[iRank]] and one element of
    [halo_var_data] inside the inner loop. The definitions read them with the
    total lookup: they follow the source where the two vectors have [size]
    elements, as [ReprocessElementConnectivity] leaves them, and the element
    of [halo_var_data] exists. On any other writer the source reads past the
    end of a vector, which the definitions do not describe; the properties of
    the function on writers of any other origin are stated under these
    bounds. *)

(** The inner loop, over [i]: the value returned, or the [id] reached. *)
Fixpoint halo_inner (w : Writer) (offset iRank iVar : nat) (range : list nat) (id : nat)
    : V + nat :=
  match range with
  | [] => inr id
  | i :: range' =>
      let displ := values_to_receive_displacements w !!! iRank
                   + num_nodes_to_receive w !!! iRank * iVar in
      if decide (id = offset) then inl (halo_var_data w !!! (displ + i))
      else halo_inner w offset iRank iVar range' (S id)
  end.

(** The outer loop, over [iRank], and the error that follows it. *)
Fixpoint halo_outer (w : Writer) (offset iVar : nat) (ranks : list nat) (id : nat)
    : outcome V :=
  match ranks with
  | [] => Fatal "STL File-Writer: Halo node not found."
  | iRank :: ranks' =>
      match halo_inner w offset iRank iVar (seq 0 (num_nodes_to_receive w !!! iRank)) id with
      | inl v => Ok v
      | inr id' => halo_outer w offset iVar ranks' id'
      end
  end.

Definition GetHaloNodeValue (w : Writer) (global_node_number : N) (iVar : nat) : outcome V :=
  let offset := lower_bound (sorted_halo_nodes w) global_node_number in
  halo_outer w offset iVar (seq 0 (size w)) 0.

(** *** [GatherCoordData] *)

(** The order in which the corners of a quadrilateral are read. *)
Definition Nodelist : list nat := [0; 1; 3; 1; 2; 3].

Definition nLocalTriaAll (w : Writer) : nat :=
  GetnElem (dataSorter w) TRIANGLE + GetnElem (dataSorter w) QUADRILATERAL * 2.

(** The state of the loops that load the send buffer: [bufD_Send], the running
    [index], and (a ghost of the model) the calls of [GetHaloNodeValue] made
    so far. *)
Definition SendState : Type := list V * nat * list (N * nat).

(** The loop over [iVar] in the loop over the triangles. *)
Definition load_tria_var (w : Writer) (global_node_number local_node_number : N)
    (st : SendState) (iVar : nat) : outcome SendState :=
  let '(bufD_Send, index, calls) := st in
  if decide (FindProcessor (dataSorter w) global_node_number = rank w) then
    Ok (<[index := GetData (dataSorter w) iVar local_node_number]> bufD_Send, S index, calls)
  else
    obind (GetHaloNodeValue w global_node_number iVar)
          (λ v, Ok (<[index := v]> bufD_Send, S index, calls ++ [(global_node_number, iVar)])).

Definition load_tria_point (w : Writer) (iElem : nat) (st : SendState) (iPoint : nat)
    : outcome SendState :=
  let global_node_number :=
    usub (GetElem_Connectivity (dataSorter w) TRIANGLE iElem iPoint) 1 in
  let local_node_number :=
    usub global_node_number (GetNodeBegin (dataSorter w) (rank w)) in
  for_each (load_tria_var w global_node_number local_node_number) st (seq 0 3).

Definition load_tria_elem (w : Writer) (st : SendState) (iElem : nat) : outcome SendState :=
  for_each (load_tria_point w iElem) st (seq 0 3).

(** The loop over [iVar] in the loop over the quadrilaterals. *)
Definition load_quad_var (w : Writer) (global_node_number local_node_number : N)
    (st : SendState) (iVar : nat) : outcome SendState :=
  let '(bufD_Send, index, calls) := st in
  if decide (FindProcessor (dataSorter w) global_node_number = rank w) then
    Ok (<[index := GetData (dataSorter w) iVar local_node_number]> bufD_Send, S index, calls)
  else
    obind (GetHaloNodeValue w global_node_number iVar)
          (λ v, Ok (<[index := v]> bufD_Send, S index, calls ++ [(global_node_number, iVar)])).

Definition load_quad_point (w : Writer) (iElem : nat) (st : SendState) (iPoint : nat)
    : outcome SendState :=
  let global_node_number :=
    usub (GetElem_Connectivity (dataSorter w) QUADRILATERAL iElem (Nodelist !!! iPoint)) 1 in
  let local_node_number :=
    usub global_node_number (GetNodeBegin (dataSorter w) (rank w)) in
  for_each (load_quad_var w global_node_number local_node_number) st (seq 0 3).

Definition load_quad_elem (w : Writer) (st : SendState) (iElem : nat) : outcome SendState :=
  for_each (load_quad_point w iElem) st (seq 0 (length Nodelist)).

(** The allocation of [bufD_Send] and the two loops that load it. *)
Definition load_send_buffer (w : Writer) : outcome SendState :=
  let nLocalTria := GetnElem (dataSorter w) TRIANGLE in
  let nLocalQuad := GetnElem (dataSorter w) QUADRILATERAL in
  let bufD_Send := replicate (MaxLocalTriaAll w * 3 * 3) zero in
  obind (for_each (load_tria_elem w) (bufD_Send, 0, []) (seq 0 nLocalTria))
        (λ st, for_each (load_quad_elem w) st (seq 0 nLocalQuad)).

(** The master allocates the array of the counts. *)
Definition Gather_alloc_counts (w : Writer) : Writer :=
  if decide (rank w = MASTER_NODE)
  then set_Buffer_Recv_nTriaAll (Some (replicate (size w) 0)) w
  else w.

(** The master allocates the array of the gathered coordinates. *)
Definition Gather_alloc_data (w : Writer) : Writer :=
  if decide (rank w = MASTER_NODE)
  then set_bufD_Recv (Some (replicate (size w * MaxLocalTriaAll w * 3 * 3) zero)) w
  else w.

(** The first part of the function as all ranks run it, up to the allocation
    of the buffers: the largest count goes to every rank, the counts go to the
    master. *)
Definition GatherCoordData_counts (ws : list Writer) : list Writer :=
  let ws := Gather_alloc_counts <$> ws in
  let ws := zip_with set_MaxLocalTriaAll (Allreduce_MAX (nLocalTriaAll <$> ws)) ws in
  let ws := zip_with set_Buffer_Recv_nTriaAll
              (Gather ((λ _, 1) <$> ws) MASTER_NODE ((λ w, [nLocalTriaAll w]) <$> ws)
                      (Buffer_Recv_nTriaAll <$> ws)) ws in
  Gather_alloc_data <$> ws.

(** The function as all ranks run it. The result also gives, for every rank,
    the calls of [GetHaloNodeValue] it made. *)
Definition GatherCoordData (ws : list Writer) : outcome (list Writer * list (list (N * nat))) :=
  let ws := GatherCoordData_counts ws in
  obind (all_ok (load_send_buffer <$> ws))
        (λ sts,
           let bufD_Send := (λ st : SendState, st.1.1) <$> sts in
           Ok (zip_with set_bufD_Recv
                 (Gather ((λ w, MaxLocalTriaAll w * 3 * 3) <$> ws) MASTER_NODE
                         bufD_Send (bufD_Recv <$> ws)) ws,
               (λ st : SendState, st.2) <$> sts)).

(** *** [Write_Data] *)

(** The array a pointer member refers to ([NULL]: no element). *)
Definition deref {A} (p : option (list A)) : list A := default [] p.

Definition write_vertex (w : Writer) (iProcessor iElem : nat) (f : ofstream) (iPoint : nat)
    : ofstream :=
  let f := put "        vertex" f in
  let index := iProcessor * MaxLocalTriaAll w * 3 * 3 + iElem * 3 * 3 + iPoint * 3 in
  let f := foldl (λ f iVar, put_double (deref (bufD_Recv w) !!! (index + iVar)) (put " " f))
                 f (seq 0 3) in
  endl f.

Definition write_facet (w : Writer) (iProcessor : nat) (f : ofstream) (iElem : nat) : ofstream :=
  let f := endl (put "3" (put " " (put "2" (put " " (put "1" (put "facet normal " f)))))) in
  let f := endl (put "    outer loop" f) in
  let f := foldl (write_vertex w iProcessor iElem) f (seq 0 3) in
  let f := endl (put "    endloop" f) in
  endl (put "endfacet" f).

Definition write_processor (w : Writer) (f : ofstream) (iProcessor : nat) : ofstream :=
  foldl (write_facet w iProcessor) f (seq 0 (deref (Buffer_Recv_nTriaAll w) !!! iProcessor)).

(** The third part of [Write_Data] on one rank: the file it wrote, if any. *)
Definition write_file (w : Writer) : option ofstream :=
  let Surf_file := {| precision := 6; opened := None; text := EmptyString |} in
  if decide (rank w = MASTER_NODE) then
    let Surf_file := set_precision 6 Surf_file in
    let Surf_file := open (fileName w) Surf_file in
    let Surf_file := endl (put "solid SU2_output" Surf_file) in
    let Surf_file := foldl (write_processor w) Surf_file (seq 0 (size w)) in
    let Surf_file := endl (put "endsolid SU2_output" Surf_file) in
    Some Surf_file
  else None.

(** [Write_Data] as all ranks run it: the file written by every rank. *)
Definition Write_Data (ws : list Writer) : outcome (list (option ofstream)) :=
  let ws := ReprocessElementConnectivity ws in
  obind (GatherCoordData ws) (λ r, Ok (write_file <$> r.1)).

(** ** Meshes and worlds the properties are stated for *)

(** The halo nodes of a rank, as the two collecting loops leave them. *)
Definition halo_set (w : Writer) : list N :=
  gather_halo_nodes w QUADRILATERAL
    (GetnElem (dataSorter w) QUADRILATERAL * N_POINTS_QUADRILATERAL)
    (gather_halo_nodes w TRIANGLE (GetnElem (dataSorter w) TRIANGLE * N_POINTS_TRIANGLE) []).

(** The connectivity accessor reads an element-major array: corner [iNode] of
    element [iElem] is entry [iElem * N_POINTS t + iNode] of element 0. *)
Definition row_major (ds : CParallelDataSorter V) : Prop :=
  ∀ t iElem iNode, iElem < GetnElem ds t → iNode < N_POINTS t →
    GetElem_Connectivity ds t iElem iNode
    = GetElem_Connectivity ds t 0 (iElem * N_POINTS t + iNode).

(** [g] is the (0-based) global number of a corner of a local element. *)
Definition referenced (ds : CParallelDataSorter V) (g : N) : Prop :=
  ∃ t iElem iNode, iElem < GetnElem ds t ∧ iNode < N_POINTS t ∧
    g = usub (GetElem_Connectivity ds t iElem iNode) 1.

(** The writer [w] with its [dataSorter] replaced by [ds]. *)
Definition set_dataSorter (ds : CParallelDataSorter V) (w : Writer) : Writer :=
  {| rank := rank w; size := size w; fieldnames := fieldnames w; fileName := fileName w;
     dataSorter := ds; num_nodes_to_receive := num_nodes_to_receive w;
     values_to_receive_displacements := values_to_receive_displacements w;
     halo_nodes := halo_nodes w; sorted_halo_nodes := sorted_halo_nodes w;
     num_halo_nodes := num_halo_nodes w; num_nodes_to_send := num_nodes_to_send w;
     nodes_to_send_displacements := nodes_to_send_displacements w;
     nodes_to_receive_displacements := nodes_to_receive_displacements w;
     nodes_to_send := nodes_to_send w; data_to_send := data_to_send w;
     halo_var_data := halo_var_data w; num_values_to_send := num_values_to_send w;
     values_to_send_displacements := values_to_send_displacements w;
     num_values_to_receive := num_values_to_receive w; MaxLocalTriaAll := MaxLocalTriaAll w;
     Buffer_Recv_nTriaAll := Buffer_Recv_nTriaAll w; bufD_Recv := bufD_Recv w |}.

(** The sorter of a rank whose mesh is one native triangle of corners [a], [b],
    [c] (numbered from 1, as the connectivity is), with the partition and the
    data of [ds]. *)
Definition single_triangle (ds : CParallelDataSorter V) (a b c : N) : CParallelDataSorter V :=
  {| GetnElem := λ t, match t with TRIANGLE => 1 | QUADRILATERAL => 0 end;
     GetElem_Connectivity := λ _ _ iNode, [a; b; c] !!! iNode;
     FindProcessor := FindProcessor ds;
     GetNodeBegin := GetNodeBegin ds;
     GetData := GetData ds |}.

(** ** The artifact, as the format describes it *)

Definition concat_str (l : list string) : string := foldr String.append EmptyString l.

(** One vertex line: the keyword and three coordinates, each after a space. *)
Definition vertex_line (p : nat) (x y z : V) : string :=
  "        vertex" +:+ " " +:+ show_double p x +:+ " " +:+ show_double p y
  +:+ " " +:+ show_double p z +:+ endl_char.

(** One facet record, for the nine coordinates of a triangle. *)
Definition facet_record (p : nat) (tri : list V) : string :=
  "facet normal 1 2 3" +:+ endl_char
  +:+ "    outer loop" +:+ endl_char
  +:+ vertex_line p (tri !!! 0) (tri !!! 1) (tri !!! 2)
  +:+ vertex_line p (tri !!! 3) (tri !!! 4) (tri !!! 5)
  +:+ vertex_line p (tri !!! 6) (tri !!! 7) (tri !!! 8)
  +:+ "    endloop" +:+ endl_char
  +:+ "endfacet" +:+ endl_char.

Definition stl_text (p : nat) (facets : list (list V)) : string :=
  "solid SU2_output" +:+ endl_char
  +:+ concat_str (facet_record p <$> facets)
  +:+ "endsolid SU2_output" +:+ endl_char.

(** The nine coordinates of triangle [iElem] in the segment of [iProcessor]
    of the gathered array. *)
Definition gathered_triangle (w : Writer) (iProcessor iElem : nat) : list V :=
  (λ k, deref (bufD_Recv w) !!! (iProcessor * MaxLocalTriaAll w * 3 * 3 + iElem * 3 * 3 + k))
    <$> seq 0 9.

(** The triangles the master reads: for each rank in rank order, the first
    [Buffer_Recv_nTriaAll[iProcessor]] triangles of its segment. *)
Definition gathered_triangles (w : Writer) : list (list V) :=
  mjoin ((λ iProcessor,
             gathered_triangle w iProcessor
               <$> seq 0 (deref (Buffer_Recv_nTriaAll w) !!! iProcessor))
            <$> seq 0 (size w)).

(** The halo nodes of [w] that [FindProcessor] gives to rank [p], in
    increasing order: what [w] asks rank [p] for. *)
Definition requested_from (w : Writer) (p : nat) : list N :=
  filter (λ g, FindProcessor (dataSorter w) g = p) (halo_set w).

(** The writer is as its constructor leaves it: no count is left from an
    earlier call. *)
Definition freshly_constructed (w : Writer) : Prop := num_nodes_to_receive w = [].

(** The displacements that go with the counts [num] for [n] ranks: before the
    block of rank [p] stand the blocks of the ranks below [p]. *)
Definition prefix_sums (num : list nat) (n : nat) : list nat :=
  (λ p, sum_list (take p num)) <$> seq 0 n.

(** The values of field [iVar] at the nodes rank [iRank] asked for, in the
    order of the requests. *)
Definition packed_values (w : Writer) (iRank iVar : nat) : list V :=
  (λ iNode,
     GetData (dataSorter w) iVar
       (usub (nodes_to_send w !!! (nodes_to_send_displacements w !!! iRank + iNode))
             (GetNodeBegin (dataSorter w) (rank w))))
    <$> seq 0 (num_nodes_to_send w !!! iRank).

(** The payload for rank [iRank]: field after field, and for each field the
    requested nodes one after the other. *)
Definition packed_block (w : Writer) (iRank : nat) : list V :=
  mjoin (packed_values w iRank <$> seq 0 (length (fieldnames w))).

Definition packed_data (w : Writer) : list V :=
  mjoin (packed_block w <$> seq 0 (size w)).

(** Every writer of the world knows its rank and the number of ranks. *)
Definition world_ok (ws : list Writer) : Prop :=
  ∀ r w, ws !! r = Some w → rank w = r ∧ size w = length ws.

(** The nodes rank [r] asks rank [p] for. *)
Definition requested (ws : list Writer) (r p : nat) : list N :=
  from_option (λ w, requested_from w p) [] (ws !! r).

(** The world between the collectives of [ReprocessElementConnectivity]. *)
Definition after_demand (ws : list Writer) : list Writer :=
  exchange_demand (Reprocess_demand <$> ws).

Definition after_requests (ws : list Writer) : list Writer :=
  exchange_requests (Reprocess_displacements <$> after_demand ws).

(** The halo nodes of [w] come rank after rank: first those of rank 0, then
    those of rank 1, and so on up to rank [n - 1]. *)
Definition halo_grouped (w : Writer) (n : nat) : Prop :=
  halo_set w = mjoin (requested_from w <$> seq 0 n).

(** What rank [p] holds after the exchange of the counts and after the
    exchange of the requests: how many nodes each rank asks it for, and which,
    rank after rank ([old] is what [nodes_to_send] held before). *)
Definition counts_to_send (ws : list Writer) (p : nat) : list nat :=
  (λ r, length (requested ws r p)) <$> seq 0 (length ws).

Definition requests_received (ws : list Writer) (p : nat) (old : list N) : list N :=
  mjoin ((λ r, requested ws r p) <$> seq 0 (length ws))
  ++ drop (sum_list (counts_to_send ws p))
          (resize (max 1 (sum_list (counts_to_send ws p))) 0%N old).

(** The values of field [iVar] that the owner [wp] holds for the nodes [req]. *)
Definition answer_values (wp : Writer) (iVar : nat) (req : list N) : list V :=
  (λ g, GetData (dataSorter wp) iVar (usub g (GetNodeBegin (dataSorter wp) (rank wp))))
    <$> req.

(** What rank [p] sends back to rank [r]: for each of the [nVar] fields in
    turn, its values at the nodes [r] asked [p] for. *)
Definition answer (ws : list Writer) (nVar r p : nat) : list V :=
  from_option
    (λ wp, mjoin ((λ iVar, answer_values wp iVar (requested ws r p)) <$> seq 0 nVar))
    [] (ws !! p).

(** What rank [r] holds in [halo_var_data] after the exchange of the data
    ([w] is its writer before the call). *)
Definition halo_data_received (ws : list Writer) (nVar r : nat) (w : Writer) : list V :=
  mjoin ((λ p, answer ws nVar r p) <$> seq 0 (length ws))
  ++ drop (nVar * length (halo_set w))
          (resize (max 1 (nVar * length (halo_set w))) zero (halo_var_data w)).

(** The members of the writer [w'] of rank [r] that [GetHaloNodeValue] and
    [GatherCoordData] read, once [ReprocessElementConnectivity] has run on the
    world [ws], in which the writer of rank [r] was [w]. *)
Definition halo_resolved (ws : list Writer) (nVar r : nat) (w w' : Writer) : Prop :=
  let counts := (λ q, length (requested_from w q)) <$> seq 0 (length ws) in
  rank w' = rank w ∧ size w' = size w ∧ dataSorter w' = dataSorter w
  ∧ fieldnames w' = fieldnames w ∧ fileName w' = fileName w
  ∧ sorted_halo_nodes w' = (if decide (halo_set w = []) then [0%N] else halo_set w)
  ∧ num_halo_nodes w' = length (halo_set w)
  ∧ num_nodes_to_receive w' = counts
  ∧ values_to_receive_displacements w'
    = (λ i, prefix_sums counts (length ws) !!! i * nVar) <$> seq 0 (length ws)
  ∧ halo_var_data w' = halo_data_received ws nVar r w.

(** The node numbers are split into one range per rank, in rank order, and
    [FindProcessor] gives the rank whose range holds the node: rank [p] owns
    [GetNodeBegin p .. GetNodeBegin (p + 1) - 1], for [n] ranks. *)
Definition partition_ok (ds : CParallelDataSorter V) (n : nat) : Prop :=
  (∀ p, (GetNodeBegin ds p ≤ GetNodeBegin ds (S p))%N)
  ∧ ∀ g, (g < GetNodeBegin ds n)%N →
      FindProcessor ds g < n
      ∧ (GetNodeBegin ds (FindProcessor ds g) ≤ g
         < GetNodeBegin ds (S (FindProcessor ds g)))%N.

(** A rank of a valid mesh of [n] ranks with [nVar] fields per node: a fresh
    writer, an element-major connectivity, a partition into ranges, and
    corners that are nodes of the mesh. *)
Definition valid_rank (n nVar : nat) (w : Writer) : Prop :=
  freshly_constructed w
  ∧ length (fieldnames w) = nVar
  ∧ row_major (dataSorter w)
  ∧ partition_ok (dataSorter w) n
  ∧ ∀ g, referenced (dataSorter w) g → (g < GetNodeBegin (dataSorter w) n)%N.

Definition valid_mesh (nVar : nat) (ws : list Writer) : Prop :=
  world_ok ws ∧ Forall (valid_rank (length ws) nVar) ws.

(** ** The send buffer, as an enumeration of the local elements *)

(** The three coordinates of node [g] as rank [w] gets them: from its own data
    when it owns [g], from [val] otherwise. *)
Definition node_values (w : Writer) (val : N → nat → V) (g : N) : list V :=
  (λ iVar,
     if decide (FindProcessor (dataSorter w) g = rank w)
     then GetData (dataSorter w) iVar (usub g (GetNodeBegin (dataSorter w) (rank w)))
     else val g iVar) <$> seq 0 3.

(** The calls of [GetHaloNodeValue] that node [g] costs. *)
Definition node_calls (w : Writer) (g : N) : list (N * nat) :=
  if decide (FindProcessor (dataSorter w) g = rank w) then []
  else (λ iVar, (g, iVar)) <$> seq 0 3.

(** The corners in the order of the buffer: element after element; the three
    corners of a triangle; the corners 0, 1, 3 and then 1, 2, 3 of a
    quadrilateral. *)
Definition tria_nodes (ds : CParallelDataSorter V) : list N :=
  seq 0 (GetnElem ds TRIANGLE) ≫= λ iElem,
    (λ iPoint, usub (GetElem_Connectivity ds TRIANGLE iElem iPoint) 1) <$> seq 0 3.

Definition quad_nodes (ds : CParallelDataSorter V) : list N :=
  seq 0 (GetnElem ds QUADRILATERAL) ≫= λ iElem,
    (λ iPoint, usub (GetElem_Connectivity ds QUADRILATERAL iElem iPoint) 1)
      <$> [0; 1; 3; 1; 2; 3].

(** The direct enumeration of the field values of the local elements, in
    (element, node, field) order, triangles first. *)
Definition local_values (w : Writer) (val : N → nat → V) : list V :=
  (tria_nodes (dataSorter w) ++ quad_nodes (dataSorter w)) ≫= node_values w val.

Definition local_calls (w : Writer) : list (N * nat) :=
  (tria_nodes (dataSorter w) ++ quad_nodes (dataSorter w)) ≫= node_calls w.

(** ** The world that [GatherCoordData] leaves *)

(** The members of [w] that [GatherCoordData] reads but does not write are
    those of [w']. *)
Definition same_inputs (w w' : Writer) : Prop :=
  rank w' = rank w ∧ size w' = size w ∧ fileName w' = fileName w
  ∧ dataSorter w' = dataSorter w
  ∧ sorted_halo_nodes w' = sorted_halo_nodes w
  ∧ num_nodes_to_receive w' = num_nodes_to_receive w
  ∧ values_to_receive_displacements w' = values_to_receive_displacements w
  ∧ halo_var_data w' = halo_var_data w.


(** The send buffer of a rank when the largest count is [M]: the values of its
    elements, then zeros. *)
Definition send_buffer (M : nat) (w : Writer) (val : N → nat → V) : list V :=
  list_inserts 0 (local_values w val) (replicate (M * 3 * 3) zero).

(** ** The facets of a mesh, from the sorters alone *)

(** The triangles of a rank as triples of node numbers: its triangles in the
    order of the elements, then for each quadrilateral in the order of the
    elements the triangle of its corners 0, 1, 3 and that of 1, 2, 3. *)
Definition local_triangles (ds : CParallelDataSorter V) : list (list N) :=
  ((λ iElem, (λ iPoint, usub (GetElem_Connectivity ds TRIANGLE iElem iPoint) 1) <$> [0; 1; 2])
     <$> seq 0 (GetnElem ds TRIANGLE))
  ++ (seq 0 (GetnElem ds QUADRILATERAL) ≫= λ iElem,
        [(λ iPoint, usub (GetElem_Connectivity ds QUADRILATERAL iElem iPoint) 1) <$> [0; 1; 3];
         (λ iPoint, usub (GetElem_Connectivity ds QUADRILATERAL iElem iPoint) 1) <$> [1; 2; 3]]).

(** Field [iVar] of node [g] as the rank that owns it (for the sorter [ds])
    holds it, in a mesh whose ranks have the sorters [dss]. *)
Definition owner_value (dss : list (CParallelDataSorter V)) (ds : CParallelDataSorter V)
    (g : N) (iVar : nat) : V :=
  let p := FindProcessor ds g in
  from_option (λ dsp, GetData dsp iVar (usub g (GetNodeBegin dsp p))) zero (dss !! p).

(** The nine coordinates of a triangle: corner after corner, x, y, z. *)
Definition facet_coordinates (dss : list (CParallelDataSorter V)) (ds : CParallelDataSorter V)
    (tri : list N) : list V :=
  tri ≫= λ g, owner_value dss ds g <$> seq 0 3.

(** The facets of the mesh: rank after rank. *)
Definition mesh_facets (dss : list (CParallelDataSorter V)) : list (list V) :=
  dss ≫= λ ds, facet_coordinates dss ds <$> local_triangles ds.

(** The field values of the elements of a rank that owns all its nodes, in
    (element, node, field) order: triangles, then quadrilaterals as two
    triangles each. *)
Definition direct_enumeration (ds : CParallelDataSorter V) (r : nat) : list V :=
  (tria_nodes ds ++ quad_nodes ds) ≫= λ g,
    (λ iVar, GetData ds iVar (usub g (GetNodeBegin ds r))) <$> seq 0 3.


(** What [GatherCoordData] leaves on the rank of [w], when the values of the
    ranks' halo nodes are [val]: the members it reads are kept, [M] is the
    largest count, and the master holds the counts [counts] and the send
    buffers of all ranks in rank order. *)
Definition gathered (ws : list Writer) (val : nat → N → nat → V) (w w' : Writer) : Prop :=
  let M := max_list (nLocalTriaAll <$> ws) in
  same_inputs w w'
  ∧ MaxLocalTriaAll w' = M
  ∧ (rank w = MASTER_NODE →
     Buffer_Recv_nTriaAll w' = Some (nLocalTriaAll <$> ws)
     ∧ bufD_Recv w' = Some (mjoin ((λ w, send_buffer M w (val (rank w))) <$> ws))).


(** The value that rank [r] of the mesh [dss] gets for field [iVar] of the
    node [g]. *)
Definition rank_value (dss : list (CParallelDataSorter V)) (r : nat) (g : N) (iVar : nat) : V :=
  from_option (λ ds, owner_value dss ds g iVar) zero (dss !! r).


(** ** What [Write_Data] computes on a valid mesh *)

(** What rank [w] of the world [ws] holds when the master writes ([w'] is its
    writer then). *)
Definition ready_to_write (ws : list Writer) (w w' : Writer) : Prop :=
  rank w' = rank w ∧ size w' = size w ∧ fileName w' = fileName w
  ∧ dataSorter w' = dataSorter w
  ∧ MaxLocalTriaAll w' = max_list (nLocalTriaAll <$> ws)
  ∧ (rank w = MASTER_NODE →
     Buffer_Recv_nTriaAll w' = Some (nLocalTriaAll <$> ws)
     ∧ gathered_triangles w' = mesh_facets (dataSorter <$> ws)).


(** The characters a rank wrote, if it opened a file. *)
Definition written (f : option ofstream) : option string := text <$> f.


(** The payload for rank [iRank] with the fields of every node side by side:
    node after node, and for each node its fields one after the other. *)
Definition node_major_block (w : Writer) (iRank : nat) : list V :=
  mjoin ((λ iNode,
            (λ iVar,
               GetData (dataSorter w) iVar
                 (usub (nodes_to_send w !!! (nodes_to_send_displacements w !!! iRank + iNode))
                       (GetNodeBegin (dataSorter w) (rank w))))
              <$> seq 0 (length (fieldnames w)))
           <$> seq 0 (num_nodes_to_send w !!! iRank)).

(** ** Properties *)

(** Reads the members of a writer built by assignments. *)
Ltac writer_fields :=
  cbn [
       rank size fieldnames fileName dataSorter num_nodes_to_receive
       values_to_receive_displacements halo_nodes sorted_halo_nodes num_halo_nodes
       num_nodes_to_send nodes_to_send_displacements nodes_to_receive_displacements
       nodes_to_send data_to_send halo_var_data num_values_to_send
       values_to_send_displacements num_values_to_receive MaxLocalTriaAll
       Buffer_Recv_nTriaAll bufD_Recv set_dataSorter set_num_nodes_to_receive
       set_values_to_receive_displacements set_halo_nodes set_sorted_halo_nodes
       set_num_halo_nodes set_num_nodes_to_send set_nodes_to_send_displacements
       set_nodes_to_receive_displacements set_nodes_to_send set_data_to_send
       set_halo_var_data set_num_values_to_send set_values_to_send_displacements
       set_num_values_to_receive set_MaxLocalTriaAll set_Buffer_Recv_nTriaAll
       set_bufD_Recv].

(** Two writers with the same members are equal. *)
Lemma writer_ext (w1 w2 : Writer) :
  rank w1 = rank w2 →
  size w1 = size w2 →
  fieldnames w1 = fieldnames w2 →
  fileName w1 = fileName w2 →
  dataSorter w1 = dataSorter w2 →
  num_nodes_to_receive w1 = num_nodes_to_receive w2 →
  values_to_receive_displacements w1 = values_to_receive_displacements w2 →
  halo_nodes w1 = halo_nodes w2 →
  sorted_halo_nodes w1 = sorted_halo_nodes w2 →
  num_halo_nodes w1 = num_halo_nodes w2 →
  num_nodes_to_send w1 = num_nodes_to_send w2 →
  nodes_to_send_displacements w1 = nodes_to_send_displacements w2 →
  nodes_to_receive_displacements w1 = nodes_to_receive_displacements w2 →
  nodes_to_send w1 = nodes_to_send w2 →
  data_to_send w1 = data_to_send w2 →
  halo_var_data w1 = halo_var_data w2 →
  num_values_to_send w1 = num_values_to_send w2 →
  values_to_send_displacements w1 = values_to_send_displacements w2 →
  num_values_to_receive w1 = num_values_to_receive w2 →
  MaxLocalTriaAll w1 = MaxLocalTriaAll w2 →
  Buffer_Recv_nTriaAll w1 = Buffer_Recv_nTriaAll w2 →
  bufD_Recv w1 = bufD_Recv w2 →
  w1 = w2.
Proof. destruct w1, w2. simpl. intros. by subst. Qed.

(** *** Arithmetic and containers *)

Lemma usub_no_wrap (a b : N) :
  (b ≤ a)%N → (a < 2 ^ 64)%N → usub a b = (a - b)%N.
Proof.
  intros Hle Hlt. unfold usub, ULONG_MODULUS.
  rewrite Z.mod_small by lia. lia.
Qed.

Lemma elem_of_set_insert (x y : N) (s : list N) :
  y ∈ set_insert x s ↔ y = x ∨ y ∈ s.
Proof.
  induction s as [|z s IH]; simpl.
  - rewrite list_elem_of_singleton. split; [by left|]. by intros [?|?%elem_of_nil].
  - destruct (N.ltb_spec x z); [by rewrite elem_of_cons|].
    destruct (N.eqb_spec x z) as [->|?].
    + rewrite elem_of_cons. tauto.
    + rewrite !elem_of_cons, IH. tauto.
Qed.

Lemma set_insert_sorted (x : N) (s : list N) :
  StronglySorted N.lt s → StronglySorted N.lt (set_insert x s).
Proof.
  induction 1 as [|z s Hs IH Hz]; simpl.
  - repeat constructor.
  - destruct (N.ltb_spec x z) as [Hlt|Hge].
    + constructor; [by constructor|].
      constructor; [done|]. eapply Forall_impl; [exact Hz|]. intros; simpl in *; lia.
    + destruct (N.eqb_spec x z) as [->|Hne]; [by constructor|].
      constructor; [done|].
      apply Forall_forall. intros y Hy. apply elem_of_set_insert in Hy as [->|Hy].
      * lia.
      * by eapply Forall_forall in Hz.
Qed.

Lemma gather_halo_nodes_S (w : Writer) (t : GEO_TYPE) (n : nat) (halo : list N) :
  gather_halo_nodes w t (S n) halo
  = let g := usub (GetElem_Connectivity (dataSorter w) t 0 n) 1 in
    if decide (FindProcessor (dataSorter w) g ≠ rank w)
    then set_insert g (gather_halo_nodes w t n halo)
    else gather_halo_nodes w t n halo.
Proof. unfold gather_halo_nodes. by rewrite seq_S, foldl_app. Qed.

Lemma elem_of_gather_halo_nodes (w : Writer) (t : GEO_TYPE) (n : nat) (halo : list N) (g : N) :
  g ∈ gather_halo_nodes w t n halo ↔
  g ∈ halo ∨ ∃ i, i < n ∧ g = usub (GetElem_Connectivity (dataSorter w) t 0 i) 1
                 ∧ FindProcessor (dataSorter w) g ≠ rank w.
Proof.
  induction n as [|n IH].
  - simpl. split; [by left|]. intros [?|(i & ? & _)]; [done|lia].
  - rewrite gather_halo_nodes_S. cbv zeta. case_decide as Hown.
    + rewrite elem_of_set_insert, IH. split.
      * intros [->|[?|(i & ? & ? & ?)]]; [right; exists n; split; [lia|done]|by left|].
        right. exists i. split; [lia|done].
      * intros [?|(i & Hi & -> & ?)]; [tauto|].
        destruct (decide (i = n)) as [->|]; [by left|].
        right. right. exists i. split; [lia|done].
    + rewrite IH. split.
      * intros [?|(i & ? & ? & ?)]; [by left|]. right. exists i. split; [lia|done].
      * intros [?|(i & Hi & -> & ?)]; [tauto|].
        destruct (decide (i = n)) as [->|]; [done|].
        right. exists i. split; [lia|done].
Qed.

Lemma gather_halo_nodes_sorted (w : Writer) (t : GEO_TYPE) (n : nat) (halo : list N) :
  StronglySorted N.lt halo → StronglySorted N.lt (gather_halo_nodes w t n halo).
Proof.
  intros Hs. induction n as [|n IH]; [done|].
  rewrite gather_halo_nodes_S. cbv zeta. case_decide; [by apply set_insert_sorted|done].
Qed.

Lemma halo_set_sorted (w : Writer) : StronglySorted N.lt (halo_set w).
Proof. unfold halo_set. do 2 apply gather_halo_nodes_sorted. constructor. Qed.

Lemma sorted_halo_nodes_demand (w : Writer) :
  sorted_halo_nodes (Reprocess_demand w) = halo_set w.
Proof. reflexivity. Qed.

Lemma num_halo_nodes_demand (w : Writer) :
  num_halo_nodes (Reprocess_demand w) = length (halo_set w).
Proof. reflexivity. Qed.

Lemma StronglySorted_lt_NoDup (s : list N) : StronglySorted N.lt s → NoDup s.
Proof.
  induction 1 as [|x s _ IH Hx]; constructor; [|done].
  intros Hin. eapply Forall_forall in Hx; [|done]. lia.
Qed.

Lemma row_major_referenced (ds : CParallelDataSorter V) (g : N) :
  row_major ds →
  referenced ds g ↔
  ∃ t i, i < GetnElem ds t * N_POINTS t ∧ g = usub (GetElem_Connectivity ds t 0 i) 1.
Proof.
  intros Hrow. split.
  - intros (t & e & p & He & Hp & ->). exists t, (e * N_POINTS t + p). split; [|by rewrite Hrow].
    apply Nat.lt_le_trans with (S e * N_POINTS t); [lia|]. apply Nat.mul_le_mono_r. lia.
  - intros (t & i & Hi & ->).
    assert (0 < N_POINTS t) as Hpos by (destruct t; compute; lia).
    exists t, (i `div` N_POINTS t), (i `mod` N_POINTS t).
    assert (i `mod` N_POINTS t < N_POINTS t) by (apply Nat.mod_upper_bound; lia).
    assert (i `div` N_POINTS t < GetnElem ds t)
      by (apply Nat.Div0.div_lt_upper_bound; lia).
    split_and!; [done..|].
    rewrite (Hrow t (i `div` N_POINTS t) (i `mod` N_POINTS t)) by done.
    replace (i `div` N_POINTS t * N_POINTS t + i `mod` N_POINTS t) with i; [done|].
    rewrite (Nat.div_mod_eq i (N_POINTS t)) at 1. lia.
Qed.

Lemma elem_of_halo_set (w : Writer) (g : N) :
  g ∈ halo_set w ↔
  (∃ t i, i < GetnElem (dataSorter w) t * N_POINTS t
          ∧ g = usub (GetElem_Connectivity (dataSorter w) t 0 i) 1)
  ∧ FindProcessor (dataSorter w) g ≠ rank w.
Proof.
  unfold halo_set. rewrite !elem_of_gather_halo_nodes. split.
  - intros [[Hnil|(i & ? & ? & ?)]|(i & ? & ? & ?)].
    + by apply elem_of_nil in Hnil.
    + split; [|done]. by exists TRIANGLE, i.
    + split; [|done]. by exists QUADRILATERAL, i.
  - intros [(t & i & ? & ?) ?]. destruct t.
    + left. right. by exists i.
    + right. by exists i.
Qed.

(** C8. After the enumeration and the sorting of [ReprocessElementConnectivity],
    [sorted_halo_nodes] holds exactly the global numbers of the corners of the
    local triangles and quadrilaterals that [FindProcessor] gives to another
    rank, in strictly increasing order (so without duplicates), and
    [num_halo_nodes] is their number. *)
Theorem halo_node_set_invariant (w : Writer) :
  row_major (dataSorter w) →
  StronglySorted N.lt (sorted_halo_nodes (Reprocess_demand w))
  ∧ NoDup (sorted_halo_nodes (Reprocess_demand w))
  ∧ num_halo_nodes (Reprocess_demand w) = length (sorted_halo_nodes (Reprocess_demand w))
  ∧ ∀ g, g ∈ sorted_halo_nodes (Reprocess_demand w) ↔
         referenced (dataSorter w) g ∧ FindProcessor (dataSorter w) g ≠ rank w.
Proof.
  intros Hrow. rewrite sorted_halo_nodes_demand, num_halo_nodes_demand.
  split_and!; [apply halo_set_sorted|apply StronglySorted_lt_NoDup, halo_set_sorted|done|].
  intros g. by rewrite elem_of_halo_set, row_major_referenced.
Qed.

(** *** Loops that may end the process *)

Lemma for_each_app {A S} (body : S → A → outcome S) (s : S) (l1 l2 : list A) :
  for_each body s (l1 ++ l2) = obind (for_each body s l1) (λ s', for_each body s' l2).
Proof.
  revert s. induction l1 as [|x l1 IH]; intros s; simpl; [done|].
  destruct (body s x); simpl; [apply IH|done].
Qed.

Lemma for_each_ext {A S} (f g : S → A → outcome S) (s : S) (l : list A) :
  (∀ s x, x ∈ l → f s x = g s x) → for_each f s l = for_each g s l.
Proof.
  revert s. induction l as [|x l IH]; intros s Hfg; simpl; [done|].
  rewrite Hfg by apply list_elem_of_here. destruct (g s x); simpl; [|done].
  apply IH. intros. apply Hfg. by apply list_elem_of_further.
Qed.

(** *** [GetHaloNodeValue] reads five members only *)

Lemma halo_inner_ext (w w' : Writer) (offset iRank iVar : nat) (range : list nat) (id : nat) :
  num_nodes_to_receive w = num_nodes_to_receive w' →
  values_to_receive_displacements w = values_to_receive_displacements w' →
  halo_var_data w = halo_var_data w' →
  halo_inner w offset iRank iVar range id = halo_inner w' offset iRank iVar range id.
Proof.
  intros E1 E2 E3. revert id. induction range as [|i range IH]; intros id; simpl; [done|].
  rewrite E1, E2, E3. case_decide; [done|apply IH].
Qed.

Lemma halo_outer_ext (w w' : Writer) (offset iVar : nat) (ranks : list nat) (id : nat) :
  num_nodes_to_receive w = num_nodes_to_receive w' →
  values_to_receive_displacements w = values_to_receive_displacements w' →
  halo_var_data w = halo_var_data w' →
  halo_outer w offset iVar ranks id = halo_outer w' offset iVar ranks id.
Proof.
  intros E1 E2 E3. revert id. induction ranks as [|iRank ranks IH]; intros id; simpl; [done|].
  rewrite (halo_inner_ext w w') by done. rewrite E1.
  destruct (halo_inner _ _ _ _ _ _); [done|apply IH].
Qed.

Lemma GetHaloNodeValue_ext (w w' : Writer) (g : N) (iVar : nat) :
  size w = size w' →
  sorted_halo_nodes w = sorted_halo_nodes w' →
  num_nodes_to_receive w = num_nodes_to_receive w' →
  values_to_receive_displacements w = values_to_receive_displacements w' →
  halo_var_data w = halo_var_data w' →
  GetHaloNodeValue w g iVar = GetHaloNodeValue w' g iVar.
Proof.
  intros E0 E1 E2 E3 E4. unfold GetHaloNodeValue. rewrite E0, E1. by apply halo_outer_ext.
Qed.

(** *** The loops over the quadrilaterals *)

Lemma load_quad_point_single_triangle (w : Writer) (iElem iPoint j : nat) (a b c : N)
    (st : SendState) :
  GetElem_Connectivity (dataSorter w) QUADRILATERAL iElem (Nodelist !!! iPoint)
  = [a; b; c] !!! j →
  load_quad_point w iElem st iPoint
  = load_tria_point (set_dataSorter (single_triangle (dataSorter w) a b c) w) 0 st j.
Proof.
  intros Hc. unfold load_quad_point, load_tria_point. rewrite Hc. simpl dataSorter.
  apply for_each_ext. intros [[buf index] calls] iVar _.
  unfold load_quad_var, load_tria_var. simpl.
  case_decide; [done|].
  by rewrite (GetHaloNodeValue_ext (set_dataSorter (single_triangle (dataSorter w) a b c) w) w).
Qed.

(** C4. A quadrilateral of corners [A, B, C, D] (connectivity positions 0, 1,
    2, 3) is loaded as the native triangle [A, B, D] followed by the native
    triangle [B, C, D], whatever the rank, the element and the state of the
    writer; the two triangles fill 18 entries of the send buffer. *)
Theorem quad_split_determinism (w : Writer) (st : SendState) (iElem : nat) :
  let corner := GetElem_Connectivity (dataSorter w) QUADRILATERAL iElem in
  let ABD := single_triangle (dataSorter w) (corner 0) (corner 1) (corner 3) in
  let BCD := single_triangle (dataSorter w) (corner 1) (corner 2) (corner 3) in
  Nodelist = [0; 1; 3; 1; 2; 3]
  ∧ load_quad_elem w st iElem
    = obind (load_tria_elem (set_dataSorter ABD w) st 0)
            (λ st', load_tria_elem (set_dataSorter BCD w) st' 0)
  ∧ ∀ st', load_quad_elem w st iElem = Ok st' → st'.1.2 = st.1.2 + 2 * 9.
Proof.
  intros corner ABD BCD.
  assert (load_quad_elem w st iElem
          = obind (load_tria_elem (set_dataSorter ABD w) st 0)
                  (λ st', load_tria_elem (set_dataSorter BCD w) st' 0)) as Heq.
  { unfold load_quad_elem, load_tria_elem.
    change (seq 0 (length Nodelist)) with ([0; 1; 2] ++ [3; 4; 5]).
    rewrite for_each_app. change (seq 0 3) with [0; 1; 2]. simpl.
    rewrite !(load_quad_point_single_triangle w iElem 0 0 (corner 0) (corner 1) (corner 3)) by done.
    destruct (load_tria_point _ 0 st 0) as [s1|]; simpl; [|done].
    rewrite !(load_quad_point_single_triangle w iElem 1 1 (corner 0) (corner 1) (corner 3)) by done.
    destruct (load_tria_point _ 0 s1 1) as [s2|]; simpl; [|done].
    rewrite !(load_quad_point_single_triangle w iElem 2 2 (corner 0) (corner 1) (corner 3)) by done.
    destruct (load_tria_point _ 0 s2 2) as [s3|]; simpl; [|done].
    rewrite !(load_quad_point_single_triangle w iElem 3 0 (corner 1) (corner 2) (corner 3)) by done.
    destruct (load_tria_point _ 0 s3 0) as [s4|]; simpl; [|done].
    rewrite !(load_quad_point_single_triangle w iElem 4 1 (corner 1) (corner 2) (corner 3)) by done.
    destruct (load_tria_point _ 0 s4 1) as [s5|]; simpl; [|done].
    by rewrite !(load_quad_point_single_triangle w iElem 5 2 (corner 1) (corner 2) (corner 3)). }
  split_and!; [done|done|].
  intros st'. unfold load_quad_elem. change (seq 0 (length Nodelist)) with [0; 1; 2; 3; 4; 5].
  assert (∀ s iPoint s', load_quad_point w iElem s iPoint = Ok s' → s'.1.2 = s.1.2 + 3) as Hpt.
  { intros [[b i] c] iPoint s'. unfold load_quad_point. change (seq 0 3) with [0; 1; 2].
    simpl. unfold load_quad_var.
    repeat (case_decide || destruct (GetHaloNodeValue _ _ _) || simpl);
      intros [= <-] || intros [=]; simpl; lia. }
  simpl.
  repeat (let E := fresh "E" in
          destruct (load_quad_point w iElem _ _) eqn:E; simpl; [apply Hpt in E|done]).
  intros [= <-]. lia.
Qed.

(** *** The text written by the master *)

Lemma append_cons (x : Ascii.ascii) (a b : string) : String x a +:+ b = String x (a +:+ b).
Proof. reflexivity. Qed.

Lemma append_assoc (a b c : string) : (a +:+ b) +:+ c = a +:+ (b +:+ c).
Proof. induction a as [|x a IH]; [done|]. by rewrite !append_cons, IH. Qed.

Lemma append_nil_r (a : string) : a +:+ EmptyString = a.
Proof. induction a as [|x a IH]; [done|]. by rewrite append_cons, IH. Qed.

Lemma concat_str_app (l1 l2 : list string) :
  concat_str (l1 ++ l2) = concat_str l1 +:+ concat_str l2.
Proof.
  induction l1 as [|s l1 IH]; [done|]. unfold concat_str in *. simpl.
  by rewrite IH, append_assoc.
Qed.

Lemma put_put (a b : string) (f : ofstream) : put a (put b f) = put (b +:+ a) f.
Proof. unfold put. cbn. by rewrite append_assoc. Qed.

Lemma put_empty (f : ofstream) : put EmptyString f = f.
Proof. destruct f. unfold put. cbn. by rewrite append_nil_r. Qed.

Lemma write_vertex_put (w : Writer) (iProcessor iElem iPoint : nat) (f : ofstream) :
  iPoint < 3 →
  write_vertex w iProcessor iElem f iPoint
  = put (vertex_line (precision f)
           (gathered_triangle w iProcessor iElem !!! (iPoint * 3))
           (gathered_triangle w iProcessor iElem !!! (iPoint * 3 + 1))
           (gathered_triangle w iProcessor iElem !!! (iPoint * 3 + 2))) f.
Proof.
  intros Hp. unfold write_vertex, vertex_line, endl, put_double. cbn [foldl seq].
  rewrite !put_put. cbn [precision put].
  assert (∀ k, k < 3 →
            gathered_triangle w iProcessor iElem !!! (iPoint * 3 + k)
            = deref (bufD_Recv w)
                !!! (iProcessor * MaxLocalTriaAll w * 3 * 3 + iElem * 3 * 3 + iPoint * 3 + k))
    as Hk.
  { intros k Hlt. unfold gathered_triangle.
    destruct iPoint as [|[|[|?]]]; [..|lia]; destruct k as [|[|[|?]]]; [..|lia | | | |lia | | | |lia];
      cbn; f_equal; lia. }
  pose proof (Hk 0 ltac:(lia)) as H0. rewrite !Nat.add_0_r in H0.
  by rewrite H0, !Hk, !Nat.add_0_r by lia.
Qed.

Lemma write_facet_put (w : Writer) (iProcessor iElem : nat) (f : ofstream) :
  write_facet w iProcessor f iElem
  = put (facet_record (precision f) (gathered_triangle w iProcessor iElem)) f.
Proof.
  unfold write_facet, endl. cbn [foldl seq].
  rewrite !write_vertex_put by lia. rewrite !put_put. cbn [precision put].
  reflexivity.
Qed.

Lemma write_facets_put (w : Writer) (iProcessor n : nat) (f : ofstream) :
  foldl (write_facet w iProcessor) f (seq 0 n)
  = put (concat_str (facet_record (precision f)
                       <$> (gathered_triangle w iProcessor <$> seq 0 n))) f.
Proof.
  induction n as [|n IH]; [by rewrite put_empty|].
  rewrite seq_S, foldl_app, IH. cbn [foldl]. rewrite write_facet_put, put_put.
  cbn [precision put]. rewrite !fmap_app, concat_str_app. cbn.
  by rewrite append_nil_r.
Qed.

Lemma write_processors_put (w : Writer) (n : nat) (f : ofstream) :
  foldl (write_processor w) f (seq 0 n)
  = put (concat_str
           (facet_record (precision f)
              <$> mjoin ((λ iProcessor,
                             gathered_triangle w iProcessor
                               <$> seq 0 (deref (Buffer_Recv_nTriaAll w) !!! iProcessor))
                            <$> seq 0 n))) f.
Proof.
  induction n as [|n IH]; [by rewrite put_empty|].
  rewrite seq_S, foldl_app, IH. cbn [foldl]. unfold write_processor at 1.
  rewrite write_facets_put, put_put. cbn [precision put].
  rewrite fmap_app, join_app, fmap_app, concat_str_app. cbn [fmap list_fmap mjoin list_join].
  by rewrite app_nil_r.
Qed.

Lemma write_file_master (w : Writer) :
  rank w = MASTER_NODE →
  write_file w = Some {| precision := 6; opened := Some (fileName w);
                         text := stl_text 6 (gathered_triangles w) |}.
Proof.
  intros Hr. unfold write_file. rewrite decide_True by done. f_equal.
  unfold endl. rewrite write_processors_put, !put_put. unfold put, open, set_precision.
  cbn [precision opened text]. reflexivity.
Qed.

Lemma write_file_other (w : Writer) : rank w ≠ MASTER_NODE → write_file w = None.
Proof. intros Hr. unfold write_file. by rewrite decide_False. Qed.

(** *** Loops over vectors *)

Lemma foldl_insert_seq {A} (f : nat → A) (l : list A) (n : nat) :
  n ≤ length l →
  foldl (λ l i, <[i := f i]> l) l (seq 0 n) = (f <$> seq 0 n) ++ drop n l.
Proof.
  induction n as [|n IH]; intros Hn; [by rewrite drop_0|].
  rewrite seq_S, foldl_app, fmap_app, IH by lia. simpl.
  rewrite insert_app_r_alt by (rewrite length_fmap, length_seq; lia).
  rewrite length_fmap, length_seq, Nat.sub_diag, <- app_assoc. f_equal.
  destruct (lookup_lt_is_Some_2 l n) as [x Hx]; [lia|].
  by rewrite (drop_S l x n Hx).
Qed.

Lemma fmap_lookup_seq {A} `{Inhabited A} (l : list A) :
  (λ i, l !!! i) <$> seq 0 (length l) = l.
Proof.
  apply list_eq. intros i. rewrite list_lookup_fmap.
  destruct (decide (i < length l)) as [Hi|Hi].
  - rewrite lookup_seq_lt by done. simpl.
    destruct (lookup_lt_is_Some_2 l i Hi) as [x Hx].
    by rewrite (list_lookup_total_correct _ _ _ Hx).
  - rewrite lookup_seq_ge by lia. simpl. symmetry. apply lookup_ge_None. lia.
Qed.

Lemma list_inserts_0 {A} (k l : list A) :
  length k ≤ length l → list_inserts 0 k l = k ++ drop (length k) l.
Proof.
  intros Hk. rewrite <- (take_drop (length k) l) at 1.
  apply list_inserts_0_r. rewrite length_take. lia.
Qed.

Lemma foldl_inserts_seq {A} (m : nat → list A) (buf : list A) (n : nat) :
  sum_list (length ∘ m <$> seq 0 n) ≤ length buf →
  foldl (λ buf s, list_inserts (sum_list (length ∘ m <$> seq 0 s)) (m s) buf) buf (seq 0 n)
  = mjoin (m <$> seq 0 n) ++ drop (sum_list (length ∘ m <$> seq 0 n)) buf.
Proof.
  induction n as [|n IH]; intros Hn; [by rewrite drop_0|].
  rewrite seq_S, !fmap_app, sum_list_with_app in Hn. simpl in Hn.
  rewrite seq_S, foldl_app, !fmap_app, sum_list_with_app, join_app, IH by lia. simpl.
  assert (length (mjoin (m <$> seq 0 n)) = sum_list (length ∘ m <$> seq 0 n)) as Hlen.
  { by rewrite length_join, <- list_fmap_compose. }
  rewrite <- Hlen at 1. rewrite <- (Nat.add_0_r (length _)), list_inserts_app_r.
  rewrite list_inserts_0 by (rewrite length_drop; lia).
  rewrite drop_drop, app_nil_r, <- app_assoc. do 3 f_equal. lia.
Qed.

Lemma take_drop_join {A} (bs : list (list A)) (rest b : list A) (k : nat) :
  bs !! k = Some b →
  take (length b) (drop (sum_list (length <$> take k bs)) (mjoin bs ++ rest)) = b.
Proof.
  revert k. induction bs as [|b' bs IH]; intros k Hk; [done|].
  destruct k as [|k]; simpl in *.
  - simplify_eq. rewrite drop_0, <- app_assoc. by rewrite take_app_length.
  - rewrite <- app_assoc, drop_app_add. by apply IH.
Qed.

(** *** The demand: counts of the nodes to receive *)

Lemma fill_neighbor_partitions_take (w : Writer) :
  num_halo_nodes w = length (sorted_halo_nodes w) →
  take (num_halo_nodes w) (fill_neighbor_partitions w)
  = FindProcessor (dataSorter w) <$> sorted_halo_nodes w.
Proof.
  intros Hn. unfold fill_neighbor_partitions.
  rewrite (foldl_insert_seq (λ i, FindProcessor (dataSorter w) (sorted_halo_nodes w !!! i)))
    by (rewrite length_replicate; lia).
  rewrite take_app_length' by (by rewrite length_fmap, length_seq).
  rewrite Hn. rewrite <- (fmap_lookup_seq (sorted_halo_nodes w)) at 2.
  by rewrite <- list_fmap_compose.
Qed.

Lemma count_nodes_to_receive_foldl (np : list nat) (n : nat) (num : list nat) :
  n ≤ length np →
  count_nodes_to_receive np n num
  = foldl (λ num k, <[k := S (num !!! k)]> num) num (take n np).
Proof.
  unfold count_nodes_to_receive. induction n as [|n IH]; intros Hn; [done|].
  destruct (lookup_lt_is_Some_2 np n) as [k Hk]; [lia|].
  rewrite seq_S, foldl_app, (take_S_r _ _ _ Hk), foldl_app, IH by lia. simpl.
  by rewrite (list_lookup_total_correct _ _ _ Hk).
Qed.

Lemma foldl_count_lookup (ks num : list nat) (p : nat) :
  p < length num →
  foldl (λ num k, <[k := S (num !!! k)]> num) num ks !!! p
  = num !!! p + length (filter (λ k, k = p) ks).
Proof.
  revert num. induction ks as [|k ks IH]; intros num Hp; simpl; [lia|].
  rewrite IH by (by rewrite length_insert). rewrite filter_cons.
  destruct (decide (k = p)) as [->|Hne]; simpl.
  - rewrite list_lookup_total_insert_eq by done. lia.
  - by rewrite list_lookup_total_insert_ne.
Qed.

Lemma foldl_count_length (ks num : list nat) :
  length (foldl (λ num k, <[k := S (num !!! k)]> num) num ks) = length num.
Proof.
  revert num. induction ks as [|k ks IH]; intros num; simpl; [done|].
  by rewrite IH, length_insert.
Qed.

Lemma length_filter_fmap {A} (f : A → nat) (l : list A) (p : nat) :
  length (filter (λ k, k = p) (f <$> l)) = length (filter (λ x, f x = p) l).
Proof.
  induction l as [|x l IH]; [done|]. rewrite fmap_cons, !filter_cons.
  destruct (decide (f x = p)); simpl; by rewrite IH.
Qed.


Lemma num_nodes_to_receive_demand_loop (w : Writer) :
  num_nodes_to_receive (Reprocess_demand w)
  = count_nodes_to_receive
      (fill_neighbor_partitions
         (set_num_halo_nodes (length (halo_set w)) (set_sorted_halo_nodes (halo_set w) w)))
      (length (halo_set w)) (resize (size w) 0 (num_nodes_to_receive w)).
Proof. reflexivity. Qed.

Lemma num_nodes_to_receive_demand (w : Writer) :
  freshly_constructed w →
  num_nodes_to_receive (Reprocess_demand w)
  = (λ p, length (requested_from w p)) <$> seq 0 (size w).
Proof.
  intros Hfresh. rewrite num_nodes_to_receive_demand_loop.
  set (w1 := set_num_halo_nodes _ _).
  assert (dataSorter w1 = dataSorter w) as Hds by done.
  assert (sorted_halo_nodes w1 = halo_set w) as HS by done.
  assert (num_halo_nodes w1 = length (halo_set w)) as Hn by done.
  assert (num_halo_nodes w1 = length (sorted_halo_nodes w1)) as Hn1 by done.
  clearbody w1.
  pose proof (fill_neighbor_partitions_take w1 Hn1) as Htake.
  rewrite HS, Hn, Hds in Htake.
  rewrite count_nodes_to_receive_foldl.
  2:{ unfold fill_neighbor_partitions. rewrite Hn.
      rewrite (foldl_insert_seq
                 (λ i, FindProcessor (dataSorter w1) (sorted_halo_nodes w1 !!! i)))
        by (rewrite length_replicate; lia).
      rewrite length_app, length_fmap, length_seq. lia. }
  rewrite Htake. set (L := foldl _ _ _). rewrite <- (fmap_lookup_seq L). subst L.
  rewrite foldl_count_length, length_resize.
  apply list_fmap_ext. intros i p Hp. apply lookup_seq in Hp as [-> Hp]. simpl.
  rewrite foldl_count_lookup by (by rewrite length_resize).
  rewrite Hfresh, resize_nil, lookup_total_replicate_2 by done. simpl.
  apply length_filter_fmap.
Qed.

(** *** The displacements *)

Lemma sum_list_take_S (l : list nat) (k : nat) :
  sum_list (take (S k) l) = sum_list (take k l) + l !!! k.
Proof.
  destruct (l !! k) as [x|] eqn:Hk.
  - rewrite (take_S_r _ _ _ Hk), sum_list_with_app, (list_lookup_total_correct _ _ _ Hk).
    simpl. lia.
  - rewrite list_lookup_total_alt, Hk. apply lookup_ge_None in Hk.
    rewrite !take_ge by lia. simpl. lia.
Qed.

Lemma prefix_sums_S (num : list nat) (n : nat) :
  prefix_sums num (S n) = prefix_sums num n ++ [sum_list (take n num)].
Proof. unfold prefix_sums. by rewrite seq_S, fmap_app. Qed.

Lemma length_prefix_sums (num : list nat) (n : nat) : length (prefix_sums num n) = n.
Proof. unfold prefix_sums. by rewrite length_fmap, length_seq. Qed.

Lemma lookup_total_prefix_sums (num : list nat) (n p : nat) :
  p < n → prefix_sums num n !!! p = sum_list (take p num).
Proof.
  intros Hp. unfold prefix_sums. apply list_lookup_total_correct.
  by rewrite list_lookup_fmap, lookup_seq_lt.
Qed.

Lemma prefix_displacements_steps (num_send num_receive : list nat) (k : nat)
    (sd rd : list nat) :
  S k ≤ length sd → S k ≤ length rd → sd !! 0 = Some 0 → rd !! 0 = Some 0 →
  foldl (λ '(send_displs, receive_displs) iRank,
           (<[iRank := send_displs !!! (iRank - 1) + num_send !!! (iRank - 1)]> send_displs,
            <[iRank := receive_displs !!! (iRank - 1) + num_receive !!! (iRank - 1)]>
              receive_displs))
        (sd, rd) (seq 1 k)
  = (prefix_sums num_send (S k) ++ drop (S k) sd,
     prefix_sums num_receive (S k) ++ drop (S k) rd).
Proof.
  intros Hsd Hrd Hs0 Hr0. induction k as [|k IH].
  - simpl. f_equal.
    + destruct sd as [|x sd]; simplify_eq/=. by rewrite drop_0.
    + destruct rd as [|x rd]; simplify_eq/=. by rewrite drop_0.
  - rewrite seq_S, foldl_app, IH by lia. cbn [foldl Nat.add]. rewrite Nat.sub_1_r. cbn [Nat.pred].
    assert (∀ num d, S (S k) ≤ length d →
              <[S k := (prefix_sums num (S k) ++ drop (S k) d) !!! k + num !!! k]>
                (prefix_sums num (S k) ++ drop (S k) d)
              = prefix_sums num (S (S k)) ++ drop (S (S k)) d) as Hstep.
    { intros num d Hd.
      rewrite lookup_total_app_l by (rewrite length_prefix_sums; lia).
      rewrite lookup_total_prefix_sums, <- sum_list_take_S by lia.
      rewrite insert_app_r_alt by (rewrite length_prefix_sums; lia).
      rewrite length_prefix_sums, Nat.sub_diag, (prefix_sums_S num (S k)), <- app_assoc.
      f_equal. destruct (lookup_lt_is_Some_2 d (S k)) as [x Hx]; [lia|].
      by rewrite (drop_S d x (S k) Hx). }
    by rewrite !Hstep by lia.
Qed.

Lemma prefix_displacements_spec (num_send num_receive : list nat) (n : nat)
    (sd rd : list nat) :
  0 < n → length sd = n → length rd = n → sd !! 0 = Some 0 → rd !! 0 = Some 0 →
  prefix_displacements num_send num_receive n (sd, rd)
  = (prefix_sums num_send n, prefix_sums num_receive n).
Proof.
  intros Hn Hsd Hrd Hs0 Hr0. unfold prefix_displacements.
  rewrite prefix_displacements_steps by (done || lia).
  replace (S (n - 1)) with n by lia.
  by rewrite !drop_ge, !app_nil_r by lia.
Qed.

Lemma Reprocess_displacements_unfold (w : Writer) :
  Reprocess_displacements w
  = let displs := prefix_displacements (num_nodes_to_send w) (num_nodes_to_receive w) (size w)
                    (<[0 := 0]> (resize (size w) 0 (nodes_to_send_displacements w)),
                     <[0 := 0]> (resize (size w) 0 (nodes_to_receive_displacements w))) in
    let total := displs.1 !!! (size w - 1) + num_nodes_to_send w !!! (size w - 1) in
    let w' := set_nodes_to_send (resize (max 1 total) 0%N (nodes_to_send w))
                (set_nodes_to_receive_displacements displs.2
                   (set_nodes_to_send_displacements displs.1 w)) in
    if decide (sorted_halo_nodes w = [])
    then set_sorted_halo_nodes (resize 1 0%N (sorted_halo_nodes w)) w'
    else w'.
Proof. reflexivity. Qed.

Lemma Reprocess_displacements_frame (w : Writer) :
  rank (Reprocess_displacements w) = rank w
  ∧ size (Reprocess_displacements w) = size w
  ∧ dataSorter (Reprocess_displacements w) = dataSorter w
  ∧ fieldnames (Reprocess_displacements w) = fieldnames w.
Proof. rewrite Reprocess_displacements_unfold. cbv zeta. by case_decide. Qed.

(** The sentinel that keeps [&sorted_halo_nodes[0]] valid. *)
Lemma Reprocess_displacements_eq (w : Writer) :
  0 < size w →
  Reprocess_displacements w
  = set_sorted_halo_nodes
      (if decide (sorted_halo_nodes w = []) then [0%N] else sorted_halo_nodes w)
      (set_nodes_to_send
         (resize (max 1 (sum_list (take (size w) (num_nodes_to_send w)))) 0%N (nodes_to_send w))
         (set_nodes_to_receive_displacements (prefix_sums (num_nodes_to_receive w) (size w))
            (set_nodes_to_send_displacements (prefix_sums (num_nodes_to_send w) (size w)) w))).
Proof.
  intros Hsize. rewrite Reprocess_displacements_unfold.
  rewrite prefix_displacements_spec; [|done| | | |].
  2,3: by rewrite length_insert, length_resize.
  2,3: apply list_lookup_insert_eq; by rewrite length_resize.
  cbv zeta. cbn [fst snd].
  rewrite lookup_total_prefix_sums by lia.
  rewrite <- sum_list_take_S. replace (S (size w - 1)) with (size w) by lia.
  destruct w; cbn. case_decide as Hnil; [|done]. by rewrite Hnil.
Qed.

(** *** The packing of the data to send *)

Lemma list_inserts_snoc {A} (i : nat) (k l : list A) (x : A) :
  <[i + length k := x]> (list_inserts i k l) = list_inserts i (k ++ [x]) l.
Proof. rewrite list_inserts_app_l. simpl. f_equal. lia. Qed.

Lemma pack_node_loop (iRank iVar n : nat) (w : Writer) (index : nat) :
  foldl (pack_node iRank iVar) (w, index) (seq 0 n)
  = (set_data_to_send
       (list_inserts index
          ((λ iNode,
              GetData (dataSorter w) iVar
                (usub (nodes_to_send w !!! (nodes_to_send_displacements w !!! iRank + iNode))
                      (GetNodeBegin (dataSorter w) (rank w)))) <$> seq 0 n)
          (data_to_send w)) w,
     index + n).
Proof.
  induction n as [|n IH].
  - simpl. rewrite Nat.add_0_r. by destruct w.
  - rewrite seq_S, foldl_app, IH, fmap_app. cbn [foldl pack_node Nat.add].
    cbn [nodes_to_send nodes_to_send_displacements dataSorter rank data_to_send
         set_data_to_send fmap list_fmap].
    rewrite <- list_inserts_snoc, length_fmap, length_seq.
    f_equal. lia.
Qed.

Lemma pack_var_eq (iRank iVar : nat) (w : Writer) (index : nat) :
  pack_var iRank (w, index) iVar
  = (set_data_to_send (list_inserts index (packed_values w iRank iVar) (data_to_send w)) w,
     index + num_nodes_to_send w !!! iRank).
Proof. unfold pack_var. cbn [fst]. apply pack_node_loop. Qed.

Lemma length_packed_values (w : Writer) (iRank iVar : nat) :
  length (packed_values w iRank iVar) = num_nodes_to_send w !!! iRank.
Proof. unfold packed_values. by rewrite length_fmap, length_seq. Qed.

Lemma length_join_packed_values (w : Writer) (iRank m : nat) :
  length (mjoin (packed_values w iRank <$> seq 0 m)) = m * num_nodes_to_send w !!! iRank.
Proof.
  induction m as [|m IH]; [done|].
  rewrite seq_S, fmap_app, join_app, length_app, IH. simpl.
  rewrite app_nil_r, length_packed_values. lia.
Qed.

Lemma pack_var_loop (iRank m : nat) (w : Writer) (index : nat) :
  foldl (pack_var iRank) (w, index) (seq 0 m)
  = (set_data_to_send
       (list_inserts index (mjoin (packed_values w iRank <$> seq 0 m)) (data_to_send w)) w,
     index + m * num_nodes_to_send w !!! iRank).
Proof.
  induction m as [|m IH].
  - simpl. rewrite Nat.add_0_r. by destruct w.
  - rewrite seq_S, foldl_app, IH, fmap_app, join_app. cbn [foldl].
    rewrite pack_var_eq. cbn [data_to_send set_data_to_send num_nodes_to_send].
    rewrite list_inserts_app_l, length_join_packed_values.
    cbn [fmap list_fmap mjoin list_join]. rewrite app_nil_r.
    f_equal; [|lia]. by rewrite (Nat.add_comm index).
Qed.

Lemma pack_rank_eq (iRank : nat) (w : Writer) (index : nat) :
  pack_rank (w, index) iRank
  = (set_data_to_send (list_inserts index (packed_block w iRank) (data_to_send w))
       (set_values_to_receive_displacements
          (<[iRank := nodes_to_receive_displacements w !!! iRank * length (fieldnames w)]>
             (values_to_receive_displacements w))
          (set_num_values_to_receive
             (<[iRank := num_nodes_to_receive w !!! iRank * length (fieldnames w)]>
                (num_values_to_receive w))
             (set_values_to_send_displacements
                (<[iRank := nodes_to_send_displacements w !!! iRank * length (fieldnames w)]>
                   (values_to_send_displacements w))
                (set_num_values_to_send
                   (<[iRank := num_nodes_to_send w !!! iRank * length (fieldnames w)]>
                      (num_values_to_send w)) w)))),
     index + length (packed_block w iRank)).
Proof.
  unfold pack_rank. cbv zeta. rewrite pack_var_loop.
  unfold packed_block. rewrite length_join_packed_values. reflexivity.
Qed.

Lemma pack_rank_loop (n : nat) (w : Writer) :
  let nVar := length (fieldnames w) in
  foldl pack_rank (w, 0) (seq 0 n)
  = (set_data_to_send
       (list_inserts 0 (mjoin (packed_block w <$> seq 0 n)) (data_to_send w))
       (set_values_to_receive_displacements
          (foldl (λ l i, <[i := nodes_to_receive_displacements w !!! i * nVar]> l)
                 (values_to_receive_displacements w) (seq 0 n))
          (set_num_values_to_receive
             (foldl (λ l i, <[i := num_nodes_to_receive w !!! i * nVar]> l)
                    (num_values_to_receive w) (seq 0 n))
             (set_values_to_send_displacements
                (foldl (λ l i, <[i := nodes_to_send_displacements w !!! i * nVar]> l)
                       (values_to_send_displacements w) (seq 0 n))
                (set_num_values_to_send
                   (foldl (λ l i, <[i := num_nodes_to_send w !!! i * nVar]> l)
                          (num_values_to_send w) (seq 0 n)) w)))),
     length (mjoin (packed_block w <$> seq 0 n))).
Proof.
  intros nVar. induction n as [|n IH].
  - simpl. by destruct w.
  - rewrite seq_S, foldl_app, IH. cbn [foldl]. rewrite pack_rank_eq.
    rewrite ?seq_S, ?foldl_app, !fmap_app, !join_app, length_app. cbn [foldl Nat.add].
    cbn [fmap list_fmap mjoin list_join]. rewrite !app_nil_r.
    rewrite (list_inserts_app_l (mjoin (packed_block w <$> seq 0 n))), Nat.add_0_r.
    reflexivity.
Qed.

Lemma foldl_insert_all {A} (f : nat → A) (l : list A) (n : nat) :
  length l = n →
  foldl (λ l i, <[i := f i]> l) l (seq 0 n) = f <$> seq 0 n.
Proof. intros <-. by rewrite foldl_insert_seq, drop_all, app_nil_r. Qed.

Lemma Reprocess_pack_unfold (w : Writer) :
  let nVar := length (fieldnames w) in
  Reprocess_pack w
  = (foldl pack_rank
       (set_num_values_to_receive (resize (size w) 0 (num_values_to_receive w))
          (set_values_to_send_displacements
             (resize (size w) 0 (values_to_send_displacements w))
             (set_num_values_to_send (resize (size w) 0 (num_values_to_send w))
                (set_halo_var_data
                   (resize (max 1 (nVar * num_halo_nodes w)) zero (halo_var_data w))
                   (set_data_to_send
                      (resize (max 1 (total_num_nodes_to_send w * nVar)) zero (data_to_send w))
                      w)))), 0)
       (seq 0 (size w))).1.
Proof. reflexivity. Qed.

(** The members after the packing. *)
Lemma Reprocess_pack_eq (w : Writer) :
  length (values_to_receive_displacements w) = size w →
  let nVar := length (fieldnames w) in
  Reprocess_pack w
  = set_data_to_send
      (list_inserts 0 (packed_data w)
         (resize (max 1 (total_num_nodes_to_send w * nVar)) zero (data_to_send w)))
      (set_values_to_receive_displacements
         ((λ i, nodes_to_receive_displacements w !!! i * nVar) <$> seq 0 (size w))
         (set_num_values_to_receive
            ((λ i, num_nodes_to_receive w !!! i * nVar) <$> seq 0 (size w))
            (set_values_to_send_displacements
               ((λ i, nodes_to_send_displacements w !!! i * nVar) <$> seq 0 (size w))
               (set_num_values_to_send
                  ((λ i, num_nodes_to_send w !!! i * nVar) <$> seq 0 (size w))
                  (set_halo_var_data
                     (resize (max 1 (nVar * num_halo_nodes w)) zero (halo_var_data w)) w))))).
Proof.
  intros Hvrd nVar. rewrite Reprocess_pack_unfold. cbv zeta.
  set (W0 := set_num_values_to_receive _ _).
  rewrite pack_rank_loop. cbn [fst]. cbv zeta.
  rewrite !foldl_insert_all by (exact Hvrd || apply length_resize).
  reflexivity.
Qed.

(** *** A list sorted by a key is the sequence of its blocks of equal key *)

Lemma filter_all {A} (P : A → Prop) `{∀ x, Decision (P x)} (l : list A) :
  Forall P l → filter P l = l.
Proof.
  induction 1 as [|x l Hx _ IH]; [done|]. by rewrite filter_cons_True, IH.
Qed.

Lemma filter_none {A} (P : A → Prop) `{∀ x, Decision (P x)} (l : list A) :
  Forall (λ x, ¬ P x) l → filter P l = [].
Proof.
  induction 1 as [|x l Hx _ IH]; [done|]. by rewrite filter_cons_False, IH.
Qed.

Lemma key_sorted_split {A} (f : A → nat) (l : list A) (a : nat) :
  StronglySorted (λ x y, f x ≤ f y) l → Forall (λ x, a ≤ f x) l →
  l = filter (λ x, f x = a) l ++ filter (λ x, f x ≠ a) l.
Proof.
  induction 1 as [|x l Hs IH Hx]; intros Hge; [done|].
  apply Forall_cons in Hge as [Hxa Hge].
  destruct (decide (f x = a)) as [Heq|Hne].
  - rewrite filter_cons_True, (filter_cons_False (λ x, f x ≠ a)) by tauto.
    simpl. f_equal. by apply IH.
  - rewrite filter_cons_False, filter_cons_True by done.
    rewrite filter_none, filter_all; [done|..].
    + eapply Forall_impl; [exact Hx|]. simpl. lia.
    + eapply Forall_impl; [exact Hx|]. simpl. lia.
Qed.

Lemma StronglySorted_filter {A} (R : relation A) (P : A → Prop) `{∀ x, Decision (P x)}
    (l : list A) :
  StronglySorted R l → StronglySorted R (filter P l).
Proof.
  induction 1 as [|x l Hs IH Hx]; [constructor|].
  rewrite filter_cons. case_decide; [|done].
  constructor; [done|]. apply Forall_forall. intros y [_ Hy]%list_elem_of_filter.
  by eapply Forall_forall in Hx.
Qed.

Lemma key_sorted_blocks {A} (f : A → nat) (l : list A) (a n : nat) :
  StronglySorted (λ x y, f x ≤ f y) l → Forall (λ x, a ≤ f x < a + n) l →
  l = mjoin ((λ p, filter (λ x, f x = p) l) <$> seq a n).
Proof.
  revert a l. induction n as [|n IH]; intros a l Hs Hr.
  - destruct l as [|x l]; [done|]. apply Forall_cons in Hr as [? _]. lia.
  - cbn [seq fmap list_fmap mjoin list_join].
    rewrite (key_sorted_split f l a) at 1;
      [|done|eapply Forall_impl; [exact Hr|]; simpl; lia].
    f_equal.
    rewrite (IH (S a) (filter (λ x, f x ≠ a) l)).
    + f_equal. apply list_fmap_ext. intros i p Hp. apply lookup_seq in Hp as [-> _].
      rewrite list_filter_filter. apply list_filter_iff. intros x. lia.
    + by apply StronglySorted_filter.
    + apply Forall_forall. intros x [Hne Hx]%list_elem_of_filter.
      eapply Forall_forall in Hr; [|done]. simpl in Hr. lia.
Qed.

Lemma mono_key_sorted (f : N → nat) (l : list N) :
  StronglySorted N.lt l →
  (∀ x y, x ∈ l → y ∈ l → (x ≤ y)%N → f x ≤ f y) →
  StronglySorted (λ x y, f x ≤ f y) l.
Proof.
  induction 1 as [|x l Hs IH Hx]; intros Hmono; [constructor|].
  constructor.
  - apply IH. intros y z Hy Hz. apply Hmono; by right.
  - apply Forall_forall. intros y Hy. apply Hmono; [by left|by right|].
    eapply Forall_forall in Hx; [|done]. lia.
Qed.

(** *** The exchange of the counts *)

Lemma lookup_total_fmap_seq {A} `{Inhabited A} (f : nat → A) (n p : nat) :
  p < n → (f <$> seq 0 n) !!! p = f p.
Proof.
  intros Hp. apply list_lookup_total_correct. by rewrite list_lookup_fmap, lookup_seq_lt.
Qed.

Lemma lookup_total_fmap_Some {A B} `{Inhabited B} (f : A → B) (l : list A) (i : nat) (x : A) :
  l !! i = Some x → (f <$> l) !!! i = f x.
Proof. intros Hx. apply list_lookup_total_correct. by rewrite list_lookup_fmap, Hx. Qed.

Lemma foldl_ext_in {A B} (f g : A → B → A) (a : A) (l : list B) :
  (∀ a x, x ∈ l → f a x = g a x) → foldl f a l = foldl g a l.
Proof.
  revert a. induction l as [|x l IH]; intros a Hfg; simpl; [done|].
  rewrite Hfg by apply list_elem_of_here. apply IH. intros. apply Hfg.
  by apply list_elem_of_further.
Qed.

Lemma Alltoall_lookup {A} `{Inhabited A} (sendbuf recvbuf : list (list A)) (r : nat)
    (buf : list A) :
  recvbuf !! r = Some buf → length buf = length sendbuf →
  Alltoall sendbuf recvbuf !! r
  = Some ((λ s, (sendbuf !!! s) !!! r) <$> seq 0 (length sendbuf)).
Proof.
  intros Hr Hlen. unfold Alltoall. rewrite list_lookup_imap, Hr. simpl. f_equal.
  by apply (foldl_insert_all (λ s, (sendbuf !!! s) !!! r)).
Qed.

Lemma num_nodes_to_send_demand (w : Writer) :
  num_nodes_to_send (Reprocess_demand w) = resize (size w) 0 (num_nodes_to_send w).
Proof. reflexivity. Qed.

Lemma requested_lookup (ws : list Writer) (r p : nat) (w : Writer) :
  ws !! r = Some w → requested ws r p = requested_from w p.
Proof. intros Hr. unfold requested. by rewrite Hr. Qed.

Lemma after_demand_lookup (ws : list Writer) (p : nat) (w : Writer) :
  world_ok ws → Forall freshly_constructed ws → ws !! p = Some w →
  after_demand ws !! p
  = Some (set_num_nodes_to_send
            ((λ r, length (requested ws r p)) <$> seq 0 (length ws)) (Reprocess_demand w)).
Proof.
  intros Hok Hfresh Hp. unfold after_demand, exchange_demand.
  destruct (Hok p w Hp) as [Hrank Hsize].
  assert (p < length ws) as Hlt by (by eapply lookup_lt_Some).
  apply lookup_zip_with_Some. eexists _, _. split; [reflexivity|]. split.
  - rewrite (Alltoall_lookup _ _ p (num_nodes_to_send (Reprocess_demand w))).
    + rewrite !length_fmap. f_equal. apply list_fmap_ext. intros s ? Hs.
      apply lookup_seq in Hs as [-> Hs]. simpl.
      destruct (lookup_lt_is_Some_2 ws s Hs) as [ws_s Hws].
      rewrite <- list_fmap_compose, (lookup_total_fmap_Some _ _ _ _ Hws). unfold compose.
      rewrite num_nodes_to_receive_demand
        by (eapply Forall_forall; [exact Hfresh|by eapply list_elem_of_lookup_2]).
      rewrite (proj2 (Hok s ws_s Hws)), lookup_total_fmap_seq by done.
      by rewrite (requested_lookup _ _ _ _ Hws).
    + by rewrite <- list_fmap_compose, list_lookup_fmap, Hp.
    + by rewrite num_nodes_to_send_demand, length_resize, !length_fmap.
  - by rewrite list_lookup_fmap, Hp.
Qed.

(** *** The exchange of the requests *)

Lemma Reprocess_demand_eq (w : Writer) :
  freshly_constructed w →
  Reprocess_demand w
  = set_num_nodes_to_send (resize (size w) 0 (num_nodes_to_send w))
      (set_num_nodes_to_receive ((λ p, length (requested_from w p)) <$> seq 0 (size w))
         (set_num_halo_nodes (length (halo_set w))
            (set_sorted_halo_nodes (halo_set w)
               (set_halo_nodes (halo_set w)
                  (set_values_to_receive_displacements
                     (resize (size w) 0 (values_to_receive_displacements w)) w))))).
Proof.
  intros Hfresh. apply writer_ext; try reflexivity.
  writer_fields. by apply num_nodes_to_receive_demand.
Qed.

Lemma Alltoallv_lookup_blocks {A} (sendbuf : list (list A)) (sendcounts sdispls : list (list nat))
    (recvbuf : list (list A)) (recvcounts rdispls : list (list nat))
    (r : nat) (buf : list A) (m : nat → list A) :
  recvbuf !! r = Some buf →
  (∀ s, s < length sendbuf →
     take ((recvcounts !!! r) !!! s)
          (take ((sendcounts !!! s) !!! r) (drop ((sdispls !!! s) !!! r) (sendbuf !!! s)))
     = m s) →
  (∀ s, s < length sendbuf → (rdispls !!! r) !!! s = sum_list (length ∘ m <$> seq 0 s)) →
  sum_list (length ∘ m <$> seq 0 (length sendbuf)) ≤ length buf →
  Alltoallv sendbuf sendcounts sdispls recvbuf recvcounts rdispls !! r
  = Some (mjoin (m <$> seq 0 (length sendbuf))
          ++ drop (sum_list (length ∘ m <$> seq 0 (length sendbuf))) buf).
Proof.
  intros Hr Hm Hd Hlen. unfold Alltoallv. rewrite list_lookup_imap, Hr. simpl. f_equal.
  rewrite <- foldl_inserts_seq by done. apply foldl_ext_in.
  intros b s Hs. apply elem_of_seq in Hs as [_ Hs]. simpl in Hs.
  by rewrite Hm, Hd.
Qed.

Lemma take_fmap_seq {A} (f : nat → A) (n s : nat) :
  s ≤ n → take s (f <$> seq 0 n) = f <$> seq 0 s.
Proof. intros Hs. by rewrite <- fmap_take, take_seq, Nat.min_l. Qed.

Lemma sum_list_fmap_length_seq {A} (m : nat → list A) (n : nat) :
  sum_list (length ∘ m <$> seq 0 n) = sum_list ((λ r, length (m r)) <$> seq 0 n).
Proof. done. Qed.

(** What a rank sends to rank [p] in the exchange of the requests is the
    block of its halo nodes that rank [p] owns. *)
Lemma request_message (w : Writer) (n p : nat) :
  halo_grouped w n → p < n →
  let counts := (λ q, length (requested_from w q)) <$> seq 0 n in
  take (counts !!! p)
       (drop (prefix_sums counts n !!! p)
             (if decide (halo_set w = []) then [0%N] else halo_set w))
  = requested_from w p.
Proof.
  intros Hg Hp counts.
  assert ((if decide (halo_set w = []) then [0%N] else halo_set w)
          = mjoin (requested_from w <$> seq 0 n)
            ++ (if decide (halo_set w = []) then [0%N] else [])) as ->.
  { case_decide as Hnil; [|by rewrite app_nil_r]. by rewrite <- Hg, Hnil. }
  unfold counts. rewrite lookup_total_prefix_sums, lookup_total_fmap_seq by done.
  rewrite (list_fmap_compose (requested_from w) length), <- fmap_take.
  apply take_drop_join. by rewrite list_lookup_fmap, lookup_seq_lt.
Qed.

(** The members the exchange of the requests reads, on a rank that has its
    counts [num_send] of the nodes to send. *)
Lemma displaced_fields (w : Writer) (num_send : list nat) :
  freshly_constructed w → 0 < size w →
  let counts := (λ q, length (requested_from w q)) <$> seq 0 (size w) in
  let w2 := Reprocess_displacements (set_num_nodes_to_send num_send (Reprocess_demand w)) in
  sorted_halo_nodes w2 = (if decide (halo_set w = []) then [0%N] else halo_set w)
  ∧ num_nodes_to_receive w2 = counts
  ∧ nodes_to_receive_displacements w2 = prefix_sums counts (size w)
  ∧ num_nodes_to_send w2 = num_send
  ∧ nodes_to_send_displacements w2 = prefix_sums num_send (size w)
  ∧ nodes_to_send w2
    = resize (max 1 (sum_list (take (size w) num_send))) 0%N (nodes_to_send w).
Proof.
  intros Hfresh Hsize counts w2. subst w2.
  rewrite Reprocess_displacements_eq by (by rewrite Reprocess_demand_eq).
  rewrite Reprocess_demand_eq by done. by split_and!.
Qed.

Lemma sum_list_counts_to_send (ws : list Writer) (p s : nat) :
  s ≤ length ws →
  sum_list (take s (counts_to_send ws p))
  = sum_list (length ∘ (λ r, requested ws r p) <$> seq 0 s).
Proof. intros Hs. unfold counts_to_send. by rewrite take_fmap_seq. Qed.

Lemma after_requests_lookup (ws : list Writer) (p : nat) (w : Writer) :
  world_ok ws → Forall freshly_constructed ws →
  Forall (λ w, halo_grouped w (length ws)) ws →
  ws !! p = Some w →
  after_requests ws !! p
  = Some (set_nodes_to_send (requests_received ws p (nodes_to_send w))
            (Reprocess_displacements
               (set_num_nodes_to_send (counts_to_send ws p) (Reprocess_demand w)))).
Proof.
  intros Hok Hfresh Hgrouped Hp. unfold after_requests, exchange_requests.
  assert (p < length ws) as Hlt by (by eapply lookup_lt_Some).
  assert (∀ s ws_s, ws !! s = Some ws_s →
            (Reprocess_displacements <$> after_demand ws) !! s
            = Some (Reprocess_displacements
                      (set_num_nodes_to_send (counts_to_send ws s) (Reprocess_demand ws_s))))
    as Hstage.
  { intros s ws_s Hs. by rewrite list_lookup_fmap, (after_demand_lookup ws s ws_s). }
  assert (length (Reprocess_displacements <$> after_demand ws) = length ws) as Hlen.
  { rewrite length_fmap. unfold after_demand, exchange_demand.
    rewrite length_zip_with_r_eq; rewrite ?length_fmap; [done|].
    unfold Alltoall. by rewrite length_imap, !length_fmap. }
  assert (∀ s ws_s, ws !! s = Some ws_s → freshly_constructed ws_s ∧ 0 < size ws_s
                                        ∧ size ws_s = length ws ∧ halo_grouped ws_s (length ws))
    as Hrank.
  { intros s ws_s Hs. destruct (Hok s ws_s Hs) as [_ Hsz].
    split_and!; [|lia|done|].
    - eapply Forall_forall; [exact Hfresh|by eapply list_elem_of_lookup_2].
    - eapply (Forall_forall (λ w, halo_grouped w (length ws))); [exact Hgrouped|].
      by eapply list_elem_of_lookup_2. }
  destruct (Hrank p w Hp) as (Hfp & Hsp & Hnp & _).
  destruct (displaced_fields w (counts_to_send ws p) Hfp Hsp)
    as (_ & _ & _ & Hnns & Hnsd & Hnts).
  apply lookup_zip_with_Some. eexists _, _. split; [reflexivity|]. split; [|by apply Hstage].
  rewrite (Alltoallv_lookup_blocks _ _ _ _ _ _ p
             (nodes_to_send
                (Reprocess_displacements
                   (set_num_nodes_to_send (counts_to_send ws p) (Reprocess_demand w))))
             (λ s, requested ws s p)).
  - rewrite length_fmap, Hlen, Hnts, Hnp. unfold requests_received.
    rewrite <- (sum_list_counts_to_send ws p (length ws)) by done.
    by rewrite (take_ge (counts_to_send ws p))
      by (unfold counts_to_send; rewrite length_fmap, length_seq; lia).
  - by rewrite list_lookup_fmap, (Hstage p w Hp).
  - intros s. rewrite length_fmap, Hlen. intros Hs.
    destruct (lookup_lt_is_Some_2 ws s Hs) as [ws_s Hws].
    destruct (Hrank s ws_s Hws) as (Hfs & Hss & Hns & Hgs).
    destruct (displaced_fields ws_s (counts_to_send ws s) Hfs Hss)
      as (HS & Hnnr & Hnrd & _ & _ & _).
    rewrite (lookup_total_fmap_Some _ _ _ _ (Hstage p w Hp)), Hnns.
    rewrite !(lookup_total_fmap_Some _ _ _ _ (Hstage s ws_s Hws)), HS, Hnnr, Hnrd, Hns.
    rewrite request_message by done.
    unfold counts_to_send. rewrite lookup_total_fmap_seq by done.
    rewrite (requested_lookup _ _ _ _ Hws). by rewrite take_ge.
  - intros s. rewrite length_fmap, Hlen. intros Hs.
    rewrite (lookup_total_fmap_Some _ _ _ _ (Hstage p w Hp)), Hnsd, Hnp.
    rewrite lookup_total_prefix_sums by done. apply sum_list_counts_to_send. lia.
  - rewrite length_fmap, Hlen, Hnts, length_resize, Hnp.
    rewrite <- (sum_list_counts_to_send ws p (length ws)) by done. lia.
Qed.

(** *** The exchange of the data *)

Lemma fmap_lookup_take_drop {A B} `{Inhabited A} (G : A → B) (l : list A) (base c : nat) :
  length (take c (drop base l)) = c →
  (λ i, G (l !!! (base + i))) <$> seq 0 c = G <$> take c (drop base l).
Proof.
  intros Hlen. rewrite <- (fmap_lookup_seq (take c (drop base l))) at 1.
  rewrite <- list_fmap_compose, Hlen.
  apply list_fmap_ext. intros i ? Hi. apply lookup_seq in Hi as [-> Hi]. simpl.
  by rewrite lookup_total_take_lt, lookup_total_drop by done.
Qed.

(** The writer of a rank that has its counts [num_send] of the nodes to send
    and the requests [requests], member by member. *)
Lemma requests_stage_eq (w : Writer) (num_send : list nat) (requests : list N) :
  freshly_constructed w → 0 < size w →
  let counts := (λ q, length (requested_from w q)) <$> seq 0 (size w) in
  set_nodes_to_send requests
    (Reprocess_displacements (set_num_nodes_to_send num_send (Reprocess_demand w)))
  = set_nodes_to_send requests
      (set_sorted_halo_nodes
         (if decide (halo_set w = []) then [0%N] else halo_set w)
         (set_nodes_to_receive_displacements (prefix_sums counts (size w))
            (set_nodes_to_send_displacements (prefix_sums num_send (size w))
               (set_num_nodes_to_send num_send
                  (set_num_nodes_to_receive counts
                     (set_num_halo_nodes (length (halo_set w))
                        (set_halo_nodes (halo_set w)
                           (set_values_to_receive_displacements
                              (resize (size w) 0 (values_to_receive_displacements w))
                              w)))))))).
Proof.
  intros Hfresh Hsize counts.
  rewrite Reprocess_displacements_eq by (by rewrite Reprocess_demand_eq).
  by rewrite Reprocess_demand_eq by done.
Qed.

(** The members the exchange of the data reads, on such a rank. *)
Lemma packed_fields (w : Writer) (num_send : list nat) (requests : list N) :
  freshly_constructed w → 0 < size w →
  let nVar := length (fieldnames w) in
  let counts := (λ q, length (requested_from w q)) <$> seq 0 (size w) in
  let w3 := set_nodes_to_send requests
              (Reprocess_displacements
                 (set_num_nodes_to_send num_send (Reprocess_demand w))) in
  let w4 := Reprocess_pack w3 in
  data_to_send w4
  = list_inserts 0 (packed_data w3)
      (resize (max 1 (sum_list (take (size w) num_send) * nVar)) zero (data_to_send w))
  ∧ num_values_to_send w4 = (λ i, num_send !!! i * nVar) <$> seq 0 (size w)
  ∧ values_to_send_displacements w4
    = (λ i, prefix_sums num_send (size w) !!! i * nVar) <$> seq 0 (size w)
  ∧ num_values_to_receive w4 = (λ i, counts !!! i * nVar) <$> seq 0 (size w)
  ∧ values_to_receive_displacements w4
    = (λ i, prefix_sums counts (size w) !!! i * nVar) <$> seq 0 (size w)
  ∧ halo_var_data w4
    = resize (max 1 (nVar * length (halo_set w))) zero (halo_var_data w)
  ∧ sorted_halo_nodes w4 = (if decide (halo_set w = []) then [0%N] else halo_set w)
  ∧ num_nodes_to_receive w4 = counts
  ∧ rank w4 = rank w ∧ size w4 = size w ∧ dataSorter w4 = dataSorter w
  ∧ fieldnames w4 = fieldnames w ∧ fileName w4 = fileName w
  ∧ num_halo_nodes w4 = length (halo_set w).
Proof.
  intros Hfresh Hsize nVar counts w3 w4.
  pose proof (requests_stage_eq w num_send requests Hfresh Hsize) as Hw3.
  cbv zeta in Hw3. fold counts w3 in Hw3.
  assert (total_num_nodes_to_send w3 = sum_list (take (size w) num_send)) as Htotal.
  { rewrite Hw3.
    change (total_num_nodes_to_send _)
      with (prefix_sums num_send (size w) !!! (size w - 1) + num_send !!! (size w - 1)).
    rewrite lookup_total_prefix_sums, <- sum_list_take_S by lia.
    by replace (S (size w - 1)) with (size w) by lia. }
  subst w4. rewrite Reprocess_pack_eq by (rewrite Hw3; apply length_resize).
  cbv zeta. rewrite Htotal. by rewrite Hw3.
Qed.

Lemma requests_received_block (ws : list Writer) (p r : nat) (old : list N) :
  r < length ws →
  take (counts_to_send ws p !!! r)
       (drop (prefix_sums (counts_to_send ws p) (length ws) !!! r)
             (requests_received ws p old))
  = requested ws r p.
Proof.
  intros Hr. unfold requests_received, counts_to_send at 1 2.
  rewrite lookup_total_prefix_sums, lookup_total_fmap_seq by done.
  rewrite (list_fmap_compose (λ r, requested ws r p) length), <- fmap_take.
  apply take_drop_join. by rewrite list_lookup_fmap, lookup_seq_lt.
Qed.

Lemma displaced_frame (w : Writer) (num_send : list nat) :
  let w2 := Reprocess_displacements (set_num_nodes_to_send num_send (Reprocess_demand w)) in
  rank w2 = rank w ∧ size w2 = size w ∧ dataSorter w2 = dataSorter w
  ∧ fieldnames w2 = fieldnames w.
Proof.
  intros w2. subst w2.
  destruct (Reprocess_displacements_frame
              (set_num_nodes_to_send num_send (Reprocess_demand w))) as (-> & -> & -> & ->).
  done.
Qed.

(** The payload a rank packs for rank [r] is its answer to the requests of
    rank [r]. *)
Lemma packed_block_answer (ws : list Writer) (p r : nat) (w : Writer) :
  world_ok ws → freshly_constructed w → ws !! p = Some w → r < length ws →
  packed_block
    (set_nodes_to_send (requests_received ws p (nodes_to_send w))
       (Reprocess_displacements
          (set_num_nodes_to_send (counts_to_send ws p) (Reprocess_demand w)))) r
  = answer ws (length (fieldnames w)) r p.
Proof.
  intros Hok Hfresh Hp Hr. destruct (Hok p w Hp) as [Hrank Hsize].
  destruct (displaced_fields w (counts_to_send ws p) Hfresh ltac:(lia))
    as (_ & _ & _ & Hnns & Hnsd & _).
  destruct (displaced_frame w (counts_to_send ws p)) as (Hrk & _ & Hds & Hfn).
  pose proof (requests_received_block ws p r (nodes_to_send w) Hr) as Hblock.
  rewrite <- Hsize in Hblock at 1.
  revert Hnns Hnsd Hrk Hds Hfn Hblock.
  generalize (Reprocess_displacements
                (set_num_nodes_to_send (counts_to_send ws p) (Reprocess_demand w))).
  generalize (requests_received ws p (nodes_to_send w)).
  intros requests w2 Hnns Hnsd Hrk Hds Hfn Hblock.
  unfold packed_block, answer. rewrite Hp. cbn [from_option fieldnames set_nodes_to_send].
  rewrite Hfn. f_equal. apply list_fmap_ext. intros ? iVar _.
  unfold packed_values, answer_values.
  cbn [dataSorter rank nodes_to_send nodes_to_send_displacements num_nodes_to_send
       set_nodes_to_send].
  rewrite Hrk, Hds, Hnns, Hnsd.
  rewrite (fmap_lookup_take_drop
             (λ g, GetData (dataSorter w) iVar (usub g (GetNodeBegin (dataSorter w) (rank w))))
             requests); [by rewrite Hblock|].
  rewrite Hblock. unfold counts_to_send. by rewrite lookup_total_fmap_seq.
Qed.

Lemma length_answer_values (wp : Writer) (iVar : nat) (req : list N) :
  length (answer_values wp iVar req) = length req.
Proof. unfold answer_values. by rewrite length_fmap. Qed.

Lemma length_answer (ws : list Writer) (nVar r p : nat) :
  p < length ws → length (answer ws nVar r p) = length (requested ws r p) * nVar.
Proof.
  intros Hp. destruct (lookup_lt_is_Some_2 ws p Hp) as [wp Hwp].
  unfold answer. rewrite Hwp. simpl. rewrite length_join, <- list_fmap_compose.
  rewrite (sum_list_fmap_same (length (requested ws r p))), length_seq; [lia|].
  apply Forall_forall. intros iVar _. simpl. apply length_answer_values.
Qed.

Lemma sum_list_fmap_mul {A} (f : A → nat) (c : nat) (l : list A) :
  sum_list ((λ x, f x * c) <$> l) = sum_list (f <$> l) * c.
Proof. induction l as [|x l IH]; [done|]. csimpl. rewrite IH. lia. Qed.

Lemma sum_length_answer (ws : list Writer) (nVar r k : nat) :
  k ≤ length ws →
  sum_list (length ∘ (λ p, answer ws nVar r p) <$> seq 0 k)
  = sum_list ((λ p, length (requested ws r p)) <$> seq 0 k) * nVar.
Proof.
  intros Hk. rewrite <- sum_list_fmap_mul. f_equal. apply list_fmap_ext.
  intros ? p Hp. apply lookup_seq in Hp as [-> Hp]. simpl. apply length_answer. lia.
Qed.

Lemma sum_length_answer_to (ws : list Writer) (nVar p k : nat) :
  p < length ws →
  sum_list (length <$> ((λ r, answer ws nVar r p) <$> seq 0 k))
  = sum_list ((λ r, length (requested ws r p)) <$> seq 0 k) * nVar.
Proof.
  intros Hp. rewrite <- sum_list_fmap_mul, <- list_fmap_compose. f_equal.
  apply list_fmap_ext. intros ? r _. simpl. by apply length_answer.
Qed.

Lemma length_halo_set_grouped (w : Writer) (n : nat) :
  halo_grouped w n →
  length (halo_set w) = sum_list ((λ p, length (requested_from w p)) <$> seq 0 n).
Proof. intros Hg. rewrite Hg at 1. by rewrite length_join, <- list_fmap_compose. Qed.

Lemma after_requests_length (ws : list Writer) : length (after_requests ws) = length ws.
Proof.
  unfold after_requests, exchange_requests, after_demand, exchange_demand.
  rewrite length_zip_with_r_eq; rewrite !length_fmap.
  - rewrite length_zip_with_r_eq; rewrite ?length_fmap; [done|].
    unfold Alltoall. by rewrite length_imap, !length_fmap.
  - unfold Alltoallv. by rewrite length_imap, !length_fmap.
Qed.



Lemma packed_data_answer (ws : list Writer) (p : nat) (w : Writer) :
  world_ok ws → freshly_constructed w → ws !! p = Some w →
  packed_data
    (set_nodes_to_send (requests_received ws p (nodes_to_send w))
       (Reprocess_displacements
          (set_num_nodes_to_send (counts_to_send ws p) (Reprocess_demand w))))
  = mjoin ((λ r, answer ws (length (fieldnames w)) r p) <$> seq 0 (length ws)).
Proof.
  intros Hok Hfresh Hp. destruct (Hok p w Hp) as [Hrank Hsize].
  destruct (displaced_frame w (counts_to_send ws p)) as (_ & Hsz & _ & _).
  pose proof (λ r, packed_block_answer ws p r w Hok Hfresh Hp) as Hblocks.
  revert Hsz Hblocks.
  generalize (Reprocess_displacements
                (set_num_nodes_to_send (counts_to_send ws p) (Reprocess_demand w))).
  generalize (requests_received ws p (nodes_to_send w)).
  intros requests w2 Hsz Hblocks.
  unfold packed_data. cbn [size set_nodes_to_send]. rewrite Hsz, Hsize. f_equal.
  apply list_fmap_ext. intros ? r Hr. apply lookup_seq in Hr as [-> Hr]. by apply Hblocks.
Qed.

(** The writer of rank [r] when [ReprocessElementConnectivity] returns. *)
Lemma Reprocess_lookup (ws : list Writer) (nVar r : nat) (w : Writer) :
  world_ok ws → Forall freshly_constructed ws →
  Forall (λ w, halo_grouped w (length ws)) ws →
  Forall (λ w, length (fieldnames w) = nVar) ws →
  ws !! r = Some w →
  ReprocessElementConnectivity ws !! r
  = Some (set_halo_var_data (halo_data_received ws nVar r w)
            (Reprocess_pack
               (set_nodes_to_send (requests_received ws r (nodes_to_send w))
                  (Reprocess_displacements
                     (set_num_nodes_to_send (counts_to_send ws r) (Reprocess_demand w)))))).
Proof.
  intros Hok Hfresh Hgrouped HnVar Hr.
  change (ReprocessElementConnectivity ws)
    with (exchange_data (Reprocess_pack <$> after_requests ws)).
  unfold exchange_data.
  assert (r < length ws) as Hlt by (by eapply lookup_lt_Some).
  set (stage s ws_s :=
         Reprocess_pack
           (set_nodes_to_send (requests_received ws s (nodes_to_send ws_s))
              (Reprocess_displacements
                 (set_num_nodes_to_send (counts_to_send ws s) (Reprocess_demand ws_s))))).
  assert (∀ s ws_s, ws !! s = Some ws_s →
            (Reprocess_pack <$> after_requests ws) !! s = Some (stage s ws_s)) as Hstage.
  { intros s ws_s Hs. by rewrite list_lookup_fmap, (after_requests_lookup ws s ws_s). }
  assert (length (Reprocess_pack <$> after_requests ws) = length ws) as Hlen.
  { by rewrite length_fmap, after_requests_length. }
  assert (∀ s ws_s, ws !! s = Some ws_s →
            freshly_constructed ws_s ∧ 0 < size ws_s ∧ size ws_s = length ws
            ∧ halo_grouped ws_s (length ws) ∧ length (fieldnames ws_s) = nVar) as Hrank.
  { intros s ws_s Hs. destruct (Hok s ws_s Hs) as [_ Hsz].
    assert (ws_s ∈ ws) as Hin by (by eapply list_elem_of_lookup_2).
    split_and!; [|lia|done| |].
    - by eapply Forall_forall in Hfresh.
    - by eapply (Forall_forall (λ w, halo_grouped w (length ws))) in Hgrouped.
    - by eapply (Forall_forall (λ w, length (fieldnames w) = nVar)) in HnVar. }
  destruct (Hrank r w Hr) as (Hfr & Hsr & Hnr & Hgr & Hvr).
  destruct (packed_fields w (counts_to_send ws r) (requests_received ws r (nodes_to_send w))
              Hfr Hsr) as (_ & _ & _ & Hnvr & Hvrd & Hhvd & _).
  fold (stage r w) in Hnvr, Hvrd, Hhvd.
  rewrite ?Hvr, ?Hnr in Hnvr. rewrite ?Hvr, ?Hnr in Hvrd. rewrite ?Hvr, ?Hnr in Hhvd.
  assert (sum_list (length ∘ (λ p, answer ws nVar r p) <$> seq 0 (length ws))
          = nVar * length (halo_set w)) as Hsum.
  { rewrite sum_length_answer by done.
    rewrite (length_halo_set_grouped w (length ws)) by done.
    rewrite Nat.mul_comm. f_equal. f_equal. apply list_fmap_ext. intros ? p _. simpl.
    by rewrite (requested_lookup _ _ _ _ Hr). }
  apply lookup_zip_with_Some. eexists _, _. split; [reflexivity|]. split; [|by apply Hstage].
  rewrite (Alltoallv_lookup_blocks _ _ _ _ _ _ r (halo_var_data (stage r w))
             (λ p, answer ws nVar r p)).
  - rewrite length_fmap, Hlen, Hhvd, Hsum. reflexivity.
  - by rewrite list_lookup_fmap, (Hstage r w Hr).
  - intros p. rewrite length_fmap, Hlen. intros Hp.
    destruct (lookup_lt_is_Some_2 ws p Hp) as [ws_p Hws].
    destruct (Hrank p ws_p Hws) as (Hfp & Hsp & Hnp & Hgp & Hvp).
    destruct (packed_fields ws_p (counts_to_send ws p)
                (requests_received ws p (nodes_to_send ws_p)) Hfp Hsp)
      as (Hdata & Hnvs & Hvsd & _).
    fold (stage p ws_p) in Hdata, Hnvs, Hvsd.
    rewrite ?Hvp, ?Hnp in Hdata. rewrite ?Hvp, ?Hnp in Hnvs. rewrite ?Hvp, ?Hnp in Hvsd.
    rewrite (lookup_total_fmap_Some _ _ _ _ (Hstage r w Hr)), Hnvr.
    rewrite !(lookup_total_fmap_Some _ _ _ _ (Hstage p ws_p Hws)), Hdata, Hnvs, Hvsd.
    rewrite !lookup_total_fmap_seq, lookup_total_prefix_sums by done.
    unfold counts_to_send at 1. rewrite lookup_total_fmap_seq by done.
    rewrite <- (requested_lookup _ _ _ _ Hr), <- length_answer by done.
    rewrite take_take, Nat.min_id.
    rewrite (packed_data_answer ws p ws_p Hok Hfp Hws), Hvp.
    rewrite list_inserts_0.
    2:{ rewrite length_join, sum_length_answer_to, length_resize by done.
        unfold counts_to_send. rewrite take_ge by (rewrite length_fmap, length_seq; lia). lia. }
    unfold counts_to_send. rewrite take_fmap_seq by lia.
    rewrite <- sum_length_answer_to by done.
    rewrite <- (take_fmap_seq (λ r, answer ws nVar r p) (length ws) r) by lia.
    apply take_drop_join. by rewrite list_lookup_fmap, lookup_seq_lt.
  - intros p. rewrite length_fmap, Hlen. intros Hp.
    rewrite (lookup_total_fmap_Some _ _ _ _ (Hstage r w Hr)), Hvrd.
    rewrite lookup_total_fmap_seq, lookup_total_prefix_sums by done.
    rewrite take_fmap_seq, sum_length_answer by lia. f_equal. f_equal.
    apply list_fmap_ext. intros ? q _. cbn beta. by rewrite (requested_lookup _ _ _ _ Hr).
  - rewrite length_fmap, Hlen, Hhvd, length_resize, Hsum. lia.
Qed.

(** *** The lookup of a halo value *)

Lemma lower_bound_index (s rest : list N) (g : N) (i : nat) :
  StronglySorted N.lt s → s !! i = Some g → lower_bound (s ++ rest) g = i.
Proof.
  intros Hs. revert i. induction Hs as [|y s Hs IH Hy]; intros i Hi; [done|].
  destruct i as [|i]; simpl in *.
  - simplify_eq. by rewrite N.ltb_irrefl.
  - assert (y < g)%N as Hlt.
    { eapply Forall_forall in Hy; [exact Hy|]. by eapply list_elem_of_lookup_2. }
    apply N.ltb_lt in Hlt. rewrite Hlt. f_equal. by apply IH.
Qed.

Lemma lower_bound_past (s : list N) (g : N) :
  Forall (λ y, (y < g)%N) s → lower_bound s g = length s.
Proof.
  induction 1 as [|y s Hy _ IH]; [done|]. simpl.
  apply N.ltb_lt in Hy. rewrite Hy. by f_equal.
Qed.

Lemma halo_inner_seq (w : Writer) (offset iRank iVar a c id : nat) :
  halo_inner w offset iRank iVar (seq a c) id
  = if decide (id ≤ offset < id + c)
    then inl (halo_var_data w
                !!! (values_to_receive_displacements w !!! iRank
                     + num_nodes_to_receive w !!! iRank * iVar + (a + (offset - id))))
    else inr (id + c).
Proof.
  revert a id. induction c as [|c IH]; intros a id; simpl.
  - rewrite decide_False by lia. f_equal. lia.
  - destruct (decide (id = offset)) as [->|Hne].
    + rewrite decide_True by lia. do 3 f_equal. lia.
    + rewrite IH. destruct (decide (S id ≤ offset < S id + c)).
      * rewrite decide_True by lia. do 3 f_equal. lia.
      * rewrite decide_False by lia. f_equal. lia.
Qed.

(** The two loops of [GetHaloNodeValue] stop at the rank whose block of
    [num_nodes_to_receive] holds position [offset]. *)
Lemma halo_outer_block (w : Writer) (offset iVar k m p i : nat) :
  k ≤ p < k + m → i < num_nodes_to_receive w !!! p →
  offset = sum_list (take p (num_nodes_to_receive w)) + i →
  halo_outer w offset iVar (seq k m) (sum_list (take k (num_nodes_to_receive w)))
  = Ok (halo_var_data w
          !!! (values_to_receive_displacements w !!! p
               + num_nodes_to_receive w !!! p * iVar + i)).
Proof.
  intros Hp Hi ->. revert k Hp. induction m as [|m IH]; intros k Hp; [lia|].
  cbn [seq halo_outer]. rewrite halo_inner_seq.
  destruct (decide (k = p)) as [->|Hne].
  - rewrite decide_True by lia. do 3 f_equal. lia.
  - assert (sum_list (take (S k) (num_nodes_to_receive w))
            ≤ sum_list (take p (num_nodes_to_receive w))) as Hmono.
    { replace p with (S k + (p - S k)) by lia.
      rewrite <- take_take_drop, sum_list_with_app. lia. }
    rewrite sum_list_take_S in Hmono. rewrite decide_False by lia.
    rewrite <- sum_list_take_S. apply IH. lia.
Qed.

(** With no node to receive, every lookup ends in the error. *)
Lemma halo_outer_past (w : Writer) (offset iVar k m : nat) :
  sum_list (take (k + m) (num_nodes_to_receive w)) ≤ offset →
  halo_outer w offset iVar (seq k m) (sum_list (take k (num_nodes_to_receive w)))
  = Fatal "STL File-Writer: Halo node not found.".
Proof.
  revert k. induction m as [|m IH]; intros k Hge; [done|].
  cbn [seq halo_outer]. rewrite halo_inner_seq.
  replace (k + S m) with (S k + m) in Hge by lia.
  assert (sum_list (take (S k) (num_nodes_to_receive w))
          ≤ sum_list (take (S k + m) (num_nodes_to_receive w))) as Hmono.
  { rewrite <- take_take_drop, sum_list_with_app. lia. }
  rewrite sum_list_take_S in Hmono. rewrite decide_False by lia.
  rewrite <- sum_list_take_S. by apply IH.
Qed.

Lemma lookup_join_block {A} (bs : list (list A)) (rest b : list A) (k j : nat) :
  bs !! k = Some b → j < length b →
  (mjoin bs ++ rest) !! (sum_list (length <$> take k bs) + j) = b !! j.
Proof.
  intros Hk Hj. pose proof (take_drop_join bs rest b k Hk) as Hb.
  rewrite <- lookup_drop, <- (lookup_take_lt _ (length b)) by done. by rewrite Hb.
Qed.

Lemma Reprocess_resolved (ws : list Writer) (nVar r : nat) (w : Writer) :
  world_ok ws → Forall freshly_constructed ws →
  Forall (λ w, halo_grouped w (length ws)) ws →
  Forall (λ w, length (fieldnames w) = nVar) ws →
  ws !! r = Some w →
  ∃ w', ReprocessElementConnectivity ws !! r = Some w' ∧ halo_resolved ws nVar r w w'.
Proof.
  intros Hok Hfresh Hgrouped HnVar Hr. eexists. split; [by apply Reprocess_lookup|].
  destruct (Hok r w Hr) as [_ Hsize].
  assert (freshly_constructed w) as Hfr.
  { eapply Forall_forall; [exact Hfresh|by eapply list_elem_of_lookup_2]. }
  assert (length (fieldnames w) = nVar) as Hv.
  { eapply (Forall_forall (λ w, length (fieldnames w) = nVar)); [exact HnVar|].
    by eapply list_elem_of_lookup_2. }
  assert (0 < size w) as Hpos by (apply lookup_lt_Some in Hr; lia).
  destruct (packed_fields w (counts_to_send ws r) (requests_received ws r (nodes_to_send w))
              Hfr Hpos)
    as (_ & _ & _ & _ & Hvrd & _ & HS & Hnnr & Hrk & Hsz & Hds & Hfn & Hfile & Hnum).
  rewrite Hv, Hsize in Hvrd. rewrite Hsize in Hnnr.
  revert Hvrd HS Hnnr Hrk Hsz Hds Hfn Hfile Hnum.
  generalize (Reprocess_pack
                (set_nodes_to_send (requests_received ws r (nodes_to_send w))
                   (Reprocess_displacements
                      (set_num_nodes_to_send (counts_to_send ws r) (Reprocess_demand w))))).
  intros w4 Hvrd HS Hnnr Hrk Hsz Hds Hfn Hfile Hnum.
  unfold halo_resolved. cbv zeta. by split_and!.
Qed.

Lemma answer_lookup (ws : list Writer) (nVar r p iVar i : nat) (wp : Writer) (g : N) :
  ws !! p = Some wp → iVar < nVar → requested ws r p !! i = Some g →
  answer ws nVar r p !! (length (requested ws r p) * iVar + i)
  = Some (GetData (dataSorter wp) iVar (usub g (GetNodeBegin (dataSorter wp) (rank wp)))).
Proof.
  intros Hp HiVar Hi. unfold answer. rewrite Hp. cbn [from_option].
  set (subs := (λ iVar, answer_values wp iVar (requested ws r p)) <$> seq 0 nVar).
  assert (length (requested ws r p) * iVar = sum_list (length <$> take iVar subs)) as ->.
  { rewrite (sum_list_fmap_same (length (requested ws r p))).
    - rewrite length_take. unfold subs. rewrite length_fmap, length_seq. lia.
    - apply Forall_take, Forall_fmap, Forall_forall. intros v _. apply length_answer_values. }
  rewrite <- (app_nil_r (mjoin subs)).
  rewrite (lookup_join_block subs [] (answer_values wp iVar (requested ws r p)) iVar).
  - unfold answer_values. by rewrite list_lookup_fmap, Hi.
  - unfold subs. by rewrite list_lookup_fmap, lookup_seq_lt.
  - rewrite length_answer_values. by eapply lookup_lt_Some.
Qed.

(** After the exchange, the lookup of a halo node of the rank gives the value
    that the owner of the node holds for it. *)
Lemma GetHaloNodeValue_resolved (ws : list Writer) (nVar r : nat) (w w' : Writer)
    (g : N) (iVar : nat) :
  world_ok ws → halo_grouped w (length ws) → ws !! r = Some w →
  halo_resolved ws nVar r w w' → g ∈ halo_set w → iVar < nVar →
  ∃ wp, ws !! FindProcessor (dataSorter w) g = Some wp
        ∧ GetHaloNodeValue w' g iVar
          = Ok (GetData (dataSorter wp) iVar
                  (usub g (GetNodeBegin (dataSorter wp) (rank wp)))).
Proof.
  intros Hok Hg Hr Hres Hin HiVar.
  destruct Hres as (_ & Hsz & _ & _ & _ & HS & _ & Hnnr & Hvrd & Hhvd).
  destruct (Hok r w Hr) as [_ Hsize].
  apply list_elem_of_lookup in Hin as [offset Hoff].
  pose proof Hoff as Hoff'. rewrite Hg in Hoff'.
  apply join_lookup_Some in Hoff' as (p & l & i & Hl & Hi & ->).
  apply list_lookup_fmap_Some in Hl as (? & -> & Hp).
  apply lookup_seq in Hp as [-> Hp]. cbn [Nat.add] in *.
  assert (FindProcessor (dataSorter w) g = p) as Hown.
  { apply list_elem_of_lookup_2 in Hi. unfold requested_from in Hi.
    by apply list_elem_of_filter in Hi as [? _]. }
  destruct (lookup_lt_is_Some_2 ws p Hp) as [wp Hwp].
  exists wp. rewrite Hown. split; [done|].
  unfold GetHaloNodeValue. rewrite HS, Hsz, Hsize.
  assert (halo_set w ≠ []) as Hne by (intros E; by rewrite E in Hoff).
  rewrite decide_False by done.
  rewrite <- (app_nil_r (halo_set w)) at 1.
  rewrite (lower_bound_index _ _ _ _ (halo_set_sorted w) Hoff).
  set (counts := (λ q, length (requested_from w q)) <$> seq 0 (length ws)) in *.
  assert (length <$> take p (requested_from w <$> seq 0 (length ws)) = take p counts) as Htk.
  { unfold counts. by rewrite fmap_take, <- list_fmap_compose. }
  assert (counts !!! p = length (requested_from w p)) as Hcp.
  { unfold counts. by rewrite lookup_total_fmap_seq. }
  pose proof (halo_outer_block w' (sum_list (take p counts) + i) iVar 0 (length ws) p i)
    as Hloop.
  rewrite Hnnr, Hcp in Hloop. rewrite Htk.
  change (sum_list (take 0 counts)) with 0 in Hloop.
  rewrite Hloop; [|lia|by eapply lookup_lt_Some|done]. f_equal.
  rewrite Hvrd, Hhvd, lookup_total_fmap_seq, lookup_total_prefix_sums by done.
  apply list_lookup_total_correct. unfold halo_data_received.
  assert (sum_list (take p counts) * nVar
          = sum_list (length <$> take p ((λ q, answer ws nVar r q) <$> seq 0 (length ws))))
    as ->.
  { unfold counts. rewrite !take_fmap_seq by lia.
    rewrite <- list_fmap_compose, sum_length_answer by lia. f_equal. f_equal.
    apply list_fmap_ext. intros ? q _. cbn beta. by rewrite (requested_lookup _ _ _ _ Hr). }
  rewrite <- Nat.add_assoc.
  rewrite (lookup_join_block _ _ (answer ws nVar r p) p).
  - rewrite <- (requested_lookup ws r p w Hr) in Hi |- *. by apply answer_lookup.
  - by rewrite list_lookup_fmap, lookup_seq_lt.
  - rewrite length_answer, (requested_lookup _ _ _ _ Hr) by done.
    apply lookup_lt_Some in Hi. nia.
Qed.

(** *** Valid meshes *)

Lemma GetNodeBegin_mono (ds : CParallelDataSorter V) (n p q : nat) :
  partition_ok ds n → p ≤ q → (GetNodeBegin ds p ≤ GetNodeBegin ds q)%N.
Proof.
  intros [Hstep _]. induction 1 as [|q _ IH]; [lia|].
  etrans; [exact IH|apply Hstep].
Qed.

Lemma FindProcessor_mono (ds : CParallelDataSorter V) (n : nat) (g g' : N) :
  partition_ok ds n → (g ≤ g')%N → (g' < GetNodeBegin ds n)%N →
  FindProcessor ds g ≤ FindProcessor ds g'.
Proof.
  intros Hpart Hle Hin. pose proof Hpart as [_ Hown].
  destruct (Hown g ltac:(lia)) as (_ & Hlo & _).
  destruct (Hown g' Hin) as (_ & _ & Hhi).
  destruct (decide (FindProcessor ds g ≤ FindProcessor ds g')) as [|Hgt]; [done|].
  pose proof (GetNodeBegin_mono ds n (S (FindProcessor ds g')) (FindProcessor ds g) Hpart
                ltac:(lia)). lia.
Qed.

Lemma halo_set_referenced (w : Writer) (g : N) :
  row_major (dataSorter w) → g ∈ halo_set w → referenced (dataSorter w) g.
Proof. intros Hrow [Href _]%elem_of_halo_set. by apply row_major_referenced. Qed.

Lemma valid_rank_grouped (n nVar : nat) (w : Writer) :
  valid_rank n nVar w → halo_grouped w n.
Proof.
  intros (_ & _ & Hrow & Hpart & Hrange). unfold halo_grouped, requested_from.
  apply (key_sorted_blocks (FindProcessor (dataSorter w)) (halo_set w) 0 n).
  - apply mono_key_sorted; [apply halo_set_sorted|].
    intros x y _ Hy Hle. eapply FindProcessor_mono; [done..|].
    by apply Hrange, halo_set_referenced.
  - apply Forall_forall. intros g Hg.
    destruct Hpart as [_ Hown].
    destruct (Hown g (Hrange g (halo_set_referenced w g Hrow Hg))) as [? _]. lia.
Qed.

Lemma valid_mesh_parts (nVar : nat) (ws : list Writer) :
  valid_mesh nVar ws →
  world_ok ws ∧ Forall freshly_constructed ws
  ∧ Forall (λ w, halo_grouped w (length ws)) ws
  ∧ Forall (λ w, length (fieldnames w) = nVar) ws.
Proof.
  intros [Hok Hvalid]. split_and!; [done|..].
  - eapply Forall_impl; [exact Hvalid|]. by intros w (? & _).
  - eapply Forall_impl; [exact Hvalid|]. intros w Hw. by eapply valid_rank_grouped.
  - eapply Forall_impl; [exact Hvalid|]. by intros w (_ & ? & _).
Qed.

Lemma valid_mesh_rank (nVar : nat) (ws : list Writer) (r : nat) (w : Writer) :
  valid_mesh nVar ws → ws !! r = Some w → valid_rank (length ws) nVar w.
Proof.
  intros [_ Hvalid] Hr. eapply Forall_forall; [exact Hvalid|].
  by eapply list_elem_of_lookup_2.
Qed.

(** C1. On a valid mesh with at least three fields per node, once
    [ReprocessElementConnectivity] has returned on every rank, [GetHaloNodeValue]
    on rank [r], for any corner [g] of a local triangle or quadrilateral that
    [FindProcessor] gives to another rank and any field [iVar] in 0..2, returns
    the value [GetData(iVar, g - GetNodeBegin(FindProcessor(g)))] held by the
    rank that owns [g]; it does not end in the error. *)
Theorem halo_completeness (ws : list Writer) (nVar r : nat) (w : Writer)
    (t : GEO_TYPE) (iElem iNode iVar : nat) :
  valid_mesh nVar ws → 3 ≤ nVar → ws !! r = Some w →
  iElem < GetnElem (dataSorter w) t → iNode < N_POINTS t → iVar < 3 →
  let g := usub (GetElem_Connectivity (dataSorter w) t iElem iNode) 1 in
  let owner := FindProcessor (dataSorter w) g in
  owner ≠ r →
  ∃ w' wp,
    ReprocessElementConnectivity ws !! r = Some w'
    ∧ ws !! owner = Some wp
    ∧ GetHaloNodeValue w' g iVar
      = Ok (GetData (dataSorter wp) iVar (usub g (GetNodeBegin (dataSorter wp) owner))).
Proof.
  intros Hvalid HnVar Hr He Hn Hv g owner Hown.
  destruct (valid_mesh_parts nVar ws Hvalid) as (Hok & Hfresh & Hgrouped & Hfields).
  destruct (valid_mesh_rank nVar ws r w Hvalid Hr) as (_ & _ & Hrow & _ & _).
  destruct (Reprocess_resolved ws nVar r w Hok Hfresh Hgrouped Hfields Hr) as (w' & Hw' & Hres).
  assert (g ∈ halo_set w) as Hin.
  { apply elem_of_halo_set. destruct (Hok r w Hr) as [Hrank _]. split; [|by rewrite Hrank].
    apply row_major_referenced; [done|]. by exists t, iElem, iNode. }
  assert (halo_grouped w (length ws)) as Hg.
  { eapply (Forall_forall (λ w, halo_grouped w (length ws))); [exact Hgrouped|].
    by eapply list_elem_of_lookup_2. }
  destruct (GetHaloNodeValue_resolved ws nVar r w w' g iVar Hok Hg Hr Hres Hin ltac:(lia))
    as (wp & Hwp & Hval).
  exists w', wp. split_and!; [done..|].
  rewrite Hval. by destruct (Hok _ wp Hwp) as [-> _].
Qed.

Lemma set_nodes_to_send_fields (x : list N) (w : Writer) :
  num_nodes_to_send (set_nodes_to_send x w) = num_nodes_to_send w
  ∧ nodes_to_send_displacements (set_nodes_to_send x w) = nodes_to_send_displacements w
  ∧ nodes_to_send (set_nodes_to_send x w) = x.
Proof. done. Qed.

(** C9. On a valid mesh, in the sorted halo list of rank [r] the nodes owned
    by a rank [p] form one block: the blocks follow each other in increasing
    rank order, the block of [p] has [num_nodes_to_receive[p]] nodes and starts
    at [nodes_to_receive_displacements[p]], the sum of the counts below [p];
    and the exchange of the requests leaves on rank [p], in the part of
    [nodes_to_send] that belongs to [r], exactly the halo nodes of [r] that
    [p] owns. *)
Theorem halo_blocks_by_owner (ws : list Writer) (nVar r p : nat) (w : Writer) :
  valid_mesh nVar ws → ws !! r = Some w → p < length ws →
  let block q := filter (λ g, FindProcessor (dataSorter w) g = q) (halo_set w) in
  ∃ w2 w3,
    (Reprocess_displacements <$> after_demand ws) !! r = Some w2
    ∧ after_requests ws !! p = Some w3
    ∧ halo_set w = mjoin (block <$> seq 0 (length ws))
    ∧ take (num_nodes_to_receive w2 !!! p)
           (drop (nodes_to_receive_displacements w2 !!! p) (sorted_halo_nodes w2))
      = block p
    ∧ num_nodes_to_receive w2 !!! p = length (block p)
    ∧ nodes_to_receive_displacements w2 !!! p = sum_list (take p (num_nodes_to_receive w2))
    ∧ take (num_nodes_to_send w3 !!! r)
           (drop (nodes_to_send_displacements w3 !!! r) (nodes_to_send w3))
      = block p.
Proof.
  intros Hvalid Hr Hp block.
  destruct (valid_mesh_parts nVar ws Hvalid) as (Hok & Hfresh & Hgrouped & _).
  destruct (Hok r w Hr) as [_ Hsize].
  assert (r < length ws) as Hlt by (by eapply lookup_lt_Some).
  destruct (lookup_lt_is_Some_2 ws p Hp) as [wp Hwp].
  destruct (Hok p wp Hwp) as [_ Hsizep].
  assert (freshly_constructed w ∧ freshly_constructed wp) as [Hfr Hfp].
  { split; (eapply Forall_forall; [exact Hfresh|by eapply list_elem_of_lookup_2]). }
  assert (halo_grouped w (length ws)) as Hg.
  { eapply (Forall_forall (λ w, halo_grouped w (length ws))); [exact Hgrouped|].
    by eapply list_elem_of_lookup_2. }
  destruct (displaced_fields w (counts_to_send ws r) Hfr ltac:(lia))
    as (HS & Hnnr & Hnrd & _).
  destruct (displaced_fields wp (counts_to_send ws p) Hfp ltac:(lia))
    as (_ & _ & _ & Hnns & Hnsd & _).
  exists (Reprocess_displacements
            (set_num_nodes_to_send (counts_to_send ws r) (Reprocess_demand w))),
         (set_nodes_to_send (requests_received ws p (nodes_to_send wp))
            (Reprocess_displacements
               (set_num_nodes_to_send (counts_to_send ws p) (Reprocess_demand wp)))).
  split_and!.
  - rewrite list_lookup_fmap, (after_demand_lookup ws r w) by done. reflexivity.
  - by apply after_requests_lookup.
  - exact Hg.
  - rewrite HS, Hnnr, Hnrd, Hsize. by apply request_message.
  - rewrite Hnnr, Hsize. by rewrite lookup_total_fmap_seq.
  - rewrite Hnrd, Hnnr, Hsize. by apply lookup_total_prefix_sums.
  - destruct (set_nodes_to_send_fields (requests_received ws p (nodes_to_send wp))
                (Reprocess_displacements
                   (set_num_nodes_to_send (counts_to_send ws p) (Reprocess_demand wp))))
      as (-> & -> & ->).
    rewrite Hnns, Hnsd, Hsizep, requests_received_block by done.
    by apply requested_lookup.
Qed.

(** *** The loops that load the send buffer *)

(** A loop body that appends: it writes [f x] at the running index and
    records the calls [c x]. *)
Lemma for_each_emits {A} (body : SendState → A → outcome SendState) (xs : list A)
    (f : A → list V) (c : A → list (N * nat)) (buf : list V) (index : nat)
    (calls : list (N * nat)) :
  (∀ buf index calls x, x ∈ xs →
     body (buf, index, calls) x
     = Ok (list_inserts index (f x) buf, index + length (f x), calls ++ c x)) →
  for_each body (buf, index, calls) xs
  = Ok (list_inserts index (xs ≫= f) buf, index + length (xs ≫= f), calls ++ (xs ≫= c)).
Proof.
  revert buf index calls. induction xs as [|x xs IH]; intros buf index calls Hbody.
  - simpl. by rewrite Nat.add_0_r, app_nil_r.
  - cbn [for_each]. rewrite Hbody by apply list_elem_of_here. cbn [obind].
    rewrite IH by (intros; apply Hbody; by apply list_elem_of_further).
    rewrite !bind_cons, length_app, list_inserts_app_l, app_assoc.
    rewrite (Nat.add_comm (length (f x)) index), Nat.add_assoc. reflexivity.
Qed.

Lemma load_tria_var_emits (w : Writer) (val : N → nat → V) (g : N) :
  (FindProcessor (dataSorter w) g ≠ rank w →
   ∀ iVar, iVar < 3 → GetHaloNodeValue w g iVar = Ok (val g iVar)) →
  ∀ buf index calls,
    for_each (load_tria_var w g (usub g (GetNodeBegin (dataSorter w) (rank w))))
      (buf, index, calls) (seq 0 3)
    = Ok (list_inserts index (node_values w val g) buf,
          index + length (node_values w val g), calls ++ node_calls w g).
Proof.
  intros Hhalo buf index calls.
  rewrite (for_each_emits _ _
             (λ iVar, [if decide (FindProcessor (dataSorter w) g = rank w)
                       then GetData (dataSorter w) iVar
                              (usub g (GetNodeBegin (dataSorter w) (rank w)))
                       else val g iVar])
             (λ iVar, if decide (FindProcessor (dataSorter w) g = rank w) then []
                      else [(g, iVar)])).
  - unfold node_values, node_calls. case_decide; reflexivity.
  - intros b i c iVar HiVar. apply elem_of_seq in HiVar as [_ HiVar].
    unfold load_tria_var. case_decide as Hown.
    + cbn [list_inserts length]. by rewrite app_nil_r, Nat.add_1_r.
    + rewrite Hhalo by (done || lia). cbn [obind list_inserts length].
      by rewrite Nat.add_1_r.
Qed.

Lemma load_quad_var_emits (w : Writer) (val : N → nat → V) (g : N) :
  (FindProcessor (dataSorter w) g ≠ rank w →
   ∀ iVar, iVar < 3 → GetHaloNodeValue w g iVar = Ok (val g iVar)) →
  ∀ buf index calls,
    for_each (load_quad_var w g (usub g (GetNodeBegin (dataSorter w) (rank w))))
      (buf, index, calls) (seq 0 3)
    = Ok (list_inserts index (node_values w val g) buf,
          index + length (node_values w val g), calls ++ node_calls w g).
Proof.
  intros Hhalo buf index calls. rewrite <- (load_tria_var_emits w val g Hhalo).
  by apply for_each_ext.
Qed.

Lemma bind_bind {A B C} (f : A → list B) (g : B → list C) (l : list A) :
  (l ≫= f) ≫= g = l ≫= (λ x, f x ≫= g).
Proof. induction l as [|x l IH]; [done|]. by rewrite !bind_cons, bind_app, IH. Qed.

Lemma bind_fmap {A B C} (h : A → B) (g : B → list C) (l : list A) :
  (h <$> l) ≫= g = l ≫= (λ x, g (h x)).
Proof. induction l as [|x l IH]; [done|]. by rewrite fmap_cons, !bind_cons, IH. Qed.

Lemma list_elem_of_bind_fmap {A B} (h : A → nat → B) (l : list A) (k : list nat)
    (x : A) (i : nat) :
  x ∈ l → i ∈ k → h x i ∈ l ≫= λ x, h x <$> k.
Proof.
  intros Hx Hi. apply list_elem_of_bind. exists x. split; [|done].
  by apply list_elem_of_fmap_2.
Qed.

(** The loops load the enumeration of the local elements, when every lookup
    of a node owned elsewhere gives [val]. *)
Lemma load_send_buffer_values (w : Writer) (val : N → nat → V) :
  (∀ g iVar, g ∈ tria_nodes (dataSorter w) ++ quad_nodes (dataSorter w) →
             FindProcessor (dataSorter w) g ≠ rank w → iVar < 3 →
             GetHaloNodeValue w g iVar = Ok (val g iVar)) →
  load_send_buffer w
  = Ok (list_inserts 0 (local_values w val) (replicate (MaxLocalTriaAll w * 3 * 3) zero),
        length (local_values w val), local_calls w).
Proof.
  intros Hhalo. unfold load_send_buffer.
  rewrite (for_each_emits (load_tria_elem w) _
             (λ iElem, seq 0 3 ≫= λ iPoint,
                node_values w val
                  (usub (GetElem_Connectivity (dataSorter w) TRIANGLE iElem iPoint) 1))
             (λ iElem, seq 0 3 ≫= λ iPoint,
                node_calls w
                  (usub (GetElem_Connectivity (dataSorter w) TRIANGLE iElem iPoint) 1))).
  2:{ intros buf index calls iElem HiElem. unfold load_tria_elem.
      apply for_each_emits. intros buf' index' calls' iPoint HiPoint.
      unfold load_tria_point. apply load_tria_var_emits. intros Hown iVar HiVar.
      apply Hhalo; [|done..]. apply elem_of_app. left.
      by apply (list_elem_of_bind_fmap
                  (λ iElem iPoint,
                     usub (GetElem_Connectivity (dataSorter w) TRIANGLE iElem iPoint) 1)). }
  cbn [obind].
  rewrite (for_each_emits (load_quad_elem w) _
             (λ iElem, seq 0 (length Nodelist) ≫= λ iPoint,
                node_values w val
                  (usub (GetElem_Connectivity (dataSorter w) QUADRILATERAL iElem
                           (Nodelist !!! iPoint)) 1))
             (λ iElem, seq 0 (length Nodelist) ≫= λ iPoint,
                node_calls w
                  (usub (GetElem_Connectivity (dataSorter w) QUADRILATERAL iElem
                           (Nodelist !!! iPoint)) 1))).
  2:{ intros buf index calls iElem HiElem. unfold load_quad_elem.
      apply for_each_emits. intros buf' index' calls' iPoint HiPoint.
      unfold load_quad_point. apply load_quad_var_emits. intros Hown iVar HiVar.
      apply Hhalo; [|done..]. apply elem_of_app. right.
      apply list_elem_of_bind. exists iElem. split; [|done].
      apply elem_of_seq in HiPoint as [_ HiPoint]. cbn in HiPoint.
      do 6 (destruct iPoint as [|iPoint]; [cbn; rewrite !elem_of_cons; tauto|]). lia. }
  assert (local_values w val
          = (seq 0 (GetnElem (dataSorter w) TRIANGLE) ≫= λ iElem, seq 0 3 ≫= λ iPoint,
               node_values w val
                 (usub (GetElem_Connectivity (dataSorter w) TRIANGLE iElem iPoint) 1))
            ++ (seq 0 (GetnElem (dataSorter w) QUADRILATERAL) ≫= λ iElem,
                  seq 0 (length Nodelist) ≫= λ iPoint,
                    node_values w val
                      (usub (GetElem_Connectivity (dataSorter w) QUADRILATERAL iElem
                               (Nodelist !!! iPoint)) 1))) as ->.
  { unfold local_values, tria_nodes, quad_nodes. rewrite bind_app, !bind_bind.
    f_equal; apply list_bind_ext; try done; intros iElem; by rewrite bind_fmap. }
  assert (local_calls w
          = (seq 0 (GetnElem (dataSorter w) TRIANGLE) ≫= λ iElem, seq 0 3 ≫= λ iPoint,
               node_calls w
                 (usub (GetElem_Connectivity (dataSorter w) TRIANGLE iElem iPoint) 1))
            ++ (seq 0 (GetnElem (dataSorter w) QUADRILATERAL) ≫= λ iElem,
                  seq 0 (length Nodelist) ≫= λ iPoint,
                    node_calls w
                      (usub (GetElem_Connectivity (dataSorter w) QUADRILATERAL iElem
                               (Nodelist !!! iPoint)) 1))) as ->.
  { unfold local_calls, tria_nodes, quad_nodes. rewrite bind_app, !bind_bind.
    f_equal; apply list_bind_ext; try done; intros iElem; by rewrite bind_fmap. }
  rewrite list_inserts_app_l, length_app. cbn [app]. by rewrite !Nat.add_0_r, Nat.add_0_l.
Qed.

Lemma all_ok_fmap {A B} (f : A → outcome B) (g : A → B) (l : list A) :
  (∀ x, x ∈ l → f x = Ok (g x)) → all_ok (f <$> l) = Ok (g <$> l).
Proof.
  induction l as [|x l IH]; intros Hf; [done|]. csimpl.
  rewrite Hf by apply list_elem_of_here. cbn [obind].
  rewrite IH; [done|]. intros y Hy. apply Hf. by apply list_elem_of_further.
Qed.

Lemma all_ok_Fatal {A} (l : list (outcome A)) (i : nat) (msg : string) :
  l !! i = Some (Fatal msg) → ∃ msg', all_ok l = Fatal msg'.
Proof.
  revert i. induction l as [|m l IH]; intros i Hi; [done|].
  destruct i as [|i]; simpl in *.
  - simplify_eq. by exists msg.
  - destruct m as [a|msg0]; [|by exists msg0]. cbn [obind].
    destruct (IH i Hi) as [msg' ->]. by exists msg'.
Qed.

(** A rank that is not the root keeps its receive buffer. *)
Lemma Gather_lookup_other {A} (count : list nat) (root : nat) (sendbuf : list (list A))
    (recvbuf : list (option (list A))) (r : nat) :
  r ≠ root → Gather count root sendbuf recvbuf !! r = recvbuf !! r.
Proof.
  intros Hr. unfold Gather. rewrite list_lookup_imap.
  destruct (recvbuf !! r); [|done]. simpl. by rewrite decide_False.
Qed.

(** The root, with room for one block of [c] elements per rank, gets the
    blocks of the ranks in rank order. *)
Lemma Gather_lookup_root {A} (count : list nat) (root c : nat) (sendbuf : list (list A))
    (recvbuf : list (option (list A))) (buf : list A) :
  recvbuf !! root = Some (Some buf) → root < length sendbuf →
  length count = length sendbuf →
  Forall (λ k, k = c) count →
  Forall (λ b, length b = c) sendbuf →
  length buf = length sendbuf * c →
  Gather count root sendbuf recvbuf !! root = Some (Some (mjoin sendbuf)).
Proof.
  intros Hroot Hlt Hcount Hc Hsend Hbuf. unfold Gather.
  rewrite list_lookup_imap, Hroot. simpl. rewrite decide_True by done. simpl. do 2 f_equal.
  assert (∀ s, s < length sendbuf → count !!! s = c) as Hcs.
  { intros s Hs. destruct (lookup_lt_is_Some_2 count s) as [k Hk]; [lia|].
    rewrite (list_lookup_total_correct _ _ _ Hk).
    eapply (proj1 (Forall_forall _ _) Hc). by eapply list_elem_of_lookup_2. }
  assert (∀ s, s < length sendbuf → length (sendbuf !!! s) = c) as Hls.
  { intros s Hs. destruct (lookup_lt_is_Some_2 sendbuf s Hs) as [b Hb].
    rewrite (list_lookup_total_correct _ _ _ Hb).
    eapply (proj1 (Forall_forall _ _) Hsend). by eapply list_elem_of_lookup_2. }
  assert (∀ n, n ≤ length sendbuf →
               sum_list (length ∘ (λ s, sendbuf !!! s) <$> seq 0 n) = n * c) as Hsum.
  { induction n as [|n IH]; intros Hn; [done|].
    rewrite seq_S, fmap_app, sum_list_with_app, IH by lia. simpl.
    rewrite Hls by lia. lia. }
  rewrite (foldl_ext_in _
             (λ buf s, list_inserts
                         (sum_list (length ∘ (λ s, sendbuf !!! s) <$> seq 0 s))
                         (sendbuf !!! s) buf)).
  2:{ intros a s Hs. apply elem_of_seq in Hs as [_ Hs]. simpl in Hs.
      rewrite Hsum, !Hcs by lia.
      by rewrite !take_ge by (rewrite ?length_take, Hls by lia; lia). }
  rewrite foldl_inserts_seq by (rewrite Hsum by lia; lia).
  rewrite Hsum, drop_ge, app_nil_r by lia. by rewrite fmap_lookup_seq.
Qed.

Lemma nLocalTriaAll_alloc_counts (w : Writer) :
  nLocalTriaAll (Gather_alloc_counts w) = nLocalTriaAll w.
Proof. unfold Gather_alloc_counts. by destruct (decide _). Qed.

Lemma join_singletons {A B} (f : A → B) (l : list A) : mjoin ((λ x, [f x]) <$> l) = f <$> l.
Proof. induction l as [|x l IH]; [done|]. csimpl. by rewrite IH. Qed.

(** What every rank holds when the buffers are allocated: the largest count;
    and on the master the counts of all ranks in rank order and a receive
    array with room for the largest count on every rank. *)
Lemma GatherCoordData_counts_lookup (ws : list Writer) (r : nat) (w : Writer) :
  world_ok ws → ws !! r = Some w →
  ∃ w4, GatherCoordData_counts ws !! r = Some w4
        ∧ same_inputs w w4
        ∧ MaxLocalTriaAll w4 = max_list (nLocalTriaAll <$> ws)
        ∧ (r = MASTER_NODE →
           Buffer_Recv_nTriaAll w4 = Some (nLocalTriaAll <$> ws)
           ∧ bufD_Recv w4
             = Some (replicate (length ws * max_list (nLocalTriaAll <$> ws) * 3 * 3) zero)).
Proof.
  intros Hok Hr. destruct (Hok r w Hr) as [Hrank Hsize].
  assert (r < length ws) as Hlt by (by eapply lookup_lt_Some).
  unfold GatherCoordData_counts.
  assert (nLocalTriaAll <$> (Gather_alloc_counts <$> ws) = nLocalTriaAll <$> ws) as Hn.
  { rewrite <- list_fmap_compose. apply list_fmap_ext. intros ? x _.
    apply nLocalTriaAll_alloc_counts. }
  rewrite Hn. unfold Allreduce_MAX. rewrite length_fmap.
  set (M := max_list (nLocalTriaAll <$> ws)).
  set (ws2 := zip_with set_MaxLocalTriaAll (replicate (length ws) M)
                (Gather_alloc_counts <$> ws)).
  assert (length ws2 = length ws) as Hlen2.
  { unfold ws2. rewrite length_zip_with, length_replicate, length_fmap. lia. }
  assert (ws2 !! r = Some (set_MaxLocalTriaAll M (Gather_alloc_counts w))) as Hr2.
  { unfold ws2. apply lookup_zip_with_Some. eexists _, _. split; [reflexivity|]. split.
    - by apply lookup_replicate_2.
    - by rewrite list_lookup_fmap, Hr. }
  assert (nLocalTriaAll <$> ws2 = nLocalTriaAll <$> ws) as Hn2.
  { apply list_eq. intros i. rewrite !list_lookup_fmap. unfold ws2.
    rewrite lookup_zip_with, list_lookup_fmap.
    destruct (ws !! i) as [x|] eqn:Hx; simpl.
    - rewrite lookup_replicate_2 by (by eapply lookup_lt_Some). simpl.
      f_equal. apply nLocalTriaAll_alloc_counts.
    - by destruct (replicate _ _ !! i). }
  set (G := Gather _ _ _ _).
  destruct (decide (r = MASTER_NODE)) as [Hm|Hm].
  - assert (G !! r = Some (Some (nLocalTriaAll <$> ws))) as HG.
    { unfold G. rewrite <- Hm, <- Hn2, <- (join_singletons nLocalTriaAll).
      apply (Gather_lookup_root _ _ 1 _ _ (replicate (size w) 0)).
      - rewrite list_lookup_fmap, Hr2. simpl. unfold Gather_alloc_counts.
        by rewrite Hrank, Hm, decide_True.
      - by rewrite length_fmap, Hlen2.
      - by rewrite !length_fmap.
      - apply Forall_fmap, Forall_true. done.
      - apply Forall_fmap, Forall_true. done.
      - rewrite length_replicate, length_fmap, Hlen2. lia. }
    exists (Gather_alloc_data
              (set_Buffer_Recv_nTriaAll (Some (nLocalTriaAll <$> ws))
                 (set_MaxLocalTriaAll M (Gather_alloc_counts w)))).
    split.
    { rewrite list_lookup_fmap. apply fmap_Some. eexists. split; [|reflexivity].
      apply lookup_zip_with_Some. eexists _, _. split; [reflexivity|]. by split. }
    assert (Gather_alloc_counts w
            = set_Buffer_Recv_nTriaAll (Some (replicate (size w) 0)) w) as ->.
    { unfold Gather_alloc_counts. rewrite decide_True; [done|]. by rewrite Hrank. }
    unfold Gather_alloc_data, same_inputs. writer_fields.
    rewrite decide_True by (by rewrite Hrank). writer_fields.
    rewrite Hsize. split_and!; done.
  - assert (G !! r = Some (Buffer_Recv_nTriaAll w)) as HG.
    { unfold G. rewrite Gather_lookup_other by done.
      rewrite list_lookup_fmap, Hr2. simpl. unfold Gather_alloc_counts.
      by rewrite Hrank, decide_False. }
    exists (Gather_alloc_data
              (set_Buffer_Recv_nTriaAll (Buffer_Recv_nTriaAll w)
                 (set_MaxLocalTriaAll M (Gather_alloc_counts w)))).
    split.
    { rewrite list_lookup_fmap. apply fmap_Some. eexists. split; [|reflexivity].
      apply lookup_zip_with_Some. eexists _, _. split; [reflexivity|]. by split. }
    assert (Gather_alloc_counts w = w) as ->.
    { unfold Gather_alloc_counts. rewrite decide_False; [done|]. by rewrite Hrank. }
    unfold Gather_alloc_data, same_inputs. writer_fields.
    rewrite decide_False by (by rewrite Hrank). writer_fields.
    split_and!; done.
Qed.

Lemma join_bind {A B} (f : A → list B) (ls : list (list A)) :
  mjoin ls ≫= f = mjoin ((λ l, l ≫= f) <$> ls).
Proof. induction ls as [|l ls IH]; [done|]. csimpl. by rewrite bind_app, IH. Qed.

Lemma bind_join_fmap {A B} (f : A → list B) (l : list A) : l ≫= f = mjoin (f <$> l).
Proof. induction l as [|x l IH]; [done|]. csimpl. by rewrite IH. Qed.

(** The corners in the order of the buffer are the corners of the triangles
    one after the other. *)
Lemma nodes_local_triangles (ds : CParallelDataSorter V) :
  tria_nodes ds ++ quad_nodes ds = mjoin (local_triangles ds).
Proof.
  unfold tria_nodes, quad_nodes, local_triangles. rewrite join_app. f_equal.
  - by rewrite bind_join_fmap.
  - induction (seq 0 (GetnElem ds QUADRILATERAL)) as [|e l IH]; [done|].
    by rewrite !bind_cons, join_app, <- IH.
Qed.

Lemma length_local_triangles (w : Writer) :
  length (local_triangles (dataSorter w)) = nLocalTriaAll w.
Proof.
  unfold local_triangles, nLocalTriaAll.
  rewrite length_app, length_fmap, length_seq. f_equal.
  generalize (GetnElem (dataSorter w) QUADRILATERAL). intros n.
  induction n as [|n IH]; [done|].
  rewrite seq_S, bind_app, length_app, IH. simpl. lia.
Qed.

Lemma local_triangles_corners (ds : CParallelDataSorter V) :
  Forall (λ tri, length tri = 3) (local_triangles ds).
Proof.
  unfold local_triangles. apply Forall_app. split.
  - apply Forall_fmap, Forall_true. done.
  - apply Forall_forall. intros tri Htri.
    apply list_elem_of_bind in Htri as (e & Htri & _).
    apply elem_of_cons in Htri as [->| ->%list_elem_of_singleton]; done.
Qed.

Lemma local_values_facets (w : Writer) (val : N → nat → V) :
  local_values w val
  = mjoin ((λ tri, tri ≫= node_values w val) <$> local_triangles (dataSorter w)).
Proof. unfold local_values. by rewrite nodes_local_triangles, join_bind. Qed.

Lemma local_facets_length (w : Writer) (val : N → nat → V) :
  Forall (λ f, length f = 9)
         ((λ tri, tri ≫= node_values w val) <$> local_triangles (dataSorter w)).
Proof.
  apply Forall_fmap. eapply Forall_impl; [apply local_triangles_corners|].
  intros tri Htri. simpl. destruct tri as [|a [|b [|c [|]]]]; done.
Qed.

Lemma sum_list_const (c : nat) (l : list nat) :
  Forall (λ k, k = c) l → sum_list l = length l * c.
Proof. induction 1 as [|k l -> _ IH]; [done|]. simpl. by rewrite IH. Qed.

Lemma length_local_values (w : Writer) (val : N → nat → V) :
  length (local_values w val) = nLocalTriaAll w * 9.
Proof.
  rewrite local_values_facets, length_join, <- length_local_triangles.
  rewrite (sum_list_const 9); [by rewrite !length_fmap|].
  rewrite Forall_fmap. apply (local_facets_length w val).
Qed.

Lemma sum_list_take_const (c r : nat) (l : list nat) :
  Forall (λ k, k = c) l → r ≤ length l → sum_list (take r l) = r * c.
Proof.
  intros Hl Hr. rewrite (sum_list_const c) by (by apply Forall_take).
  rewrite length_take. f_equal. lia.
Qed.

(** Reading a gathered array of segments of [c] elements: the facets at the
    head of every segment, segment after segment, are read at
    [r * M * 3 * 3 + e * 3 * 3 + k]; what follows them in a segment is not. *)
Lemma gathered_facets {A} `{Inhabited A} (M : nat) (fss : list (list (list A)))
    (bs : list (list A)) :
  Forall2 (λ fs b, length b = M * 3 * 3 ∧ ∃ pad, b = mjoin fs ++ pad) fss bs →
  Forall (Forall (λ f, length f = 9)) fss →
  mjoin ((λ r, (λ e, (λ k, mjoin bs !!! (r * M * 3 * 3 + e * 3 * 3 + k)) <$> seq 0 9)
                 <$> seq 0 (length (fss !!! r)))
           <$> seq 0 (length fss))
  = mjoin fss.
Proof.
  intros Hbs Hfss. f_equal. etrans; [|apply (fmap_lookup_seq fss)].
  apply list_fmap_ext. intros r ? Hr. apply lookup_seq in Hr as [-> Hr]. cbn [Nat.add].
  destruct (lookup_lt_is_Some_2 fss r Hr) as [fs Hfs].
  rewrite (list_lookup_total_correct _ _ _ Hfs).
  destruct (Forall2_lookup_l _ _ _ _ _ Hbs Hfs) as (b & Hb & Hlen & pad & Hpad).
  assert (Forall (λ f, length f = 9) fs) as Hnine.
  { eapply (proj1 (Forall_forall _ _) Hfss). by eapply list_elem_of_lookup_2. }
  etrans; [|apply (fmap_lookup_seq fs)].
  apply list_fmap_ext. intros e ? He. apply lookup_seq in He as [-> He]. cbn [Nat.add].
  destruct (lookup_lt_is_Some_2 fs e He) as [f Hf].
  rewrite (list_lookup_total_correct _ _ _ Hf).
  assert (length f = 9) as Hlf.
  { eapply (proj1 (Forall_forall _ _) Hnine). by eapply list_elem_of_lookup_2. }
  etrans; [|apply (fmap_lookup_seq f)]. rewrite Hlf.
  apply list_fmap_ext. intros k ? Hk. apply lookup_seq in Hk as [-> Hk]. cbn [Nat.add].
  assert (length (mjoin fs) = length fs * 9) as Hjoin.
  { rewrite length_join, (sum_list_const 9) by (by apply Forall_fmap).
    by rewrite length_fmap. }
  assert (sum_list (length <$> take r bs) = r * (M * 3 * 3)) as Hoff.
  { rewrite fmap_take. apply sum_list_take_const.
    - apply Forall_fmap. apply Forall_forall. intros b' Hb'.
      apply list_elem_of_lookup in Hb' as [i Hi].
      destruct (Forall2_lookup_r _ _ _ _ _ Hbs Hi) as (? & _ & Hl & _). exact Hl.
    - rewrite length_fmap. apply lookup_lt_Some in Hb. lia. }
  assert (sum_list (length <$> take e fs) = e * 9) as Hoff'.
  { rewrite fmap_take. apply sum_list_take_const; [by apply Forall_fmap|].
    rewrite length_fmap. lia. }
  assert (e * 9 + k < length b) as Hin.
  { rewrite Hpad, length_app, Hjoin.
    apply Nat.lt_le_trans with (S e * 9); [lia|].
    apply Nat.le_trans with (length fs * 9); [|lia].
    apply Nat.mul_le_mono_r. lia. }
  apply list_lookup_total_correct.
  replace (r * M * 3 * 3 + e * 3 * 3 + k)
    with (sum_list (length <$> take r bs) + (e * 9 + k)) by lia.
  rewrite <- (app_nil_r (mjoin bs)), (lookup_join_block bs [] b r _ Hb Hin).
  rewrite Hpad, <- Hoff', (lookup_join_block fs pad f e k Hf) by lia.
  apply list_lookup_lookup_total_lt. lia.
Qed.

Lemma fmap_related {A B C} (R : A → B → Prop) (f : A → C) (g : B → C)
    (l1 : list A) (l2 : list B) :
  Forall2 R l1 l2 → (∀ x y, R x y → f x = g y) → f <$> l1 = g <$> l2.
Proof. intros HR Hfg. induction HR as [|x y l1 l2 Hxy _ IH]; [done|]. csimpl. by rewrite IH, (Hfg x y). Qed.

Lemma GatherCoordData_counts_length (ws : list Writer) :
  length (GatherCoordData_counts ws) = length ws.
Proof.
  unfold GatherCoordData_counts, Allreduce_MAX, Gather.
  rewrite length_fmap, !length_zip_with, length_imap, !length_fmap, !length_zip_with,
    length_replicate, !length_fmap. lia.
Qed.

(** The members of all ranks when the buffers are allocated. *)
Lemma GatherCoordData_counts_world (ws : list Writer) :
  world_ok ws →
  Forall2 (λ w w4,
             same_inputs w w4
             ∧ MaxLocalTriaAll w4 = max_list (nLocalTriaAll <$> ws)
             ∧ (rank w = MASTER_NODE →
                Buffer_Recv_nTriaAll w4 = Some (nLocalTriaAll <$> ws)
                ∧ bufD_Recv w4
                  = Some (replicate (length ws * max_list (nLocalTriaAll <$> ws) * 3 * 3)
                            zero)))
          ws (GatherCoordData_counts ws).
Proof.
  intros Hok. apply Forall2_same_length_lookup_2.
  { by rewrite GatherCoordData_counts_length. }
  intros r w w4 Hr Hr4.
  destruct (GatherCoordData_counts_lookup ws r w Hok Hr) as (w4' & Hr4' & Hsame & HM & Hm).
  rewrite Hr4 in Hr4'. injection Hr4' as <-.
  split; [done|]. split; [done|]. intros Hrank. apply Hm.
  by rewrite <- (proj1 (Hok r w Hr)).
Qed.

Lemma local_values_inputs (w w' : Writer) (val : N → nat → V) :
  same_inputs w w' → local_values w' val = local_values w val.
Proof.
  intros (Hrank & _ & _ & Hds & _). unfold local_values, node_values.
  by rewrite Hrank, Hds.
Qed.

Lemma local_calls_inputs (w w' : Writer) :
  same_inputs w w' → local_calls w' = local_calls w.
Proof.
  intros (Hrank & _ & _ & Hds & _). unfold local_calls, node_calls.
  by rewrite Hrank, Hds.
Qed.

Lemma GetHaloNodeValue_inputs (w w' : Writer) (g : N) (iVar : nat) :
  same_inputs w w' → GetHaloNodeValue w' g iVar = GetHaloNodeValue w g iVar.
Proof.
  intros (_ & Hsize & _ & _ & HS & Hn & Hd & Hh). by apply GetHaloNodeValue_ext.
Qed.

(** The send buffers of all ranks, when every lookup of a node owned
    elsewhere gives [val]. *)
Lemma load_send_buffer_world (ws : list Writer) (val : nat → N → nat → V) :
  world_ok ws →
  (∀ r w g iVar, ws !! r = Some w →
     g ∈ tria_nodes (dataSorter w) ++ quad_nodes (dataSorter w) →
     FindProcessor (dataSorter w) g ≠ r → iVar < 3 →
     GetHaloNodeValue w g iVar = Ok (val r g iVar)) →
  all_ok (load_send_buffer <$> GatherCoordData_counts ws)
  = Ok ((λ w4, (send_buffer (MaxLocalTriaAll w4) w4 (val (rank w4)),
                length (local_values w4 (val (rank w4))), local_calls w4))
          <$> GatherCoordData_counts ws).
Proof.
  intros Hok Hhalo. apply all_ok_fmap. intros w4 Hw4.
  apply list_elem_of_lookup in Hw4 as [r Hr4].
  destruct (Forall2_lookup_r _ _ _ _ _ (GatherCoordData_counts_world ws Hok) Hr4)
    as (w & Hr & Hsame & _).
  destruct (Hok r w Hr) as [Hrank _].
  apply load_send_buffer_values. intros g iVar Hg Hown HiVar.
  pose proof Hsame as (Hrank4 & _ & _ & Hds & _).
  rewrite (GetHaloNodeValue_inputs w w4) by done.
  rewrite Hrank4, Hrank. rewrite Hds in Hg. rewrite Hds, Hrank4, Hrank in Hown.
  by apply Hhalo.
Qed.

Lemma length_send_buffer (M : nat) (w : Writer) (val : N → nat → V) :
  length (send_buffer M w val) = M * 3 * 3.
Proof. unfold send_buffer. by rewrite length_inserts, length_replicate. Qed.

(** [GatherCoordData] on all ranks, when every lookup of a node owned
    elsewhere gives [val]: no rank ends the process, and the halo lookups are
    those of the nodes owned elsewhere. *)
Lemma GatherCoordData_world (ws : list Writer) (val : nat → N → nat → V) :
  world_ok ws →
  (∀ r w g iVar, ws !! r = Some w →
     g ∈ tria_nodes (dataSorter w) ++ quad_nodes (dataSorter w) →
     FindProcessor (dataSorter w) g ≠ r → iVar < 3 →
     GetHaloNodeValue w g iVar = Ok (val r g iVar)) →
  ∃ ws', GatherCoordData ws = Ok (ws', local_calls <$> ws)
         ∧ Forall2 (gathered ws val) ws ws'.
Proof.
  intros Hok Hhalo. unfold GatherCoordData.
  rewrite (load_send_buffer_world ws val Hok Hhalo). cbn [obind].
  pose proof (GatherCoordData_counts_world ws Hok) as H4.
  set (M := max_list (nLocalTriaAll <$> ws)) in *.
  set (ws4 := GatherCoordData_counts ws) in *. clearbody ws4.
  eexists. split.
  { f_equal. f_equal. rewrite <- list_fmap_compose. symmetry.
    apply (fmap_related _ _ _ _ _ H4). intros w w4 (Hsame & _). unfold compose. simpl.
    symmetry. by apply local_calls_inputs. }
  assert (length ws4 = length ws) as Hlen4 by (symmetry; by eapply Forall2_length).
  assert ((λ st : SendState, st.1.1)
            <$> ((λ w4, (send_buffer (MaxLocalTriaAll w4) w4 (val (rank w4)),
                         length (local_values w4 (val (rank w4))), local_calls w4)) <$> ws4)
          = (λ w, send_buffer M w (val (rank w))) <$> ws) as ->.
  { rewrite <- list_fmap_compose. symmetry.
    apply (fmap_related _ _ _ _ _ H4). intros w w4 (Hsame & HM & _). unfold compose. simpl.
    unfold send_buffer. rewrite HM, (local_values_inputs w w4) by done.
    by rewrite (proj1 Hsame). }
  assert ((λ w4, MaxLocalTriaAll w4 * 3 * 3) <$> ws4 = (λ _, M * 3 * 3) <$> ws) as ->.
  { symmetry. apply (fmap_related _ _ _ _ _ H4). intros w w4 (_ & HM & _). by rewrite HM. }
  apply Forall2_same_length_lookup_2.
  { rewrite length_zip_with. unfold Gather. rewrite length_imap, length_fmap. lia. }
  intros r w w' Hr Hr'.
  apply lookup_zip_with_Some in Hr' as (X & w4 & -> & HX & Hr4).
  destruct (Forall2_lookup_lr _ _ _ _ _ _ H4 Hr Hr4) as (Hsame & HM & Hm).
  destruct (Hok r w Hr) as [Hrank Hsize].
  unfold gathered. fold M. split; [exact Hsame|]. split; [exact HM|].
  intros Hmaster. destruct (Hm Hmaster) as [Hcounts Hbuf]. split; [exact Hcounts|].
  change (bufD_Recv (set_bufD_Recv X w4)) with X.
  assert (r = MASTER_NODE) as -> by (by rewrite <- Hrank).
  erewrite Gather_lookup_root in HX.
  - by injection HX as <-.
  - rewrite list_lookup_fmap, Hr4. simpl. by rewrite Hbuf.
  - rewrite length_fmap. by eapply lookup_lt_Some.
  - by rewrite !length_fmap.
  - apply Forall_fmap, Forall_true. done.
  - apply Forall_fmap, Forall_true. intros x. apply length_send_buffer.
  - rewrite length_replicate, length_fmap. lia.
Qed.

Lemma Reprocess_length (ws : list Writer) :
  length (ReprocessElementConnectivity ws) = length ws.
Proof.
  unfold ReprocessElementConnectivity, exchange_data. fold (after_demand ws).
  fold (after_requests ws).
  rewrite length_zip_with_r_eq; rewrite !length_fmap; [apply after_requests_length|].
  unfold Alltoallv. by rewrite length_imap, !length_fmap.
Qed.

(** The world after [ReprocessElementConnectivity] on a valid mesh. *)
Lemma Reprocess_world (ws : list Writer) (nVar : nat) :
  valid_mesh nVar ws →
  Forall2 (λ w w', halo_resolved ws nVar (rank w) w w') ws (ReprocessElementConnectivity ws).
Proof.
  intros Hvalid.
  destruct (valid_mesh_parts nVar ws Hvalid) as (Hok & Hfresh & Hgrouped & Hfields).
  apply Forall2_same_length_lookup_2; [by rewrite Reprocess_length|].
  intros r w w' Hr Hr'.
  destruct (Reprocess_resolved ws nVar r w Hok Hfresh Hgrouped Hfields Hr) as (w'' & Hw'' & Hres).
  rewrite Hr' in Hw''. injection Hw'' as <-. by rewrite (proj1 (Hok r w Hr)).
Qed.

Lemma Reprocess_world_ok (ws : list Writer) (nVar : nat) :
  valid_mesh nVar ws → world_ok (ReprocessElementConnectivity ws).
Proof.
  intros Hvalid r w' Hr'.
  destruct (Forall2_lookup_r _ _ _ _ _ (Reprocess_world ws nVar Hvalid) Hr')
    as (w & Hr & Hrank & Hsize & _).
  destruct (proj1 Hvalid r w Hr) as [Hrank0 Hsize0].
  rewrite Hrank, Hsize, Reprocess_length. by split.
Qed.

Lemma elem_of_nodes_referenced (ds : CParallelDataSorter V) (g : N) :
  g ∈ tria_nodes ds ++ quad_nodes ds → referenced ds g.
Proof.
  intros [Hg|Hg]%elem_of_app.
  - apply list_elem_of_bind in Hg as (e & Hg & He).
    apply list_elem_of_fmap in Hg as (p & -> & Hp).
    apply elem_of_seq in He as [_ He]. apply elem_of_seq in Hp as [_ Hp].
    by exists TRIANGLE, e, p.
  - apply list_elem_of_bind in Hg as (e & Hg & He).
    apply list_elem_of_fmap in Hg as (p & -> & Hp).
    apply elem_of_seq in He as [_ He].
    exists QUADRILATERAL, e, p. split; [done|]. split; [|done].
    rewrite !elem_of_cons in Hp. unfold N_POINTS, N_POINTS_QUADRILATERAL.
    destruct Hp as [->|[->|[->|[->|[->|[->|Hp]]]]]]; [lia..|].
    by apply elem_of_nil in Hp.
Qed.

(** After [ReprocessElementConnectivity] on a valid mesh, the lookup of every
    corner owned elsewhere gives the value of the owner. *)
Lemma Reprocess_halo_values (ws : list Writer) (nVar r : nat) (w' : Writer)
    (g : N) (iVar : nat) :
  valid_mesh nVar ws → 3 ≤ nVar →
  ReprocessElementConnectivity ws !! r = Some w' →
  g ∈ tria_nodes (dataSorter w') ++ quad_nodes (dataSorter w') →
  FindProcessor (dataSorter w') g ≠ r → iVar < 3 →
  GetHaloNodeValue w' g iVar = Ok (rank_value (dataSorter <$> ws) r g iVar).
Proof.
  intros Hvalid HnVar Hr' Hg Hown HiVar.
  destruct (valid_mesh_parts nVar ws Hvalid) as (Hok & Hfresh & Hgrouped & Hfields).
  destruct (Forall2_lookup_r _ _ _ _ _ (Reprocess_world ws nVar Hvalid) Hr')
    as (w & Hr & Hres).
  destruct (Hok r w Hr) as [Hrank _]. rewrite Hrank in Hres.
  pose proof Hres as (_ & _ & Hds & _). rewrite Hds in Hg, Hown.
  destruct (valid_mesh_rank nVar ws r w Hvalid Hr) as (_ & _ & Hrow & _ & _).
  assert (g ∈ halo_set w) as Hin.
  { apply elem_of_halo_set. split; [|by rewrite Hrank].
    apply row_major_referenced; [done|]. by apply elem_of_nodes_referenced. }
  assert (halo_grouped w (length ws)) as Hgr.
  { eapply (Forall_forall (λ w, halo_grouped w (length ws))); [exact Hgrouped|].
    by eapply list_elem_of_lookup_2. }
  destruct (GetHaloNodeValue_resolved ws nVar r w w' g iVar Hok Hgr Hr Hres Hin ltac:(lia))
    as (wp & Hwp & Hval).
  rewrite Hval. unfold rank_value, owner_value.
  rewrite !list_lookup_fmap, Hr. simpl. rewrite list_lookup_fmap, Hwp. simpl.
  by rewrite (proj1 (Hok _ wp Hwp)).
Qed.

Lemma send_buffer_facets (ws : list Writer) (w : Writer) (val : N → nat → V) :
  w ∈ ws →
  ∃ pad, send_buffer (max_list (nLocalTriaAll <$> ws)) w val
         = mjoin ((λ tri, tri ≫= node_values w val) <$> local_triangles (dataSorter w)) ++ pad.
Proof.
  intros Hw. unfold send_buffer. rewrite <- local_values_facets. eexists.
  apply list_inserts_0. rewrite length_replicate, length_local_values.
  assert (nLocalTriaAll w ≤ max_list (nLocalTriaAll <$> ws)) as Hle.
  { apply max_list_elem_of_le. by apply list_elem_of_fmap_2. }
  lia.
Qed.

(** The triangles the master reads after [GatherCoordData]: the triangles of
    all ranks, rank after rank; the zeros that fill the segments are not among
    them. *)
Lemma gathered_triangles_world (ws : list Writer) (val : nat → N → nat → V) (w w' : Writer) :
  world_ok ws → ws !! MASTER_NODE = Some w → gathered ws val w w' →
  gathered_triangles w'
  = ws ≫= λ w, (λ tri, tri ≫= node_values w (val (rank w))) <$> local_triangles (dataSorter w).
Proof.
  intros Hok Hw ((_ & Hsize & _) & HM & Hm).
  destruct (Hok _ w Hw) as [Hrank Hsize0].
  destruct (Hm Hrank) as [Hcounts Hbuf].
  unfold gathered_triangles, gathered_triangle.
  rewrite Hsize, Hsize0, Hcounts, Hbuf, HM. simpl.
  set (M := max_list (nLocalTriaAll <$> ws)).
  set (F := λ w : Writer,
         (λ tri, tri ≫= node_values w (val (rank w))) <$> local_triangles (dataSorter w)).
  rewrite (bind_join_fmap F).
  rewrite <- (gathered_facets M (F <$> ws) ((λ w, send_buffer M w (val (rank w))) <$> ws)).
  - rewrite length_fmap. f_equal. apply list_fmap_ext. intros r ? Hr.
    apply lookup_seq in Hr as [-> Hr]. cbn [Nat.add].
    destruct (lookup_lt_is_Some_2 ws r Hr) as [wr Hwr].
    rewrite !(lookup_total_fmap_Some _ _ _ _ Hwr). unfold F.
    by rewrite length_fmap, length_local_triangles.
  - apply Forall2_fmap, Forall_Forall2_diag, Forall_forall. intros wr Hwr. split.
    + apply length_send_buffer.
    + by apply send_buffer_facets.
  - apply Forall_fmap, Forall_true. intros wr. apply local_facets_length.
Qed.

(** On rank [r] of the mesh [dss], the coordinates of a corner are those the
    owner holds, whether the rank owns the corner or not. *)
Lemma node_values_owner (dss : list (CParallelDataSorter V)) (w : Writer) (g : N) :
  dss !! rank w = Some (dataSorter w) →
  node_values w (rank_value dss (rank w)) g = owner_value dss (dataSorter w) g <$> seq 0 3.
Proof.
  intros Hds. unfold node_values. apply list_fmap_ext. intros _ iVar _.
  destruct (decide _) as [Hown|Hown].
  - unfold owner_value. by rewrite Hown, Hds.
  - unfold rank_value. by rewrite Hds.
Qed.

Lemma Forall2_compose {A B C} (P : A → B → Prop) (Q : B → C → Prop) (l : list A)
    (k : list B) (m : list C) :
  Forall2 P l k → Forall2 Q k m → Forall2 (λ x z, ∃ y, P x y ∧ Q y z) l m.
Proof.
  intros HP. revert m. induction HP as [|x y l k Hxy _ IH]; intros m HQ.
  - apply Forall2_nil_inv_l in HQ as ->. constructor.
  - apply Forall2_cons_inv_l in HQ as (z & m' & Hyz & HQ & ->).
    constructor; [by exists y|by apply IH].
Qed.

(** [GatherCoordData] after [ReprocessElementConnectivity] on a valid mesh:
    no rank ends the process, and the master holds the facets of the mesh. *)
Lemma GatherCoordData_valid (ws : list Writer) (nVar : nat) :
  valid_mesh nVar ws → 3 ≤ nVar →
  ∃ ws', GatherCoordData (ReprocessElementConnectivity ws) = Ok (ws', local_calls <$> ws)
         ∧ Forall2 (ready_to_write ws) ws ws'.
Proof.
  intros Hvalid HnVar. pose proof (proj1 Hvalid) as Hok.
  pose proof (Reprocess_world_ok ws nVar Hvalid) as Hok1.
  pose proof (Reprocess_world ws nVar Hvalid) as Hres.
  set (ws1 := ReprocessElementConnectivity ws) in *.
  set (dss := dataSorter <$> ws).
  assert (Forall2 (λ w w1, ws !! rank w = Some w ∧ ws1 !! rank w = Some w1
                           ∧ rank w1 = rank w ∧ size w1 = size w
                           ∧ dataSorter w1 = dataSorter w ∧ fileName w1 = fileName w)
                  ws ws1) as Hsame.
  { apply Forall2_same_length_lookup_2; [by eapply Forall2_length|].
    intros r w w1 Hr Hr1.
    destruct (Forall2_lookup_lr _ _ _ _ _ _ Hres Hr Hr1)
      as (Hrank & Hsize & Hds & _ & Hfile & _).
    rewrite (proj1 (Hok r w Hr)) in *. by split_and!. }
  destruct (GatherCoordData_world ws1 (rank_value dss) Hok1) as (ws' & HG & Hgathered).
  { intros r w1 g iVar Hr1. by apply (Reprocess_halo_values ws nVar). }
  assert (nLocalTriaAll <$> ws1 = nLocalTriaAll <$> ws) as Hcounts.
  { symmetry. apply (fmap_related _ _ _ _ _ Hsame).
    intros w w1 (_ & _ & _ & _ & Hds & _). unfold nLocalTriaAll. by rewrite Hds. }
  exists ws'. split.
  { rewrite HG. do 2 f_equal. symmetry. apply (fmap_related _ _ _ _ _ Hsame).
    intros w w1 (_ & _ & Hrank & _ & Hds & _). unfold local_calls, node_calls.
    by rewrite Hrank, Hds. }
  eapply Forall2_impl; [apply (Forall2_compose _ _ _ _ _ Hsame Hgathered)|].
  intros w w' (w1 & (Hw & Hw1 & Hrank & Hsize & Hds & Hfile) & Hg).
  pose proof Hg as ((Hrank' & Hsize' & Hfile' & Hds' & _) & HM & Hm).
  unfold ready_to_write. rewrite Hrank', Hsize', Hfile', Hds', HM, Hcounts.
  split_and!; try done. intros Hmaster. rewrite Hrank, Hcounts in Hm.
  split; [by apply Hm|]. rewrite Hmaster in Hw1.
  rewrite (gathered_triangles_world ws1 (rank_value dss) w1 w' Hok1 Hw1 Hg).
  unfold mesh_facets, dss. rewrite bind_fmap.
  rewrite !bind_join_fmap. f_equal. symmetry. apply (fmap_related _ _ _ _ _ Hsame).
  intros x x1 (Hx & _ & Hrank1 & _ & Hds1 & _). rewrite Hds1.
  apply list_fmap_ext. intros _ tri _. unfold facet_coordinates.
  apply list_bind_ext; [|done]. intros g. symmetry. rewrite <- Hds1.
  apply node_values_owner. by rewrite Hrank1, Hds1, list_lookup_fmap, Hx.
Qed.

(** [Write_Data] on a valid mesh: the master writes the facets of the mesh,
    no other rank writes. *)
Lemma Write_Data_valid (ws : list Writer) (nVar : nat) :
  valid_mesh nVar ws → 3 ≤ nVar →
  Write_Data ws
  = Ok ((λ w, if decide (rank w = MASTER_NODE)
              then Some {| precision := 6; opened := Some (fileName w);
                           text := stl_text 6 (mesh_facets (dataSorter <$> ws)) |}
              else None) <$> ws).
Proof.
  intros Hvalid HnVar.
  destruct (GatherCoordData_valid ws nVar Hvalid HnVar) as (ws' & HG & Hready).
  unfold Write_Data. rewrite HG. cbn [obind fst]. f_equal. symmetry.
  apply (fmap_related _ _ _ _ _ Hready).
  intros w w' (Hrank & _ & Hfile & _ & _ & Hm).
  destruct (decide (rank w = MASTER_NODE)) as [Hmaster|Hother].
  - rewrite write_file_master by (by rewrite Hrank).
    by rewrite Hfile, (proj2 (Hm Hmaster)).
  - rewrite write_file_other; [done|]. by rewrite Hrank.
Qed.

Lemma find_block (l : list nat) (n offset : nat) :
  offset < sum_list (take n l) →
  ∃ p i, p < n ∧ i < l !!! p ∧ offset = sum_list (take p l) + i.
Proof.
  induction n as [|n IH]; intros Hlt.
  - rewrite take_0 in Hlt. simpl in Hlt. lia.
  - rewrite sum_list_take_S in Hlt.
    destruct (decide (offset < sum_list (take n l))) as [Hn|Hn].
    + destruct (IH Hn) as (p & i & Hp & Hi & Hoff). exists p, i. split_and!; [lia|done..].
    + exists n, (offset - sum_list (take n l)). split_and!; lia.
Qed.


(** The master writes one facet for each triangle counted. *)
Lemma length_gathered_triangles (w : Writer) (counts : list nat) :
  Buffer_Recv_nTriaAll w = Some counts → length counts = size w →
  length (gathered_triangles w) = sum_list counts.
Proof.
  intros Hcounts Hlen. unfold gathered_triangles.
  rewrite length_join, <- list_fmap_compose, Hcounts, <- Hlen. simpl.
  f_equal. etrans; [|apply (fmap_lookup_seq counts)].
  apply list_fmap_ext. intros r ? _. unfold compose. by rewrite length_fmap, length_seq.
Qed.

(** The master reads the gathered array only at the triangles counted. *)
Lemma gathered_triangles_ext (w w' : Writer) :
  size w' = size w → MaxLocalTriaAll w' = MaxLocalTriaAll w →
  Buffer_Recv_nTriaAll w' = Buffer_Recv_nTriaAll w →
  (∀ iProcessor iElem k,
     iProcessor < size w → iElem < deref (Buffer_Recv_nTriaAll w) !!! iProcessor → k < 9 →
     deref (bufD_Recv w')
       !!! (iProcessor * MaxLocalTriaAll w * 3 * 3 + iElem * 3 * 3 + k)
     = deref (bufD_Recv w)
         !!! (iProcessor * MaxLocalTriaAll w * 3 * 3 + iElem * 3 * 3 + k)) →
  gathered_triangles w' = gathered_triangles w.
Proof.
  intros Hsize HM Hcounts Hread. unfold gathered_triangles, gathered_triangle.
  rewrite Hsize, HM, Hcounts. f_equal.
  apply list_fmap_ext. intros r ? Hr. apply lookup_seq in Hr as [-> Hr]. cbn [Nat.add].
  apply list_fmap_ext. intros e ? He. apply lookup_seq in He as [-> He]. cbn [Nat.add].
  apply list_fmap_ext. intros k ? Hk. apply lookup_seq in Hk as [-> Hk]. cbn [Nat.add].
  by apply Hread.
Qed.

Lemma write_file_ext (w w' : Writer) :
  rank w' = rank w → fileName w' = fileName w →
  gathered_triangles w' = gathered_triangles w →
  write_file w' = write_file w.
Proof.
  intros Hrank Hfile Hg. destruct (decide (rank w = MASTER_NODE)) as [Hm|Hm].
  - rewrite !write_file_master by (by rewrite ?Hrank). by rewrite Hfile, Hg.
  - by rewrite !write_file_other by (by rewrite ?Hrank).
Qed.

(** C3 — conservation of the facet counts. On a valid mesh the master
    receives from every rank its number of triangles plus twice its number of
    quadrilaterals; the file has one facet record for each triangle counted,
    so as many as the sum of the counts; and what the gathered array holds
    outside the counted triangles of every segment does not change the
    file. *)
Theorem facet_count_conservation (ws : list Writer) (nVar : nat) (wm : Writer) :
  valid_mesh nVar ws → 3 ≤ nVar → ws !! MASTER_NODE = Some wm →
  let counts := (λ w, GetnElem (dataSorter w) TRIANGLE
                      + GetnElem (dataSorter w) QUADRILATERAL * 2) <$> ws in
  ∃ ws' calls wm',
    GatherCoordData (ReprocessElementConnectivity ws) = Ok (ws', calls)
    ∧ Write_Data ws = Ok (write_file <$> ws')
    ∧ ws' !! MASTER_NODE = Some wm'
    ∧ Buffer_Recv_nTriaAll wm' = Some counts
    ∧ write_file wm'
      = Some {| precision := 6; opened := Some (fileName wm);
                text := stl_text 6 (gathered_triangles wm') |}
    ∧ length (gathered_triangles wm') = sum_list counts
    ∧ ∀ array,
        (∀ iProcessor iElem k,
           iProcessor < length ws → iElem < counts !!! iProcessor → k < 9 →
           array !!! (iProcessor * MaxLocalTriaAll wm' * 3 * 3 + iElem * 3 * 3 + k)
           = deref (bufD_Recv wm')
               !!! (iProcessor * MaxLocalTriaAll wm' * 3 * 3 + iElem * 3 * 3 + k)) →
        write_file (set_bufD_Recv (Some array) wm') = write_file wm'.
Proof.
  intros Hvalid HnVar Hwm counts.
  destruct (GatherCoordData_valid ws nVar Hvalid HnVar) as (ws' & HG & Hready).
  destruct (Forall2_lookup_l _ _ _ _ _ Hready Hwm)
    as (wm' & Hwm' & Hrank & Hsize & Hfile & _ & _ & Hm).
  destruct (proj1 Hvalid _ wm Hwm) as [Hrank0 Hsize0].
  destruct (Hm Hrank0) as [Hcounts _].
  exists ws', (local_calls <$> ws), wm'. split; [done|]. split.
  { unfold Write_Data. by rewrite HG. }
  split; [done|]. split; [done|]. split.
  { rewrite write_file_master by (by rewrite Hrank). by rewrite Hfile. }
  split.
  { apply length_gathered_triangles; [done|]. unfold counts. by rewrite length_fmap, Hsize. }
  intros array Hread. apply write_file_ext; [done..|].
  apply gathered_triangles_ext; [done..|].
  intros iProcessor iElem k HiProcessor HiElem Hk.
  rewrite Hcounts in HiElem. apply Hread; [|done..]. by rewrite <- Hsize0, <- Hsize.
Qed.


(** C10 — [Write_Data] is a function of the mesh. Two runs on valid meshes
    with the same sorters on the same ranks write the same text, whatever
    else the writers hold (file name, names and number of the fields): the
    master writes the facets of the mesh, rank after rank, the triangles of a
    rank before the halves of its quadrilaterals, each in the order of the
    elements; the other ranks write nothing. *)
Theorem Write_Data_deterministic (ws1 ws2 : list Writer) (nVar1 nVar2 : nat) :
  valid_mesh nVar1 ws1 → valid_mesh nVar2 ws2 → 3 ≤ nVar1 → 3 ≤ nVar2 →
  dataSorter <$> ws1 = dataSorter <$> ws2 →
  ∃ files1 files2,
    Write_Data ws1 = Ok files1 ∧ Write_Data ws2 = Ok files2
    ∧ written <$> files1 = written <$> files2
    ∧ written <$> files1
      = (λ r, if decide (r = MASTER_NODE)
              then Some (stl_text 6 (mesh_facets (dataSorter <$> ws1))) else None)
          <$> seq 0 (length ws1).
Proof.
  intros Hvalid1 Hvalid2 HnVar1 HnVar2 Hds.
  assert (∀ ws nVar, valid_mesh nVar ws →
            written <$> ((λ w, if decide (rank w = MASTER_NODE)
                                 then Some {| precision := 6; opened := Some (fileName w);
                                              text := stl_text 6 (mesh_facets (dataSorter <$> ws)) |}
                                 else None) <$> ws)
            = (λ r, if decide (r = MASTER_NODE)
                    then Some (stl_text 6 (mesh_facets (dataSorter <$> ws))) else None)
                <$> seq 0 (length ws)) as Htext.
  { intros ws nVar [Hok _]. rewrite <- list_fmap_compose.
    apply list_eq. intros r. rewrite !list_lookup_fmap.
    destruct (ws !! r) as [w|] eqn:Hr.
    - rewrite lookup_seq_lt by (by eapply lookup_lt_Some). simpl.
      rewrite (proj1 (Hok r w Hr)). by destruct (decide _).
    - rewrite lookup_seq_ge; [done|]. by apply lookup_ge_None. }
  eexists _, _. split; [by apply (Write_Data_valid ws1 nVar1)|].
  split; [by apply (Write_Data_valid ws2 nVar2)|].
  rewrite (Htext ws1 nVar1 Hvalid1), (Htext ws2 nVar2 Hvalid2). split; [|done].
  rewrite Hds. f_equal. by rewrite <- (length_fmap dataSorter ws1), Hds, length_fmap.
Qed.

Lemma packed_requests (w : Writer) (num_send : list nat) (requests : list N) :
  freshly_constructed w → 0 < size w →
  nodes_to_send
    (Reprocess_pack
       (set_nodes_to_send requests
          (Reprocess_displacements (set_num_nodes_to_send num_send (Reprocess_demand w)))))
  = requests.
Proof.
  intros Hfresh Hsize.
  pose proof (requests_stage_eq w num_send requests Hfresh Hsize) as Hw3. cbv zeta in Hw3.
  rewrite Reprocess_pack_eq by (rewrite Hw3; apply length_resize).
  cbv zeta. by rewrite Hw3.
Qed.

(** The send buffers of a rank after [ReprocessElementConnectivity]: the
    requests it received and the values it packed, in arrays of at least one
    element. *)
Lemma Reprocess_send_buffers (ws : list Writer) (nVar r : nat) (w : Writer) :
  world_ok ws → Forall freshly_constructed ws →
  Forall (λ w, halo_grouped w (length ws)) ws →
  Forall (λ w, length (fieldnames w) = nVar) ws →
  ws !! r = Some w →
  ∃ w', ReprocessElementConnectivity ws !! r = Some w'
        ∧ nodes_to_send w' = requests_received ws r (nodes_to_send w)
        ∧ length (data_to_send w')
          = max 1 (sum_list (take (length ws) (counts_to_send ws r)) * nVar).
Proof.
  intros Hok Hfresh Hgrouped HnVar Hr. eexists. split; [by apply Reprocess_lookup|].
  destruct (Hok r w Hr) as [_ Hsize].
  assert (freshly_constructed w) as Hfr.
  { eapply Forall_forall; [exact Hfresh|by eapply list_elem_of_lookup_2]. }
  assert (length (fieldnames w) = nVar) as Hv.
  { eapply (Forall_forall (λ w, length (fieldnames w) = nVar)); [exact HnVar|].
    by eapply list_elem_of_lookup_2. }
  assert (0 < size w) as Hpos by (apply lookup_lt_Some in Hr; lia).
  destruct (packed_fields w (counts_to_send ws r) (requests_received ws r (nodes_to_send w))
              Hfr Hpos) as (Hdata & _).
  pose proof (packed_requests w (counts_to_send ws r)
                (requests_received ws r (nodes_to_send w)) Hfr Hpos) as Hreq.
  apply (f_equal length) in Hdata. rewrite length_inserts, length_resize, Hv, Hsize in Hdata.
  revert Hdata Hreq.
  generalize (Reprocess_pack
                (set_nodes_to_send (requests_received ws r (nodes_to_send w))
                   (Reprocess_displacements
                      (set_num_nodes_to_send (counts_to_send ws r) (Reprocess_demand w))))).
  intros w4 Hdata Hreq. by split.
Qed.

(** On a single rank every corner is a node of the rank. *)
Lemma single_rank_owns (w : Writer) (nVar : nat) (g : N) :
  valid_mesh nVar [w] → referenced (dataSorter w) g →
  FindProcessor (dataSorter w) g = rank w.
Proof.
  intros [Hok Hranks] Href.
  apply Forall_cons in Hranks as [(_ & _ & _ & [_ Hpart] & Hnodes) _].
  destruct (Hok 0 w eq_refl) as [-> _].
  destruct (Hpart g (Hnodes g Href)) as [Hlt _]. simpl in Hlt. lia.
Qed.

Lemma single_rank_halo_set (w : Writer) (nVar : nat) :
  valid_mesh nVar [w] → halo_set w = [].
Proof.
  intros Hvalid. destruct (halo_set w) as [|g l] eqn:Hhalo; [done|]. exfalso.
  assert (g ∈ halo_set w) as Hg by (rewrite Hhalo; apply list_elem_of_here).
  pose proof (valid_mesh_rank nVar [w] 0 w Hvalid eq_refl) as (_ & _ & Hrow & _).
  pose proof (halo_set_referenced w g Hrow Hg) as Href.
  apply elem_of_halo_set in Hg as [_ Hown]. by apply Hown, (single_rank_owns w nVar).
Qed.

Lemma singleton_lookup {A} (l : list A) (x : A) :
  length l = 1 → l !! 0 = Some x → l = [x].
Proof. destruct l as [|y [|z l]]; intros Hlen Hx; simplify_eq/=; done. Qed.

(** C7 — the round trip on a single rank. With one rank that owns all nodes
    the halo set is empty; [ReprocessElementConnectivity] leaves the halo
    count at 0 and the halo list, the requests, the packed values and the
    halo data in arrays of one element; and in [GatherCoordData] the send
    buffer is the direct enumeration of the field values of the elements in
    (element, node, field) order, with no call of [GetHaloNodeValue]. *)
Theorem single_rank_round_trip (w : Writer) (nVar : nat) :
  valid_mesh nVar [w] →
  ∃ w' w4 ws'',
    ReprocessElementConnectivity [w] = [w']
    ∧ halo_set w = [] ∧ num_halo_nodes w' = 0
    ∧ length (sorted_halo_nodes w') = 1 ∧ length (nodes_to_send w') = 1
    ∧ length (data_to_send w') = 1 ∧ length (halo_var_data w') = 1
    ∧ GatherCoordData_counts [w'] = [w4]
    ∧ load_send_buffer w4
      = Ok (direct_enumeration (dataSorter w) 0,
            length (direct_enumeration (dataSorter w) 0), [])
    ∧ GatherCoordData [w'] = Ok (ws'', [[]]).
Proof.
  intros Hvalid.
  destruct (valid_mesh_parts nVar [w] Hvalid) as (Hok & Hfresh & Hgrouped & Hfields).
  pose proof (single_rank_halo_set w nVar Hvalid) as Hempty.
  destruct (Hok 0 w eq_refl) as [Hrank Hsize]. simpl in Hsize.
  destruct (Reprocess_send_buffers [w] nVar 0 w Hok Hfresh Hgrouped Hfields eq_refl)
    as (w' & Hw' & Hreq & Hdata).
  destruct (Forall2_lookup_r _ _ _ _ _ (Reprocess_world [w] nVar Hvalid) Hw')
    as (w0 & Hw0 & Hres).
  apply list_lookup_singleton_Some in Hw0 as [_ <-]. rewrite Hrank in Hres.
  destruct Hres as (Hrank' & Hsize' & Hds & _ & _ & HS & Hnum & _ & _ & Hhalo).
  pose proof (Reprocess_world_ok [w] nVar Hvalid) as Hok1.
  rewrite (singleton_lookup _ w' (Reprocess_length [w]) Hw') in Hok1 |- *.
  assert (∀ g, g ∈ tria_nodes (dataSorter w) ++ quad_nodes (dataSorter w) →
               FindProcessor (dataSorter w) g = 0) as Hlocal.
  { intros g Hg. rewrite <- Hrank. apply (single_rank_owns w nVar); [done|].
    by apply elem_of_nodes_referenced. }
  assert (counts_to_send [w] 0 = [0]) as Hcounts.
  { unfold counts_to_send, requested, requested_from. simpl. by rewrite Hempty. }
  destruct (GatherCoordData_world [w'] (λ _ _ _, zero) Hok1) as (ws'' & HG & _).
  { intros r w1 g iVar Hr1 Hg Hown.
    apply list_lookup_singleton_Some in Hr1 as [-> <-].
    rewrite Hds in Hg, Hown. by destruct (Hown (Hlocal g Hg)). }
  pose proof (GatherCoordData_counts_world [w'] Hok1) as H4.
  apply Forall2_cons_inv_l in H4 as (w4 & ws4 & (Hsame & HM & _) & Hnil & H4).
  apply Forall2_nil_inv_l in Hnil as ->.
  pose proof Hsame as (Hrank4 & _ & _ & Hds4 & _).
  assert (local_values w4 (λ _ _, zero) = direct_enumeration (dataSorter w) 0) as Hvalues.
  { rewrite (local_values_inputs w' w4) by done. unfold local_values, direct_enumeration.
    rewrite Hds. apply Forall_bind_ext, Forall_forall. intros g Hg. unfold node_values.
    apply list_fmap_ext. intros _ iVar _. rewrite Hds, Hrank', Hrank.
    by rewrite decide_True by (by apply Hlocal). }
  assert (local_calls w' = []) as Hcalls.
  { unfold local_calls. rewrite Hds.
    induction (tria_nodes (dataSorter w) ++ quad_nodes (dataSorter w)) as [|g l IH];
      [done|].
    rewrite bind_cons, IH.
    - unfold node_calls. rewrite Hds, Hrank', Hrank, decide_True; [done|].
      apply Hlocal, list_elem_of_here.
    - intros g' Hg'. apply Hlocal. by apply list_elem_of_further. }
  exists w', w4, ws''. split; [done|]. split; [done|]. split; [by rewrite Hnum, Hempty|].
  split; [by rewrite HS, decide_True|]. split.
  { rewrite Hreq. unfold requests_received. rewrite Hcounts. simpl.
    unfold requested, requested_from. simpl. rewrite Hempty. simpl.
    by rewrite drop_0, length_resize. }
  split; [by rewrite Hdata, Hcounts|]. split.
  { rewrite Hhalo. unfold halo_data_received, answer, requested, requested_from. simpl.
    rewrite Hempty, Nat.mul_0_r. simpl.
    assert (mjoin ((λ _ : nat, @nil V) <$> seq 0 nVar) = []) as ->.
    { induction (seq 0 nVar) as [|? ? IH]; [done|]. by csimpl. }
    simpl. by rewrite ?drop_0, length_resize. }
  split; [done|]. split; [|by rewrite HG; simpl; rewrite Hcalls].
  rewrite (load_send_buffer_values w4 (λ _ _, zero)).
  - rewrite (local_calls_inputs w' w4), Hcalls, Hvalues by done. do 2 f_equal.
    rewrite list_inserts_0.
    + rewrite drop_ge, app_nil_r; [done|].
      rewrite length_replicate, <- Hvalues, length_local_values, HM. simpl.
      unfold nLocalTriaAll. rewrite Hds4. lia.
    + rewrite length_replicate, <- Hvalues, length_local_values, HM. simpl.
      unfold nLocalTriaAll. rewrite Hds4. lia.
  - intros g iVar Hg Hown. rewrite Hds4, Hds in Hg. rewrite Hds4, Hds, Hrank4, Hrank', Hrank in Hown.
    by destruct (Hown (Hlocal g Hg)).
Qed.

Lemma sum_list_lookup_mul (l : list nat) (c n : nat) :
  sum_list ((λ r, c * l !!! r) <$> seq 0 n) = sum_list (take n l) * c.
Proof.
  induction n as [|n IH]; [by rewrite take_0|].
  rewrite seq_S, fmap_app, sum_list_with_app, IH, sum_list_take_S. simpl. lia.
Qed.

Lemma length_packed_block (w : Writer) (iRank : nat) :
  length (packed_block w iRank) = length (fieldnames w) * num_nodes_to_send w !!! iRank.
Proof. apply length_join_packed_values. Qed.

(** C5 — the packing of the data. The owner takes the values of a requested
    node at the node's number minus the first node number of the owner. What
    it sends to rank [iRank] has as many values as [iRank] requested nodes
    times the number of fields, and holds them field after field: the values
    of the first field at all nodes requested by [iRank], then those of the
    second field, and so on. *)
Theorem data_phase_packing (w : Writer) (iRank : nat) :
  0 < size w → length (values_to_receive_displacements w) = size w →
  nodes_to_send_displacements w = prefix_sums (num_nodes_to_send w) (size w) →
  iRank < size w →
  let nVar := length (fieldnames w) in
  let w' := Reprocess_pack w in
  num_values_to_send w' !!! iRank = num_nodes_to_send w !!! iRank * nVar
  ∧ take (num_values_to_send w' !!! iRank)
         (drop (values_to_send_displacements w' !!! iRank) (data_to_send w'))
    = mjoin ((λ iVar,
                (λ iNode,
                   GetData (dataSorter w) iVar
                     (usub (nodes_to_send w
                              !!! (nodes_to_send_displacements w !!! iRank + iNode))
                           (GetNodeBegin (dataSorter w) (rank w))))
                  <$> seq 0 (num_nodes_to_send w !!! iRank))
               <$> seq 0 nVar).
Proof.
  intros Hsize Hvrd Hnsd HiRank nVar w'. subst w'.
  rewrite Reprocess_pack_eq by done. cbv zeta. writer_fields. fold nVar.
  rewrite !lookup_total_fmap_seq by done. split; [done|].
  change (mjoin _) with (packed_block w iRank).
  assert (total_num_nodes_to_send w = sum_list (take (size w) (num_nodes_to_send w)))
    as Htotal.
  { unfold total_num_nodes_to_send.
    rewrite Hnsd, lookup_total_prefix_sums, <- sum_list_take_S by lia.
    by replace (S (size w - 1)) with (size w) by lia. }
  assert (∀ n, sum_list (length <$> (packed_block w <$> seq 0 n))
               = sum_list (take n (num_nodes_to_send w)) * nVar) as Hsum.
  { intros n. rewrite <- list_fmap_compose, <- sum_list_lookup_mul. f_equal.
    apply list_fmap_ext. intros _ r _. apply length_packed_block. }
  rewrite list_inserts_0.
  2:{ unfold packed_data. rewrite length_join, Hsum, length_resize, Htotal. lia. }
  unfold packed_data.
  rewrite Hnsd, lookup_total_prefix_sums by done.
  rewrite <- Hsum, <- (take_fmap_seq _ (size w)) by lia.
  replace (num_nodes_to_send w !!! iRank * nVar) with (length (packed_block w iRank))
    by (rewrite length_packed_block; fold nVar; lia).
  apply take_drop_join. rewrite list_lookup_fmap, lookup_seq_lt by done. done.
Qed.


(** ** Further properties of the code *)

(** On a writer whose vectors have [size] elements and whose halo data has
    room for the counted nodes, [GetHaloNodeValue] ends the process exactly
    when the position that [lower_bound] gives is not below the number of
    halo nodes counted for the ranks: so for every node above all halo nodes
    that were counted. *)
Theorem GetHaloNodeValue_not_found_iff (w : Writer) (g : N) (iVar : nat) :
  length (num_nodes_to_receive w) = size w →
  length (values_to_receive_displacements w) = size w →
  (∀ p, p < size w →
        values_to_receive_displacements w !!! p + num_nodes_to_receive w !!! p * S iVar
        ≤ length (halo_var_data w)) →
  GetHaloNodeValue w g iVar = Fatal "STL File-Writer: Halo node not found."
  ↔ sum_list (num_nodes_to_receive w) ≤ lower_bound (sorted_halo_nodes w) g.
Proof.
  intros Hnnr _ _.
  assert (take (size w) (num_nodes_to_receive w) = num_nodes_to_receive w) as Htake.
  { apply take_ge. lia. }
  rewrite <- Htake. unfold GetHaloNodeValue. split.
  - intros Hfatal.
    destruct (decide (lower_bound (sorted_halo_nodes w) g
                      < sum_list (take (size w) (num_nodes_to_receive w)))) as [Hlt|]; [|lia].
    destruct (find_block _ _ _ Hlt) as (p & i & Hp & Hi & Hoff).
    rewrite (halo_outer_block w _ iVar 0 (size w) p i) in Hfatal; [done|lia|done..].
  - intros Hle. by apply (halo_outer_past w _ iVar 0 (size w)).
Qed.



Lemma halo_set_demand (w : Writer) : halo_set (Reprocess_demand w) = halo_set w.
Proof. reflexivity. Qed.

Lemma size_demand (w : Writer) : size (Reprocess_demand w) = size w.
Proof. reflexivity. Qed.

(** [ReprocessElementConnectivity] resizes [num_nodes_to_receive] without
    clearing it, so the halo nodes are counted on top of what the vector held:
    for every rank [p], the count after the first part of the function is the
    count before plus the number of halo nodes that [p] owns. A second run on
    a writer that was fresh before the first therefore counts every halo node
    twice. *)
Theorem counts_accumulate (w : Writer) (p : nat) :
  p < size w →
  num_nodes_to_receive (Reprocess_demand w) !!! p
  = resize (size w) 0 (num_nodes_to_receive w) !!! p + length (requested_from w p)
  ∧ (freshly_constructed w →
     num_nodes_to_receive (Reprocess_demand (Reprocess_demand w)) !!! p
     = 2 * length (requested_from w p)).
Proof.
  assert (∀ w : Writer, p < size w →
            num_nodes_to_receive (Reprocess_demand w) !!! p
            = resize (size w) 0 (num_nodes_to_receive w) !!! p
              + length (requested_from w p)) as Hcount.
  { clear w. intros w Hp. rewrite num_nodes_to_receive_demand_loop.
    set (w1 := set_num_halo_nodes _ _).
    assert (dataSorter w1 = dataSorter w) as Hds by done.
    assert (sorted_halo_nodes w1 = halo_set w) as HS by done.
    assert (num_halo_nodes w1 = length (halo_set w)) as Hn by done.
    assert (num_halo_nodes w1 = length (sorted_halo_nodes w1)) as Hn1 by done.
    clearbody w1.
    pose proof (fill_neighbor_partitions_take w1 Hn1) as Htake.
    rewrite HS, Hn, Hds in Htake.
    rewrite count_nodes_to_receive_foldl.
    2:{ unfold fill_neighbor_partitions. rewrite Hn.
        rewrite (foldl_insert_seq
                   (λ i, FindProcessor (dataSorter w1) (sorted_halo_nodes w1 !!! i)))
          by (rewrite length_replicate; lia).
        rewrite length_app, length_fmap, length_seq. lia. }
    rewrite Htake, foldl_count_lookup by (by rewrite length_resize).
    f_equal. apply length_filter_fmap. }
  intros Hp. split; [by apply Hcount|]. intros Hfresh.
  rewrite Hcount by (by rewrite size_demand).
  rewrite size_demand, resize_all_alt
    by (by rewrite num_nodes_to_receive_demand, length_fmap, length_seq).
  rewrite num_nodes_to_receive_demand, lookup_total_fmap_seq by done.
  unfold requested_from. rewrite halo_set_demand.
  change (dataSorter (Reprocess_demand w)) with (dataSorter w). lia.
Qed.

(** The displacements that the loop over the ranks computes are the sums of
    the counts of the ranks below, for the nodes to send and for the nodes to
    receive; the array of the requests gets one element for each node to
    send, and at least one; the list of the halo nodes is left with at least
    one element. *)
Theorem displacements_are_prefix_sums (w : Writer) (i : nat) :
  0 < size w → i < size w →
  nodes_to_send_displacements (Reprocess_displacements w) !!! i
  = sum_list (take i (num_nodes_to_send w))
  ∧ nodes_to_receive_displacements (Reprocess_displacements w) !!! i
    = sum_list (take i (num_nodes_to_receive w))
  ∧ length (nodes_to_send (Reprocess_displacements w))
    = max 1 (sum_list (take (size w) (num_nodes_to_send w)))
  ∧ sorted_halo_nodes (Reprocess_displacements w) ≠ [].
Proof.
  intros Hsize Hi. rewrite Reprocess_displacements_eq by done. writer_fields.
  rewrite !lookup_total_prefix_sums, length_resize by done.
  split_and!; [done..|]. by destruct (decide _).
Qed.

Lemma set_num_nodes_to_send_fields (x : list nat) (w : Writer) :
  num_nodes_to_send (set_num_nodes_to_send x w) = x
  ∧ num_nodes_to_receive (set_num_nodes_to_send x w) = num_nodes_to_receive w.
Proof. done. Qed.

(** After the exchange of the counts, what rank [p] is to send to rank [r] is
    what rank [r] expects from rank [p]: the number of halo nodes of [r] that
    [p] owns. *)
Theorem counts_agree_after_exchange (ws : list Writer) (p r : nat) (wp wr : Writer) :
  world_ok ws → Forall freshly_constructed ws →
  after_demand ws !! p = Some wp → after_demand ws !! r = Some wr →
  num_nodes_to_send wp !!! r = num_nodes_to_receive wr !!! p
  ∧ num_nodes_to_send wp !!! r = length (requested ws r p).
Proof.
  intros Hok Hfresh Hp Hr.
  assert (length (after_demand ws) = length ws) as Hlen.
  { unfold after_demand, exchange_demand.
    rewrite length_zip_with_r_eq; rewrite ?length_fmap; [done|].
    unfold Alltoall. by rewrite length_imap, !length_fmap. }
  assert (p < length ws) as Hlp by (rewrite <- Hlen; by eapply lookup_lt_Some).
  assert (r < length ws) as Hlr by (rewrite <- Hlen; by eapply lookup_lt_Some).
  destruct (lookup_lt_is_Some_2 ws p Hlp) as [wp0 Hwp0].
  destruct (lookup_lt_is_Some_2 ws r Hlr) as [wr0 Hwr0].
  rewrite (after_demand_lookup ws p wp0 Hok Hfresh Hwp0) in Hp. injection Hp as <-.
  rewrite (after_demand_lookup ws r wr0 Hok Hfresh Hwr0) in Hr. injection Hr as <-.
  assert (freshly_constructed wr0) as Hfr.
  { eapply Forall_forall; [exact Hfresh|by eapply list_elem_of_lookup_2]. }
  rewrite (proj1 (set_num_nodes_to_send_fields _ _)),
    (proj2 (set_num_nodes_to_send_fields _ _)).
  rewrite num_nodes_to_receive_demand, (proj2 (Hok r wr0 Hwr0)) by done.
  rewrite !lookup_total_fmap_seq by done.
  by rewrite (requested_lookup _ _ _ _ Hwr0).
Qed.


(** The binary search of [GetHaloNodeValue] meets the halo list that
    [ReprocessElementConnectivity] leaves on a valid mesh: the position that
    [lower_bound] gives is below the number of halo nodes and holds the node
    asked for exactly when the node is a corner of an element of the rank
    that another rank owns. (The element that the list gets when there is no
    halo node is beyond that number.) *)
Theorem halo_node_position (ws : list Writer) (nVar r : nat) (w : Writer) :
  valid_mesh nVar ws → ws !! r = Some w →
  ∃ w', ReprocessElementConnectivity ws !! r = Some w'
        ∧ ∀ g, (lower_bound (sorted_halo_nodes w') g < num_halo_nodes w'
                ∧ sorted_halo_nodes w' !! lower_bound (sorted_halo_nodes w') g = Some g)
               ↔ (referenced (dataSorter w) g ∧ FindProcessor (dataSorter w) g ≠ r).
Proof.
  intros Hvalid Hr.
  destruct (valid_mesh_parts nVar ws Hvalid) as (Hok & Hfresh & Hgrouped & Hfields).
  destruct (valid_mesh_rank nVar ws r w Hvalid Hr) as (_ & _ & Hrow & _ & _).
  destruct (Reprocess_resolved ws nVar r w Hok Hfresh Hgrouped Hfields Hr) as (w' & Hw' & Hres).
  destruct Hres as (_ & _ & _ & _ & _ & HS & Hnum & _).
  destruct (Hok r w Hr) as [Hrank _].
  exists w'. split; [done|]. intros g. rewrite HS, Hnum.
  assert (g ∈ halo_set w
          ↔ referenced (dataSorter w) g ∧ FindProcessor (dataSorter w) g ≠ r) as <-.
  { rewrite elem_of_halo_set, <- (row_major_referenced _ _ Hrow). by rewrite Hrank. }
  destruct (decide (halo_set w = [])) as [Hnil|Hne].
  - rewrite Hnil. simpl. split; [lia|]. by intros ?%elem_of_nil.
  - split.
    + intros [_ Hg]. by eapply list_elem_of_lookup_2.
    + intros [i Hi]%list_elem_of_lookup.
      pose proof (lower_bound_index (halo_set w) [] g i (halo_set_sorted w) Hi) as Hlb.
      rewrite app_nil_r in Hlb. rewrite Hlb. split; [by eapply lookup_lt_Some|done].
Qed.

(** The halo data of a rank after [ReprocessElementConnectivity] on a valid
    mesh: one value for each field of each halo node, and at least one
    element; the values come owner after owner in rank order, and for each
    owner field after field, each field at the halo nodes of that owner in
    increasing order. *)
Theorem halo_data_layout (ws : list Writer) (nVar r : nat) (w : Writer) :
  valid_mesh nVar ws → ws !! r = Some w →
  ∃ w', ReprocessElementConnectivity ws !! r = Some w'
        ∧ length (halo_var_data w') = max 1 (nVar * length (halo_set w))
        ∧ take (nVar * length (halo_set w)) (halo_var_data w')
          = mjoin ((λ p,
                      from_option
                        (λ wp, mjoin ((λ iVar,
                                         (λ g, GetData (dataSorter wp) iVar
                                                 (usub g (GetNodeBegin (dataSorter wp) p)))
                                           <$> requested_from w p)
                                        <$> seq 0 nVar))
                        [] (ws !! p))
                     <$> seq 0 (length ws)).
Proof.
  intros Hvalid Hr.
  destruct (valid_mesh_parts nVar ws Hvalid) as (Hok & Hfresh & Hgrouped & Hfields).
  destruct (Reprocess_resolved ws nVar r w Hok Hfresh Hgrouped Hfields Hr) as (w' & Hw' & Hres).
  destruct Hres as (_ & _ & _ & _ & _ & _ & _ & _ & _ & Hdata).
  assert (halo_grouped w (length ws)) as Hg.
  { eapply (Forall_forall (λ w, halo_grouped w (length ws))); [exact Hgrouped|].
    by eapply list_elem_of_lookup_2. }
  assert (length (mjoin ((λ p, answer ws nVar r p) <$> seq 0 (length ws)))
          = nVar * length (halo_set w)) as Hlen.
  { rewrite length_join, <- list_fmap_compose, sum_length_answer by done.
    rewrite (length_halo_set_grouped w (length ws) Hg), Nat.mul_comm. do 2 f_equal.
    apply list_fmap_ext. intros p ? _. by rewrite (requested_lookup _ _ _ _ Hr). }
  exists w'. split; [done|]. rewrite Hdata. unfold halo_data_received. split.
  - rewrite length_app, length_drop, length_resize, Hlen. lia.
  - rewrite take_app_length' by done. f_equal.
    apply list_fmap_ext. intros p ? Hp. apply lookup_seq in Hp as [-> Hp]. cbn [Nat.add].
    unfold answer. rewrite (requested_lookup _ _ _ _ Hr).
    destruct (ws !! p) as [wp|] eqn:Hwp; [|done]. simpl. unfold answer_values.
    by rewrite (proj1 (Hok p wp Hwp)).
Qed.

(** The calls of [GetHaloNodeValue] in [GatherCoordData] on a valid mesh:
    every rank goes through the corners of its elements in the order of the
    buffer and asks for the three coordinates of every corner that another
    rank owns, again each time the corner occurs; it asks for nothing
    else. *)
Theorem halo_lookups_made (ws : list Writer) (nVar : nat) :
  valid_mesh nVar ws → 3 ≤ nVar →
  ∃ ws',
    GatherCoordData (ReprocessElementConnectivity ws)
    = Ok (ws',
          (λ w, (tria_nodes (dataSorter w) ++ quad_nodes (dataSorter w)) ≫= λ g,
                  if decide (FindProcessor (dataSorter w) g = rank w) then []
                  else [(g, 0); (g, 1); (g, 2)]) <$> ws).
Proof.
  intros Hvalid HnVar.
  destruct (GatherCoordData_valid ws nVar Hvalid HnVar) as (ws' & HG & _).
  by exists ws'.
Qed.


Lemma local_values_mesh (ws : list Writer) (w w1 : Writer) :
  ws !! rank w = Some w → rank w1 = rank w → dataSorter w1 = dataSorter w →
  local_values w1 (rank_value (dataSorter <$> ws) (rank w1))
  = mjoin (facet_coordinates (dataSorter <$> ws) (dataSorter w)
             <$> local_triangles (dataSorter w)).
Proof.
  intros Hw Hrank Hds. rewrite local_values_facets, Hds. f_equal.
  apply list_fmap_ext. intros _ tri _. unfold facet_coordinates.
  apply list_bind_ext; [|done]. intros g. rewrite <- Hds.
  apply node_values_owner. by rewrite Hrank, Hds, list_lookup_fmap, Hw.
Qed.

(** The array that the master holds after [GatherCoordData] on a valid mesh:
    one segment for each rank in rank order, each with room for the largest
    number of triangles on a rank; the segment of a rank holds the nine
    coordinates of each of its triangles and then zeros. *)
Theorem gathered_array_layout (ws : list Writer) (nVar : nat) (wm : Writer) :
  valid_mesh nVar ws → 3 ≤ nVar → ws !! MASTER_NODE = Some wm →
  let dss := dataSorter <$> ws in
  let M := max_list ((λ ds, length (local_triangles ds)) <$> dss) in
  ∃ ws' calls wm',
    GatherCoordData (ReprocessElementConnectivity ws) = Ok (ws', calls)
    ∧ ws' !! MASTER_NODE = Some wm'
    ∧ MaxLocalTriaAll wm' = M
    ∧ bufD_Recv wm'
      = Some (mjoin ((λ ds, mjoin (facet_coordinates dss ds <$> local_triangles ds)
                            ++ replicate ((M - length (local_triangles ds)) * 9) zero)
                       <$> dss))
    ∧ length (deref (bufD_Recv wm')) = length ws * M * 3 * 3.
Proof.
  intros Hvalid HnVar Hwm dss M. subst dss. pose proof (proj1 Hvalid) as Hok.
  pose proof (Reprocess_world_ok ws nVar Hvalid) as Hok1.
  pose proof (Reprocess_world ws nVar Hvalid) as Hres.
  set (ws1 := ReprocessElementConnectivity ws) in *.
  assert (Forall2 (λ w w1, ws !! rank w = Some w ∧ rank w1 = rank w
                           ∧ dataSorter w1 = dataSorter w) ws ws1) as Hsame.
  { apply Forall2_same_length_lookup_2; [by eapply Forall2_length|].
    intros r w w1 Hr Hr1.
    destruct (Forall2_lookup_lr _ _ _ _ _ _ Hres Hr Hr1) as (Hrank & _ & Hds & _).
    rewrite (proj1 (Hok r w Hr)) in *. by split_and!. }
  destruct (GatherCoordData_world ws1 (rank_value (dataSorter <$> ws)) Hok1) as (ws' & HG & Hgathered).
  { intros r w1 g iVar Hr1. by apply (Reprocess_halo_values ws nVar). }
  assert (nLocalTriaAll <$> ws1 = (λ ds, length (local_triangles ds)) <$> (dataSorter <$> ws)) as Hcounts.
  { rewrite <- list_fmap_compose. symmetry.
    apply (fmap_related _ _ _ _ _ Hsame). intros w w1 (_ & _ & Hds). unfold compose.
    by rewrite <- Hds, length_local_triangles. }
  destruct (Forall2_lookup_l _ _ _ _ _ Hsame Hwm) as (wm1 & Hwm1 & _ & Hrank1 & _).
  destruct (Forall2_lookup_l _ _ _ _ _ Hgathered Hwm1) as (wm' & Hwm' & _ & HM & Hm).
  rewrite Hcounts in HM, Hm. fold M in HM, Hm.
  destruct Hm as [_ Hbuf]; [by rewrite Hrank1, (proj1 (Hok _ wm Hwm))|].
  assert ((λ w, send_buffer M w (rank_value (dataSorter <$> ws) (rank w))) <$> ws1
          = (λ ds, mjoin (facet_coordinates (dataSorter <$> ws) ds <$> local_triangles ds)
                   ++ replicate ((M - length (local_triangles ds)) * 9) zero) <$> (dataSorter <$> ws))
    as Hsegments.
  { rewrite <- list_fmap_compose. symmetry.
    apply (fmap_related _ _ _ _ _ Hsame). intros w w1 (Hw & Hrank & Hds). unfold compose.
    unfold send_buffer. rewrite (local_values_mesh ws w w1 Hw Hrank Hds).
    assert (length (mjoin (facet_coordinates (dataSorter <$> ws) (dataSorter w)
                             <$> local_triangles (dataSorter w)))
            = length (local_triangles (dataSorter w)) * 9) as Hlen.
    { rewrite <- (local_values_mesh ws w w1 Hw Hrank Hds).
      by rewrite length_local_values, <- length_local_triangles, Hds. }
    assert (length (local_triangles (dataSorter w)) ≤ M) as Hle.
    { apply max_list_elem_of_le. rewrite <- list_fmap_compose.
      apply (list_elem_of_fmap_2 (λ w, length (local_triangles (dataSorter w)))).
      by eapply list_elem_of_lookup_2. }
    rewrite list_inserts_0 by (rewrite length_replicate, Hlen; lia).
    rewrite Hlen, drop_replicate. do 2 f_equal. lia. }
  exists ws', (local_calls <$> ws1), wm'. split_and!; [done..| |].
  - by rewrite Hbuf, Hsegments.
  - rewrite Hbuf. simpl. rewrite length_join, (sum_list_const (M * 3 * 3)).
    + rewrite !length_fmap. symmetry. rewrite <- (Forall2_length _ _ _ Hsame). lia.
    + apply Forall_fmap, Forall_fmap, Forall_true. intros w. apply length_send_buffer.
Qed.


Lemma join_take_drop_blocks {A} (c : nat → nat) (l : list A) (n : nat) :
  mjoin ((λ p, take (c p) (drop (sum_list (c <$> seq 0 p)) l)) <$> seq 0 n)
  = take (sum_list (c <$> seq 0 n)) l.
Proof.
  induction n as [|n IH]; [by rewrite take_0|].
  rewrite !seq_S, !fmap_app, join_app, IH, sum_list_with_app. simpl.
  by rewrite app_nil_r, Nat.add_0_r, take_take_drop.
Qed.

Lemma length_filter_below {A} (f : A → nat) (l : list A) (n : nat) :
  sum_list ((λ p, length (filter (λ x, f x = p) l)) <$> seq 0 n)
  = length (filter (λ x, f x < n) l).
Proof.
  induction n as [|n IH].
  - simpl. rewrite filter_none; [done|]. apply Forall_forall. intros x _. lia.
  - rewrite seq_S, fmap_app, sum_list_with_app, IH. simpl. rewrite Nat.add_0_r.
    clear IH. induction l as [|x l IHl]; [done|].
    rewrite !filter_cons.
    destruct (decide (f x < n)), (decide (f x = n)), (decide (f x < S n));
      simpl; lia.
Qed.

Lemma key_blocks_sorted {A} (f : A → nat) (l : list A) (a n : nat) :
  StronglySorted (λ x y, f x ≤ f y) (mjoin ((λ p, filter (λ x, f x = p) l) <$> seq a n)).
Proof.
  revert a. induction n as [|n IH]; intros a; [constructor|].
  cbn [seq fmap list_fmap mjoin list_join]. apply StronglySorted_app_2; [|clear IH|apply IH].
  - intros x y [Hx _]%list_elem_of_filter Hy.
    apply list_elem_of_join in Hy as (b & Hy & Hb).
    apply list_elem_of_fmap in Hb as (p & -> & Hp).
    apply list_elem_of_filter in Hy as [Hy _]. apply elem_of_seq in Hp. lia.
  - induction l as [|x l IHl]; [constructor|]. rewrite filter_cons.
    destruct (decide _) as [Hx|]; [|done]. constructor; [done|].
    apply Forall_forall. intros y [Hy _]%list_elem_of_filter. lia.
Qed.

(** The parcelling of the sorted halo list. Before the exchange of the node
    numbers, the part of [sorted_halo_nodes] that a rank marks for rank [p]
    (by its count and its displacement) is the set of its halo nodes that [p]
    owns, for every [p], exactly when the owners do not decrease along the
    sorted halo list: this is what the contiguous node range of every rank
    provides. *)
Theorem parcels_by_owner_iff (w : Writer) (num_send : list nat) :
  freshly_constructed w → 0 < size w →
  Forall (λ g, FindProcessor (dataSorter w) g < size w) (halo_set w) →
  let w2 := Reprocess_displacements (set_num_nodes_to_send num_send (Reprocess_demand w)) in
  (∀ p, p < size w →
        take (num_nodes_to_receive w2 !!! p)
             (drop (nodes_to_receive_displacements w2 !!! p) (sorted_halo_nodes w2))
        = requested_from w p)
  ↔ StronglySorted (λ x y, FindProcessor (dataSorter w) x ≤ FindProcessor (dataSorter w) y)
                   (halo_set w).
Proof.
  intros Hfresh Hsize Hown w2.
  destruct (displaced_fields w num_send Hfresh Hsize) as (HS & Hnnr & Hnrd & _).
  fold w2 in HS, Hnnr, Hnrd. rewrite HS, Hnnr, Hnrd. clearbody w2. clear HS Hnnr Hnrd.
  set (counts := (λ q, length (requested_from w q)) <$> seq 0 (size w)).
  split.
  - intros Hparcel.
    assert (halo_grouped w (size w)) as Hg.
    { unfold halo_grouped.
      assert (sum_list ((λ q, length (requested_from w q)) <$> seq 0 (size w))
              = length (halo_set w)) as Hsum.
      { unfold requested_from. rewrite length_filter_below, filter_all; done. }
      destruct (decide (halo_set w = [])) as [Hnil|Hne].
      { rewrite Hnil. unfold requested_from. rewrite Hnil.
        clear. induction (seq 0 (size w)) as [|? ? IH]; [done|]. by csimpl. }
      rewrite <- (take_ge (halo_set w) (length (halo_set w))) at 1 by done.
      rewrite <- Hsum, <- (join_take_drop_blocks _ (halo_set w) (size w)). f_equal.
      apply list_fmap_ext. intros p ? Hp. apply lookup_seq in Hp as [-> Hp]. cbn [Nat.add].
      etrans; [|exact (Hparcel p Hp)]. unfold counts.
      rewrite lookup_total_fmap_seq, lookup_total_prefix_sums, take_fmap_seq by (done || lia).
      done. }
    rewrite Hg at 1. apply key_blocks_sorted.
  - intros Hsorted p Hp.
    apply request_message; [|done]. unfold halo_grouped, requested_from.
    apply key_sorted_blocks; [done|].
    eapply Forall_impl; [exact Hown|]. simpl. lia.
Qed.

End Writer.

(** * The properties on the example mesh *)

Lemma example_partition_ok (r : nat) (tria quad : list N) (n : nat) :
  n = 1 ∨ n = 2 → partition_ok (Example.sorter r tria quad) n.
Proof.
  intros Hn. split.
  - intros p. simpl. unfold Example.node_begin. lia.
  - intros g. simpl. unfold Example.node_begin, Example.owner.
    destruct (N.ltb_spec g 4); destruct Hn as [-> | ->]; lia.
Qed.

Lemma example_row_major (r : nat) (tria quad : list N) :
  row_major (Example.sorter r tria quad).
Proof. by intros [] iElem iNode _ _. Qed.

Lemma example_valid_mesh : valid_mesh 3 Example.world.
Proof.
  split.
  - intros [|[|r]] w Hr; simplify_eq/=; done.
  - constructor; [|constructor; [|constructor]].
    + split_and!; [done|done|apply example_row_major|apply example_partition_ok; by right|].
      intros g (t & iElem & iNode & He & Hn & ->). destruct t; simpl in He; [|lia].
      assert (iElem = 0) as -> by lia.
      destruct iNode as [|[|[|?]]]; [by vm_compute..|]. unfold N_POINTS in Hn. simpl in Hn.
      unfold N_POINTS_TRIANGLE in Hn. lia.
    + split_and!; [done|done|apply example_row_major|apply example_partition_ok; by right|].
      intros g (t & iElem & iNode & He & Hn & ->). destruct t; simpl in He; [lia|].
      assert (iElem = 0) as -> by lia.
      destruct iNode as [|[|[|[|?]]]]; [by vm_compute..|]. unfold N_POINTS in Hn. simpl in Hn.
      unfold N_POINTS_QUADRILATERAL in Hn. lia.
Qed.

Lemma halo_node_set_invariant_witness :
  StronglySorted N.lt (sorted_halo_nodes (Reprocess_demand Example.w0))
  ∧ NoDup (sorted_halo_nodes (Reprocess_demand Example.w0))
  ∧ num_halo_nodes (Reprocess_demand Example.w0)
    = length (sorted_halo_nodes (Reprocess_demand Example.w0))
  ∧ ∀ g, g ∈ sorted_halo_nodes (Reprocess_demand Example.w0) ↔
         referenced (dataSorter Example.w0) g
         ∧ FindProcessor (dataSorter Example.w0) g ≠ rank Example.w0.
Proof.
  apply (halo_node_set_invariant 0%Z Example.show 0 Example.w0). apply example_row_major.
Defined.

Lemma halo_completeness_witness :
  let g := usub (GetElem_Connectivity (dataSorter Example.w0) TRIANGLE 0 1) 1 in
  let owner := FindProcessor (dataSorter Example.w0) g in
  ∃ w' wp,
    ReprocessElementConnectivity 0%Z Example.world !! 0 = Some w'
    ∧ Example.world !! owner = Some wp
    ∧ GetHaloNodeValue 0%Z w' g 1
      = Ok (GetData (dataSorter wp) 1 (usub g (GetNodeBegin (dataSorter wp) owner))).
Proof.
  intros g owner.
  apply (halo_completeness 0%Z Example.show 0 Example.world 3 0 Example.w0 TRIANGLE 0 1 1).
  - apply example_valid_mesh.
  - lia.
  - reflexivity.
  - simpl. lia.
  - unfold N_POINTS, N_POINTS_TRIANGLE. lia.
  - lia.
  - vm_compute. lia.
Defined.

Lemma halo_blocks_by_owner_witness :
  let block q :=
    filter (λ g, FindProcessor (dataSorter Example.w0) g = q) (halo_set Example.w0) in
  ∃ w2 w3,
    (Reprocess_displacements <$> after_demand Example.world) !! 0 = Some w2
    ∧ after_requests Example.world !! 1 = Some w3
    ∧ halo_set Example.w0 = mjoin (block <$> seq 0 (length Example.world))
    ∧ take (num_nodes_to_receive w2 !!! 1)
           (drop (nodes_to_receive_displacements w2 !!! 1) (sorted_halo_nodes w2))
      = block 1
    ∧ num_nodes_to_receive w2 !!! 1 = length (block 1)
    ∧ nodes_to_receive_displacements w2 !!! 1 = sum_list (take 1 (num_nodes_to_receive w2))
    ∧ take (num_nodes_to_send w3 !!! 0)
           (drop (nodes_to_send_displacements w3 !!! 0) (nodes_to_send w3))
      = block 1.
Proof.
  apply (halo_blocks_by_owner 0%Z Example.show 0 Example.world 3 0 1 Example.w0).
  - apply example_valid_mesh.
  - reflexivity.
  - simpl. lia.
Defined.

Lemma example_valid_mesh4 : valid_mesh 4 Example.world4.
Proof.
  split.
  - intros [|[|r]] w Hr; simplify_eq/=; done.
  - constructor; [|constructor; [|constructor]].
    + split_and!; [done|done|apply example_row_major|apply example_partition_ok; by right|].
      intros g (t & iElem & iNode & He & Hn & ->). destruct t; simpl in He; [|lia].
      assert (iElem = 0) as -> by lia.
      destruct iNode as [|[|[|?]]]; [by vm_compute..|]. unfold N_POINTS in Hn. simpl in Hn.
      unfold N_POINTS_TRIANGLE in Hn. lia.
    + split_and!; [done|done|apply example_row_major|apply example_partition_ok; by right|].
      intros g (t & iElem & iNode & He & Hn & ->). destruct t; simpl in He; [lia|].
      assert (iElem = 0) as -> by lia.
      destruct iNode as [|[|[|[|?]]]]; [by vm_compute..|]. unfold N_POINTS in Hn. simpl in Hn.
      unfold N_POINTS_QUADRILATERAL in Hn. lia.
Qed.

Lemma example_valid_alone : valid_mesh 3 [Example.alone].
Proof.
  split.
  - intros [|r] w Hr; simplify_eq/=; done.
  - constructor; [|constructor].
    split_and!; [done|done|apply example_row_major|apply example_partition_ok; by left|].
    intros g (t & iElem & iNode & He & Hn & ->). destruct t; simpl in He.
    + destruct iElem as [|[|?]]; [| |lia];
        (destruct iNode as [|[|[|?]]]; [by vm_compute..|]; unfold N_POINTS in Hn;
         simpl in Hn; unfold N_POINTS_TRIANGLE in Hn; lia).
    + assert (iElem = 0) as -> by lia.
      destruct iNode as [|[|[|[|?]]]]; [by vm_compute..|]. unfold N_POINTS in Hn. simpl in Hn.
      unfold N_POINTS_QUADRILATERAL in Hn. lia.
Qed.

(** [Example.serving] is the state that rank 1 reaches. *)
Lemma example_serving_reached : after_requests Example.world !! 1 = Some Example.serving.
Proof. vm_compute. reflexivity. Qed.

(** On the example, rank 1 sends to rank 0 the values 400 600 401 601 402 602:
    the three fields of node 4 are not side by side. *)
Lemma data_phase_packing_counterexample :
  take (num_values_to_send (Reprocess_pack 0%Z Example.serving) !!! 0)
       (drop (values_to_send_displacements (Reprocess_pack 0%Z Example.serving) !!! 0)
             (data_to_send (Reprocess_pack 0%Z Example.serving)))
  ≠ node_major_block Example.serving 0.
Proof. vm_compute. intros Heq. discriminate Heq. Qed.

Lemma data_phase_packing_witness :
  let nVar := length (fieldnames Example.serving) in
  let w' := Reprocess_pack 0%Z Example.serving in
  num_values_to_send w' !!! 0 = num_nodes_to_send Example.serving !!! 0 * nVar
  ∧ take (num_values_to_send w' !!! 0)
         (drop (values_to_send_displacements w' !!! 0) (data_to_send w'))
    = mjoin ((λ iVar,
                (λ iNode,
                   GetData (dataSorter Example.serving) iVar
                     (usub (nodes_to_send Example.serving
                              !!! (nodes_to_send_displacements Example.serving !!! 0 + iNode))
                           (GetNodeBegin (dataSorter Example.serving) (rank Example.serving))))
                  <$> seq 0 (num_nodes_to_send Example.serving !!! 0))
               <$> seq 0 nVar).
Proof.
  apply (data_phase_packing 0%Z Example.serving 0).
  - simpl. lia.
  - reflexivity.
  - reflexivity.
  - simpl. lia.
Defined.


Lemma facet_count_conservation_witness :
  let counts := (λ w : CSTLFileWriter Z,
                   GetnElem (dataSorter w) TRIANGLE
                   + GetnElem (dataSorter w) QUADRILATERAL * 2) <$> Example.world in
  ∃ ws' calls wm',
    GatherCoordData 0%Z 0 (ReprocessElementConnectivity 0%Z Example.world) = Ok (ws', calls)
    ∧ Write_Data 0%Z Example.show 0 Example.world
      = Ok (write_file 0%Z Example.show 0 <$> ws')
    ∧ ws' !! 0 = Some wm'
    ∧ Buffer_Recv_nTriaAll wm' = Some counts
    ∧ write_file 0%Z Example.show 0 wm'
      = Some {| precision := 6; opened := Some (fileName Example.w0);
                text := stl_text 0%Z Example.show 6 (gathered_triangles 0%Z wm') |}
    ∧ length (gathered_triangles 0%Z wm') = sum_list counts.
Proof.
  intros counts.
  destruct (facet_count_conservation 0%Z Example.show 0 Example.world 3 Example.w0)
    as (ws' & calls & wm' & HG & HW & Hwm' & Hcounts & Hfile & Hlen & _).
  - apply example_valid_mesh.
  - lia.
  - reflexivity.
  - exists ws', calls, wm'. split_and!; assumption.
Defined.


Lemma single_rank_round_trip_witness :
  ∃ w' w4 ws'',
    ReprocessElementConnectivity 0%Z [Example.alone] = [w']
    ∧ halo_set Example.alone = [] ∧ num_halo_nodes w' = 0
    ∧ length (sorted_halo_nodes w') = 1 ∧ length (nodes_to_send w') = 1
    ∧ length (data_to_send w') = 1 ∧ length (halo_var_data w') = 1
    ∧ GatherCoordData_counts 0%Z 0 [w'] = [w4]
    ∧ load_send_buffer 0%Z w4
      = Ok (direct_enumeration (dataSorter Example.alone) 0,
            length (direct_enumeration (dataSorter Example.alone) 0), [])
    ∧ GatherCoordData 0%Z 0 [w'] = Ok (ws'', [[]]).
Proof.
  apply (single_rank_round_trip 0%Z Example.show 0 Example.alone 3).
  apply example_valid_alone.
Defined.

Lemma Write_Data_deterministic_witness :
  ∃ files1 files2,
    Write_Data 0%Z Example.show 0 Example.world = Ok files1
    ∧ Write_Data 0%Z Example.show 0 Example.world4 = Ok files2
    ∧ written <$> files1 = written <$> files2
    ∧ written <$> files1
      = (λ r, if decide (r = 0)
              then Some (stl_text 0%Z Example.show 6
                           (mesh_facets 0%Z (dataSorter <$> Example.world)))
              else None)
          <$> seq 0 (length Example.world).
Proof.
  apply (Write_Data_deterministic 0%Z Example.show 0 Example.world Example.world4 3 4).
  - apply example_valid_mesh.
  - apply example_valid_mesh4.
  - lia.
  - lia.
  - reflexivity.
Defined.

(** * The further properties on the example mesh *)


Lemma counts_accumulate_witness :
  num_nodes_to_receive (Reprocess_demand Example.w0) !!! 1
  = resize (size Example.w0) 0 (num_nodes_to_receive Example.w0) !!! 1
    + length (requested_from Example.w0 1)
  ∧ (freshly_constructed Example.w0 →
     num_nodes_to_receive (Reprocess_demand (Reprocess_demand Example.w0)) !!! 1
     = 2 * length (requested_from Example.w0 1)).
Proof. apply (counts_accumulate Example.w0 1). simpl. lia. Defined.

Lemma displacements_are_prefix_sums_witness :
  nodes_to_send_displacements (Reprocess_displacements Example.serving) !!! 1
  = sum_list (take 1 (num_nodes_to_send Example.serving))
  ∧ nodes_to_receive_displacements (Reprocess_displacements Example.serving) !!! 1
    = sum_list (take 1 (num_nodes_to_receive Example.serving))
  ∧ length (nodes_to_send (Reprocess_displacements Example.serving))
    = max 1 (sum_list (take (size Example.serving) (num_nodes_to_send Example.serving)))
  ∧ sorted_halo_nodes (Reprocess_displacements Example.serving) ≠ [].
Proof.
  apply (displacements_are_prefix_sums Example.serving 1).
  - simpl. lia.
  - simpl. lia.
Defined.

Lemma counts_agree_after_exchange_witness :
  let wp := default Example.w1 (after_demand Example.world !! 1) in
  let wr := default Example.w0 (after_demand Example.world !! 0) in
  num_nodes_to_send wp !!! 0 = num_nodes_to_receive wr !!! 1
  ∧ num_nodes_to_send wp !!! 0 = length (requested Example.world 0 1).
Proof.
  intros wp wr.
  apply (counts_agree_after_exchange Example.world 1 0 wp wr).
  - apply example_valid_mesh.
  - repeat constructor.
  - vm_compute. reflexivity.
  - vm_compute. reflexivity.
Defined.

Lemma halo_data_layout_witness :
  ∃ w', ReprocessElementConnectivity 0%Z Example.world !! 0 = Some w'
        ∧ length (halo_var_data w') = max 1 (3 * length (halo_set Example.w0))
        ∧ take (3 * length (halo_set Example.w0)) (halo_var_data w')
          = mjoin ((λ p,
                      from_option
                        (λ wp, mjoin ((λ iVar,
                                         (λ g, GetData (dataSorter wp) iVar
                                                 (usub g (GetNodeBegin (dataSorter wp) p)))
                                           <$> requested_from Example.w0 p)
                                        <$> seq 0 3))
                        [] (Example.world !! p))
                     <$> seq 0 (length Example.world)).
Proof.
  apply (halo_data_layout 0%Z Example.show 0 Example.world 3 0 Example.w0).
  - apply example_valid_mesh.
  - reflexivity.
Defined.

Lemma halo_lookups_made_witness :
  ∃ ws',
    GatherCoordData 0%Z 0 (ReprocessElementConnectivity 0%Z Example.world)
    = Ok (ws',
          (λ w : CSTLFileWriter Z,
             (tria_nodes (dataSorter w) ++ quad_nodes (dataSorter w)) ≫= λ g,
               if decide (FindProcessor (dataSorter w) g = rank w) then []
               else [(g, 0); (g, 1); (g, 2)]) <$> Example.world).
Proof.
  apply (halo_lookups_made 0%Z Example.show 0 Example.world 3).
  - apply example_valid_mesh.
  - lia.
Defined.

Lemma gathered_array_layout_witness :
  ∃ ws' calls wm',
    GatherCoordData 0%Z 0 (ReprocessElementConnectivity 0%Z Example.world) = Ok (ws', calls)
    ∧ ws' !! 0 = Some wm'
    ∧ length (deref (bufD_Recv wm')) = length Example.world * 2 * 3 * 3.
Proof.
  destruct (gathered_array_layout 0%Z Example.show 0 Example.world 3 Example.w0)
    as (ws' & calls & wm' & HG & Hwm' & _ & _ & Hlen).
  - apply example_valid_mesh.
  - lia.
  - reflexivity.
  - exists ws', calls, wm'. split_and!; assumption.
Defined.

Lemma GetHaloNodeValue_not_found_iff_witness :
  GetHaloNodeValue 0%Z Example.starved 6 0 = Fatal "STL File-Writer: Halo node not found."
  ↔ sum_list (num_nodes_to_receive Example.starved)
    ≤ lower_bound (sorted_halo_nodes Example.starved) 6.
Proof.
  apply (GetHaloNodeValue_not_found_iff 0%Z Example.starved 6%N 0).
  - reflexivity.
  - reflexivity.
  - intros [|[|p]] Hp; simpl in *; lia.
Defined.

Lemma halo_node_position_witness :
  ∃ w', ReprocessElementConnectivity 0%Z Example.world !! 0 = Some w'
        ∧ ∀ g, (lower_bound (sorted_halo_nodes w') g < num_halo_nodes w'
                ∧ sorted_halo_nodes w' !! lower_bound (sorted_halo_nodes w') g = Some g)
               ↔ (referenced (dataSorter Example.w0) g
                  ∧ FindProcessor (dataSorter Example.w0) g ≠ 0).
Proof.
  apply (halo_node_position 0%Z Example.show 0 Example.world 3 0 Example.w0).
  - apply example_valid_mesh.
  - reflexivity.
Defined.

Lemma parcels_by_owner_iff_witness :
  let w2 := Reprocess_displacements (set_num_nodes_to_send [] (Reprocess_demand Example.w0)) in
  (∀ p, p < size Example.w0 →
        take (num_nodes_to_receive w2 !!! p)
             (drop (nodes_to_receive_displacements w2 !!! p) (sorted_halo_nodes w2))
        = requested_from Example.w0 p)
  ↔ StronglySorted (λ x y, FindProcessor (dataSorter Example.w0) x
                           ≤ FindProcessor (dataSorter Example.w0) y)
                   (halo_set Example.w0).
Proof.
  apply (parcels_by_owner_iff 0%Z Example.show 0 Example.w0 []).
  - reflexivity.
  - simpl. lia.
  - assert (halo_set Example.w0 = [4; 6]%N) as -> by (vm_compute; reflexivity).
    constructor; [vm_compute; lia|constructor; [vm_compute; lia|constructor]].
Defined.
